(** * crud_app: the Cloudflare worker of [src/worker.js]

    A shallow embedding of the request path of the worker that wrangler
    deploys ([main = "src/worker.js"]): the router
    [fetch], the fixed-window rate limiter [checkRateLimit] with its two
    counter backends (the KV namespace and the process-local [Map]), and
    the items repository [handleItemsAPI] over the D1 table [items].

    JavaScript values are modelled as follows.
    - Strings are [string], read as text in UTF-8, the encoding in which a
      request body arrives and in which D1 keeps a TEXT: a code point is a
      run of one to four bytes.  The white space that [trim] and [parseInt]
      recognise is all of ECMAScript's WhiteSpace and LineTerminator
      productions (TAB to CR, SP, U+00A0, U+1680, U+2000 to U+200A, U+2028,
      U+2029, U+202F, U+205F, U+3000 and U+FEFF), each by its encoding.
    - Numbers are IEEE doubles.  The worker computes with integers only
      (clock readings, counters, page and limit), so a finite number is
      [Num z], the double of integer value [z]; [number] adds [NaN] and
      the two infinities.  [parseInt] and the arithmetic round an exact
      result to the nearest double ([JsNumber.of_integer]): exact up to
      [2 ^ 53], rounded beyond, an infinity from [2 ^ 1024] on.
    - Exceptions are a [Throw] outcome of a small state-and-exception monad
      [M]; [try_catch] is [try { } catch { }].
    - The platform objects (KV namespace, D1 database, [globalThis], the
      console) live in a [World] record that every call threads through;
      every access to them is also recorded in [trace].  The platform's
      own rules are part of the model where the worker meets them: a KV
      namespace refuses an [expirationTtl] below 60 seconds, D1 binds only
      a safe integer as an INTEGER, and SQLite compares a TEXT parameter
      with the INTEGER column [id] by its numeric reading. *)

From Stdlib Require Import ZArith QArith Ascii String List Bool Lia.
From Stdlib Require Import DecimalString DecimalZ DecimalPos Sorted.
From stdpp Require Import base option list gmap strings fin_maps.

Local Open Scope string_scope.
Local Open Scope Z_scope.

(** ** JavaScript strings *)

Module JsString.

(** The code of a byte. *)
Definition code (c : ascii) : N := N_of_ascii c.

(** [s] read from its end. *)
Fixpoint reverse (s : string) : string :=
  match s with
  | EmptyString => EmptyString
  | String c s' => reverse s' +:+ String c EmptyString
  end.

(** The code points that [trim] and [parseInt] take for white space are
    the WhiteSpace and LineTerminator productions of ECMAScript.  Those
    with a one-byte encoding: TAB, LF, VT, FF, CR and SP. *)
Definition whitespace1 (a : ascii) : bool :=
  ((9 <=? code a) && (code a <=? 13) || (code a =? 32))%N.

(** Two bytes: U+00A0, the no-break space. *)
Definition whitespace2 (a b : ascii) : bool :=
  ((code a =? 194) && (code b =? 160))%N.

(** Three bytes: U+1680; U+2000 to U+200A, U+2028, U+2029 and U+202F;
    U+205F; U+3000; U+FEFF. *)
Definition whitespace3 (a b c : ascii) : bool :=
  ((code a =? 225) && (code b =? 154) && (code c =? 128)
   || (code a =? 226) && (code b =? 128)
      && ((128 <=? code c) && (code c <=? 138)
          || (code c =? 168) || (code c =? 169) || (code c =? 175))
   || (code a =? 226) && (code b =? 129) && (code c =? 159)
   || (code a =? 227) && (code b =? 128) && (code c =? 128)
   || (code a =? 239) && (code b =? 187) && (code c =? 191))%N.

(** The number of bytes of the white-space code point at the head of [s],
    0 when there is none.  With [backwards] the string is one that is read
    from its end, so that the bytes of a code point come last byte
    first. *)
Definition whitespace_head (backwards : bool) (s : string) : nat :=
  match s with
  | String a r1 =>
      if whitespace1 a then 1%nat
      else match r1 with
           | String b r2 =>
               if (if backwards then whitespace2 b a else whitespace2 a b) then 2%nat
               else match r2 with
                    | String c _ =>
                        if (if backwards then whitespace3 c b a else whitespace3 a b c)
                        then 3%nat else 0%nat
                    | EmptyString => 0%nat
                    end
           | EmptyString => 0%nat
           end
  | EmptyString => 0%nat
  end.

(** [s] without the white space at its head. *)
Fixpoint strip (backwards : bool) (s : string) : string :=
  match s with
  | String a r1 =>
      if whitespace1 a then strip backwards r1
      else match r1 with
           | String b r2 =>
               if (if backwards then whitespace2 b a else whitespace2 a b)
               then strip backwards r2
               else match r2 with
                    | String c r3 =>
                        if (if backwards then whitespace3 c b a else whitespace3 a b c)
                        then strip backwards r3 else s
                    | EmptyString => s
                    end
           | EmptyString => s
           end
  | EmptyString => s
  end.

(** [String.prototype.trimStart] *)
Definition trimStart (s : string) : string := strip false s.

(** [String.prototype.trimEnd] *)
Definition trimEnd (s : string) : string := reverse (strip true (reverse s)).

(** [String.prototype.trim] *)
Definition trim (s : string) : string := trimEnd (trimStart s).

(** [s.startsWith(p)] *)
Definition startsWith (s p : string) : bool := String.prefix p s.

(** [s.split(sep)] for a one-character separator: the pieces between the
    separators, empty pieces included. *)
Fixpoint split (sep : ascii) (s : string) : list string :=
  match s with
  | EmptyString => [EmptyString]
  | String c s' =>
      if Ascii.eqb c sep then EmptyString :: split sep s'
      else match split sep s' with
           | h :: t => String c h :: t
           | [] => [String c EmptyString]
           end
  end.

(** The last piece of a split. *)
Definition last_piece (sep : ascii) (s : string) : string :=
  List.last (split sep s) "".

(** ASCII lower-casing, as [Headers] applies it to header names. *)
Definition lower_ascii (c : ascii) : ascii :=
  let n := nat_of_ascii c in
  if ((65 <=? n)%nat && (n <=? 90)%nat) then ascii_of_nat (n + 32) else c.

Fixpoint toLowerCase (s : string) : string :=
  match s with
  | EmptyString => EmptyString
  | String c s' => String (lower_ascii c) (toLowerCase s')
  end.

(** Occurrence of a character in a string. *)
Fixpoint contains (c : ascii) (s : string) : bool :=
  match s with
  | EmptyString => false
  | String a s' => Ascii.eqb a c || contains c s'
  end.

(** Whether every character of a string passes a test. *)
Fixpoint all (p : ascii -> bool) (s : string) : bool :=
  match s with
  | EmptyString => true
  | String a s' => p a && all p s'
  end.

Definition is_digit (c : ascii) : bool :=
  let n := nat_of_ascii c in (48 <=? n)%nat && (n <=? 57)%nat.

End JsString.

(** ** JavaScript numbers *)

(** [Num z] is the double whose value is the integer [z]. *)
Inductive number : Type :=
| Num (z : Z)
| NaN
| PosInfinity
| NegInfinity.

Module JsNumber.

(** [Number.MAX_SAFE_INTEGER]: up to here every integer is a double. *)
Definition MAX_SAFE_INTEGER : Z := 2 ^ 53 - 1.

Definition is_safe_integer (z : Z) : bool :=
  (- MAX_SAFE_INTEGER <=? z) && (z <=? MAX_SAFE_INTEGER).

(** The double nearest to a non-negative integer [a], ties to the even
    significand: from [2 ^ 53] on, [a] is cut to its leading 53 bits [q],
    and the [e] bits [r] that are cut off decide whether [q] goes up. *)
Definition nearest_double (a : Z) : Z :=
  if a <? 2 ^ 53 then a
  else
    let e := Z.log2 a - 52 in
    let q := a / 2 ^ e in
    let r := a mod 2 ^ e in
    let half := 2 ^ (e - 1) in
    let up := (half <? r) || ((half =? r) && Z.odd q) in
    (if up then q + 1 else q) * 2 ^ e.

(** The number that an integer result becomes: the nearest double, and an
    infinity from [2 ^ 1024] on. *)
Definition of_integer (z : Z) : number :=
  let v := nearest_double (Z.abs z) in
  if 2 ^ 1024 <=? v then (if z <? 0 then NegInfinity else PosInfinity)
  else Num (Z.sgn z * v).

(** [Number.prototype.toString] of an integer: decimal digits, with a
    leading minus sign for negatives.  (From 21 digits on JavaScript
    writes an exponent; the worker turns no such number into a string
    that it goes on to use.) *)
Definition Z_toString (z : Z) : string :=
  NilEmpty.string_of_int (Z.to_int z).

Definition toString (n : number) : string :=
  match n with
  | Num z => Z_toString z
  | NaN => "NaN"
  | PosInfinity => "Infinity"
  | NegInfinity => "-Infinity"
  end.

(** Value of a character as a digit in the given radix (10 or 16). *)
Definition digit_value (radix : Z) (c : ascii) : option Z :=
  let n := Z.of_nat (nat_of_ascii c) in
  let v :=
    if (48 <=? n) && (n <=? 57) then Some (n - 48)
    else if (97 <=? n) && (n <=? 122) then Some (n - 87)
    else if (65 <=? n) && (n <=? 90) then Some (n - 55)
    else None in
  match v with
  | Some d => if d <? radix then Some d else None
  | None => None
  end.

(** The digit loop of [parseInt]: consume the longest run of digits;
    no digit at all gives [NaN].  The result is the number nearest to the
    integer that the digits spell. *)
Fixpoint parse_digits (radix : Z) (s : string) (acc : Z) (seen : bool) : number :=
  match s with
  | EmptyString => if seen then of_integer acc else NaN
  | String c s' =>
      match digit_value radix c with
      | Some d => parse_digits radix s' (acc * radix + d) true
      | None => if seen then of_integer acc else NaN
      end
  end.

Definition negate (n : number) : number :=
  match n with
  | Num z => Num (- z)
  | NaN => NaN
  | PosInfinity => NegInfinity
  | NegInfinity => PosInfinity
  end.

(** After the sign: an optional [0x] / [0X] selects radix 16. *)
Definition parse_unsigned (s : string) : number :=
  if String.prefix "0x" s || String.prefix "0X" s
  then parse_digits 16 (String.substring 2 (String.length s - 2) s) 0 false
  else parse_digits 10 s 0 false.

(** [parseInt(s)] without a radix argument: leading white space is
    skipped, then comes an optional sign. *)
Definition parseInt (s : string) : number :=
  match JsString.trimStart s with
  | EmptyString => NaN
  | String c rest as s' =>
      if Ascii.eqb c "-" then negate (parse_unsigned rest)
      else if Ascii.eqb c "+" then parse_unsigned rest
      else parse_unsigned s'
  end.

(** Arithmetic used by the worker: the exact result, rounded; [NaN] is
    contagious. *)
Definition add (a b : number) : number :=
  match a, b with
  | Num x, Num y => of_integer (x + y)
  | NaN, _ | _, NaN => NaN
  | PosInfinity, NegInfinity | NegInfinity, PosInfinity => NaN
  | PosInfinity, _ | _, PosInfinity => PosInfinity
  | NegInfinity, _ | _, NegInfinity => NegInfinity
  end.

Definition sub (a b : number) : number := add a (negate b).

Definition mul (a b : number) : number :=
  match a, b with
  | Num x, Num y => of_integer (x * y)
  | NaN, _ | _, NaN => NaN
  | Num 0, _ | _, Num 0 => NaN
  | PosInfinity, Num y => if 0 <? y then PosInfinity else NegInfinity
  | NegInfinity, Num y => if 0 <? y then NegInfinity else PosInfinity
  | Num x, PosInfinity => if 0 <? x then PosInfinity else NegInfinity
  | Num x, NegInfinity => if 0 <? x then NegInfinity else PosInfinity
  | PosInfinity, PosInfinity | NegInfinity, NegInfinity => PosInfinity
  | PosInfinity, NegInfinity | NegInfinity, PosInfinity => NegInfinity
  end.

(** [a >= b]; any comparison with [NaN] is false. *)
Definition geb (a b : number) : bool :=
  match a, b with
  | Num x, Num y => y <=? x
  | NaN, _ | _, NaN => false
  | PosInfinity, _ => true
  | _, NegInfinity => true
  | _, _ => false
  end.

(** Ceiling of the exact quotient of two integers, [b <> 0]. *)
Definition ceil_div (a b : Z) : Z := - ((- a) / b).

(** [Math.ceil(a / b)] for an integer [a] (a row count) and a number
    [b]: a zero divisor gives an infinity or [NaN], an infinite one gives
    a zero. *)
Definition ceil_quot (a : Z) (b : number) : number :=
  match b with
  | Num 0 => if a =? 0 then NaN else if 0 <? a then PosInfinity else NegInfinity
  | Num y => Num (ceil_div a y)
  | NaN => NaN
  | PosInfinity | NegInfinity => Num 0
  end.

(** Truthiness of a number: everything but zero and [NaN]. *)
Definition truthy (n : number) : bool :=
  match n with
  | Num 0 | NaN => false
  | _ => true
  end.

End JsNumber.

#[global] Arguments JsNumber.nearest_double : simpl never.
#[global] Arguments JsNumber.of_integer : simpl never.

(** ** JSON values, requests and responses *)

#[local] Set Warnings "-register-all".

(** A parsed JSON document.  Numbers of a request body can be fractional,
    so they are rationals. *)
Inductive json : Type :=
| JNull
| JBool (b : bool)
| JNumber (q : Q)
| JString (s : string)
| JArray (elements : list json)
| JObject (fields : list (string * json)).

#[local] Set Warnings "register-all".

(** A JavaScript value read out of a parsed body: [None] is [undefined]. *)
Abbreviation jsvalue := (option json).

Module Json.

(** Lookup in an association list keyed by strings. *)
Fixpoint assoc {A : Type} (k : string) (l : list (string * A)) : option A :=
  match l with
  | [] => None
  | (k', v) :: l' => if String.eqb k' k then Some v else assoc k l'
  end.

(** [ToBoolean]: [undefined], [null], [false], zero and the empty string
    are falsy, everything else (objects and arrays included) is truthy. *)
Definition truthy (v : jsvalue) : bool :=
  match v with
  | None | Some JNull => false
  | Some (JBool b) => b
  | Some (JNumber q) => negb (Qnum q =? 0)
  | Some (JString s) => negb (String.eqb s "")
  | Some (JArray _) | Some (JObject _) => true
  end.

(** An integer as a JSON number. *)
Definition of_Z (z : Z) : json := JNumber (inject_Z z).

(** [JSON.stringify] writes [NaN] and the infinities as [null]. *)
Definition of_number (n : number) : json :=
  match n with
  | Num z => of_Z z
  | _ => JNull
  end.

Definition of_option_string (o : option string) : json :=
  match o with
  | Some s => JString s
  | None => JNull
  end.

(** Field of a JSON object, [None] when the value is no object or has
    no such field. *)
Definition field (k : string) (j : json) : option json :=
  match j with
  | JObject fields => assoc k fields
  | _ => None
  end.

End Json.

(** An exception value: its [name] and its [message]. *)
Record JsError : Type := mkError { error_name : string; error_message : string }.

(** The parts of a [Request] the worker reads: [request.method] (the
    platform has put the standard method names in upper case), the
    [pathname] and the [searchParams] of [new URL(request.url)], the
    headers, and the body.  [req_body] is what [request.json()] resolves
    to; [None] is a body that is not well-formed JSON, for which
    [request.json()] rejects.  The fields of a [JObject] are the properties
    of the parsed object. *)
Record Request : Type := mkRequest {
  req_method : string;
  req_pathname : string;
  req_searchParams : list (string * string);
  req_headers : list (string * string);
  req_body : option json
}.

(** [url.searchParams.get(name)]: the first value given for [name]. *)
Definition searchParams_get (request : Request) (name : string) : option string :=
  Json.assoc name (req_searchParams request).

(** [request.headers.get(name)]: header names compare without case. *)
Definition headers_get (request : Request) (name : string) : option string :=
  snd <$> List.find
    (fun h => String.eqb (JsString.toLowerCase (fst h)) (JsString.toLowerCase name))
    (req_headers request).

(** [a || b] on values that are a string or [null]: the empty string is
    falsy as well. *)
Definition or_else (a : option string) (b : option string) : option string :=
  match a with
  | Some EmptyString | None => b
  | Some _ => a
  end.

Definition or_default (a : option string) (d : string) : string :=
  match a with
  | Some EmptyString | None => d
  | Some s => s
  end.

(** The body of a [Response]: none, the HTML page of [getHTML] (a constant
    document, not reproduced here), or a JSON document. *)
Inductive Body : Type :=
| BodyNull
| BodyHtml
| BodyJson (j : json).

Record Response : Type := mkResponse {
  status : Z;
  headers : list (string * string);
  body : Body
}.

Definition body_field (k : string) (r : Response) : option json :=
  match body r with
  | BodyJson j => Json.field k j
  | _ => None
  end.

(** ** The D1 table [items]

    [items(id INTEGER PRIMARY KEY AUTOINCREMENT, name TEXT NOT NULL,
    description TEXT, created_at TIMESTAMP DEFAULT CURRENT_TIMESTAMP)].
    The storage engine is outside the worker; this is the part of SQLite's
    behaviour that the six statements of the worker rely on.  A statement
    always answers, except that a LIMIT or OFFSET that is no integer is
    refused.  Ids and row counts are integers of the engine; a database
    of D1 is far too small for either to leave the safe integers, so the
    worker's numbers for them are exact. *)

Record Item : Type := mkItem {
  id : Z;
  name : string;
  description : option string;
  created_at : option string
}.

(** A bound statement parameter. *)
Inductive sqlvalue : Type :=
| SqlNumber (n : number)
| SqlText (s : string)
| SqlNull.

(** What the worker meets of a database: the rows, in rowid order; the
    largest id AUTOINCREMENT has handed out; and the engine's reading of a
    TEXT parameter that is compared with the INTEGER column [id].  SQLite
    converts such a text under the numeric affinity of the column, by rules
    of its own (['1.0'] and ['1e0'] are the integer 1, as is a long
    fraction that rounds to it); [numeric_text] gives the integer the text
    is then equal to, if there is one.  The rules are the engine's and no
    part of the worker, so they are a component of the database, and what
    is proved holds for every such reading. *)
Record Database : Type := mkDatabase {
  items : list Item;
  sqlite_sequence : Z;
  numeric_text : string -> option Z
}.

(** The same engine over other rows. *)
Definition with_rows (rows : list Item) (seq : Z) (db : Database) : Database :=
  {| items := rows; sqlite_sequence := seq; numeric_text := numeric_text db |}.

Module D1.

(** The integer a parameter is equal to when it is compared with the
    column [id]: a number that is an integer, or a text that the engine
    reads as one. *)
Definition integer_of (db : Database) (p : sqlvalue) : option Z :=
  match p with
  | SqlNumber (Num z) => Some z
  | SqlText s => numeric_text db s
  | _ => None
  end.

(** [WHERE id = ?] on one row. *)
Definition id_matches (db : Database) (p : sqlvalue) (row_id : Z) : bool :=
  match integer_of db p with
  | Some z => z =? row_id
  | None => false
  end.

(** The engine reads the decimal spelling of [z] as [z]. *)
Definition reads_decimal (db : Database) (z : Z) : Prop :=
  numeric_text db (JsNumber.Z_toString z) = Some z.

(** [SELECT * FROM items WHERE id = ?], [.first()] *)
Definition select_by_id (p : sqlvalue) (db : Database) : option Item :=
  List.find (fun row => id_matches db p (id row)) (items db).

(** [SELECT COUNT( * ) as total FROM items] *)
Definition count (db : Database) : Z := Z.of_nat (length (items db)).

(** Order on [created_at] values: NULL sorts below every text. *)
Definition created_leb (a b : option string) : bool :=
  match a, b with
  | None, _ => true
  | Some _, None => false
  | Some x, Some y => String.leb x y
  end.

(** [ORDER BY created_at DESC] as an insertion sort.  Rows with equal
    [created_at] keep their rowid order; SQLite promises no order among
    them. *)
Fixpoint insert_desc (x : Item) (l : list Item) : list Item :=
  match l with
  | [] => [x]
  | y :: l' =>
      if created_leb (created_at y) (created_at x) then x :: y :: l'
      else y :: insert_desc x l'
  end.

Definition order_by_created_at_desc (rows : list Item) : list Item :=
  fold_right insert_desc [] rows.

(** A number bound to LIMIT or OFFSET: D1 passes a safe integer on as an
    INTEGER; any other number ([NaN], an infinity, a double beyond the
    safe range) reaches SQLite as something that is no integer. *)
Definition bound_integer (n : number) : option Z :=
  match n with
  | Num z => if JsNumber.is_safe_integer z then Some z else None
  | _ => None
  end.

(** [LIMIT ? OFFSET ?]: a negative limit means no limit, a negative
    offset counts as zero, and a value that is no integer is refused. *)
Definition limit_offset (lim off : number) (rows : list Item) : option (list Item) :=
  match bound_integer lim, bound_integer off with
  | Some l, Some o =>
      let rest := drop (Z.to_nat o) rows in
      Some (if l <? 0 then rest else take (Z.to_nat l) rest)
  | _, _ => None
  end.

(** [SELECT * FROM items ORDER BY created_at DESC LIMIT ? OFFSET ?] *)
Definition select_page (lim off : number) (db : Database) : option (list Item) :=
  limit_offset lim off (order_by_created_at_desc (items db)).

Definition max_rowid (rows : list Item) : Z :=
  fold_right (fun row m => Z.max (id row) m) 0 rows.

(** The id AUTOINCREMENT assigns next: one more than the largest id that
    is or ever was in the table. *)
Definition next_id (db : Database) : Z :=
  Z.max (sqlite_sequence db) (max_rowid (items db)) + 1.

(** [INSERT INTO items (name, description) VALUES (?, ?)]; the other two
    columns take their defaults.  Returns [meta.last_row_id]. *)
Definition insert (nm : string) (descr : option string) (timestamp : string)
    (db : Database) : Z * Database :=
  let i := next_id db in
  (i, with_rows (items db ++ [mkItem i nm descr (Some timestamp)]) i db).

(** [UPDATE items SET name = ?, description = ? WHERE id = ?] *)
Definition update (nm : string) (descr : option string) (p : sqlvalue)
    (db : Database) : Database :=
  with_rows (map (fun row =>
                    if id_matches db p (id row)
                    then mkItem (id row) nm descr (created_at row)
                    else row) (items db))
            (sqlite_sequence db) db.

(** [DELETE FROM items WHERE id = ?] *)
Definition delete (p : sqlvalue) (db : Database) : Database :=
  with_rows (List.filter (fun row => negb (id_matches db p (id row))) (items db))
            (sqlite_sequence db) db.

End D1.

(** An item as the JSON object [JSON.stringify] writes for a row. *)
Definition json_of_item (it : Item) : json :=
  JObject [("id", Json.of_Z (id it));
           ("name", JString (name it));
           ("description", Json.of_option_string (description it));
           ("created_at", Json.of_option_string (created_at it))].

(** ** The two counter stores *)

(** A key of the KV namespace: its text value and the time (ms) at which
    it expires. *)
Record KVEntry : Type := mkKVEntry {
  kv_value : string;
  kv_expiration : Z
}.

(** An entry of the process-local map: [{count, expires}]. *)
Record RateEntry : Type := mkRateEntry {
  count : Z;
  expires : Z
}.

(** ** The world a request runs in *)

Inductive Event : Type :=
| KvGet (key : string)
| KvPut (key value : string) (expirationTtl : Z)
| StoreGet (key : string)
| StoreSet (key : string) (entry : RateEntry)
| StoreEntries
| DbStatement (sql : string) (params : list sqlvalue)
| ConsoleWarn (msg : string)
| ConsoleError (msg : string) (err : JsError).

(** [RATE_LIMIT_KV] is the binding [env.RATE_LIMIT_KV] ([None] when it is
    not configured), [DB] is [env.DB], [rateLimitStore] is
    [globalThis.rateLimitStore] ([None] while undefined).  [trace] lists
    the accesses made so far, latest first. *)
Record World : Type := mkWorld {
  RATE_LIMIT_KV : option (gmap string KVEntry);
  DB : Database;
  rateLimitStore : option (gmap string RateEntry);
  trace : list Event
}.

(** What a request reads from its surroundings: the two readings of
    [Date.now()] (in [checkRateLimit], and in [fetch] when it writes the
    429 reply), the draw of [Math.random()], whether the KV service fails
    the [get] or the [put] of this request, and SQLite's
    [CURRENT_TIMESTAMP]. *)
Record Ambient : Type := mkAmbient {
  now : Z;
  now_reply : Z;
  random : Q;
  kv_get_fails : bool;
  kv_put_fails : bool;
  current_timestamp : string
}.

Definition emit (e : Event) (w : World) : World :=
  {| RATE_LIMIT_KV := RATE_LIMIT_KV w; DB := DB w;
     rateLimitStore := rateLimitStore w; trace := e :: trace w |}.

Definition set_kv (kv : gmap string KVEntry) (w : World) : World :=
  {| RATE_LIMIT_KV := Some kv; DB := DB w;
     rateLimitStore := rateLimitStore w; trace := trace w |}.

Definition set_store (m : gmap string RateEntry) (w : World) : World :=
  {| RATE_LIMIT_KV := RATE_LIMIT_KV w; DB := DB w;
     rateLimitStore := Some m; trace := trace w |}.

Definition set_db (db : Database) (w : World) : World :=
  {| RATE_LIMIT_KV := RATE_LIMIT_KV w; DB := db;
     rateLimitStore := rateLimitStore w; trace := trace w |}.

(** ** A monad for state and exceptions *)

Inductive Result (A : Type) : Type :=
| Ok (a : A)
| Throw (e : JsError).
Arguments Ok {A} a.
Arguments Throw {A} e.

Definition M (A : Type) : Type := World -> Result A * World.

#[global] Instance M_ret : MRet M := fun A a w => (Ok a, w).

#[global] Instance M_bind : MBind M := fun A B f m w =>
  match m w with
  | (Ok a, w') => f a w'
  | (Throw e, w') => (Throw e, w')
  end.

Definition throw {A : Type} (e : JsError) : M A := fun w => (Throw e, w).

(** [try { body } catch (e) { handler e }] *)
Definition try_catch {A : Type} (body : M A) (handler : JsError -> M A) : M A :=
  fun w =>
    match body w with
    | (Ok a, w') => (Ok a, w')
    | (Throw e, w') => handler e w'
    end.

Definition get_world : M World := fun w => (Ok w, w).
Definition log (e : Event) : M unit := fun w => (Ok tt, emit e w).

Definition TypeError (msg : string) : JsError := mkError "TypeError" msg.

(** ** Platform calls *)

(** A string-or-null value is truthy when it is a non-empty string. *)
Definition truthy_text (o : option string) : bool :=
  match o with
  | Some EmptyString | None => false
  | Some _ => true
  end.

Module KV.

(** What [get] finds under a key: the value, unless the key is absent
    or has expired. *)
Definition lookup (t : Z) (key : string) (kv : gmap string KVEntry) : option string :=
  match kv !! key with
  | Some e => if t <? kv_expiration e then Some (kv_value e) else None
  | None => None
  end.

Definition unavailable : JsError := mkError "Error" "KV namespace unavailable".

(** [await kv.get(key, { type: 'text' })] *)
Definition get (amb : Ambient) (key : string) : M (option string) :=
  fun w =>
    let w' := emit (KvGet key) w in
    match RATE_LIMIT_KV w with
    | Some kv =>
        if kv_get_fails amb then (Throw unavailable, w')
        else (Ok (lookup (now amb) key kv), w')
    | None => (Throw (TypeError "kv is undefined"), w')
    end.

(** The shortest life a namespace grants a key, in seconds. *)
Definition MIN_EXPIRATION_TTL : Z := 60.

(** The error of a [put] whose [expirationTtl] is below the minimum. *)
Definition ttl_refused (ttl : Z) : JsError :=
  mkError "Error"
    ("KV PUT failed: 400 Invalid expiration_ttl of " +:+ JsNumber.Z_toString ttl
     +:+ ". Expiration TTL must be at least 60.").

(** [await kv.put(key, value, { expirationTtl: ttl })], [ttl] in seconds.
    The namespace refuses an [expirationTtl] below its minimum: the call
    throws and nothing is stored. *)
Definition put (amb : Ambient) (key value : string) (ttl : Z) : M unit :=
  fun w =>
    let w' := emit (KvPut key value ttl) w in
    match RATE_LIMIT_KV w with
    | Some kv =>
        if kv_put_fails amb then (Throw unavailable, w')
        else if ttl <? MIN_EXPIRATION_TTL then (Throw (ttl_refused ttl), w')
        else (Ok tt, set_kv (<[key := mkKVEntry value (now amb + ttl * 1000)]> kv) w')
    | None => (Throw (TypeError "kv is undefined"), w')
    end.

End KV.

#[global] Arguments KV.ttl_refused : simpl never.

Module Store.

(** The map behind [globalThis.rateLimitStore]; empty while undefined. *)
Definition current (w : World) : gmap string RateEntry :=
  default ∅ (rateLimitStore w).

(** [if (!globalThis.rateLimitStore) globalThis.rateLimitStore = new Map()] *)
Definition ensure : M unit :=
  fun w =>
    match rateLimitStore w with
    | Some _ => (Ok tt, w)
    | None => (Ok tt, set_store ∅ w)
    end.

(** [globalThis.rateLimitStore.get(key)] *)
Definition get (key : string) : M (option RateEntry) :=
  fun w => (Ok (current w !! key), emit (StoreGet key) w).

(** [globalThis.rateLimitStore.set(key, entry)] *)
Definition set (key : string) (e : RateEntry) : M unit :=
  fun w => (Ok tt, set_store (<[key := e]> (current w)) (emit (StoreSet key e) w)).

(** [entry.count++] on the entry object held by the map under [key] *)
Definition increment (key : string) (e : RateEntry) : M unit :=
  fun w => (Ok tt, set_store (<[key := mkRateEntry (count e + 1) (expires e)]> (current w)) w).

(** The loop over [entries()] that deletes each entry with
    [value.expires < now]. *)
Definition sweep (t : Z) : M unit :=
  fun w =>
    (Ok tt,
     set_store (filter (fun kv => ¬ (expires kv.2 < t)) (current w))
               (emit StoreEntries w)).

End Store.

Module Db.

Definition select_one_sql : string := "SELECT * FROM items WHERE id = ?".
Definition count_sql : string := "SELECT COUNT(*) as total FROM items".
Definition page_sql : string :=
  "SELECT * FROM items ORDER BY created_at DESC LIMIT ? OFFSET ?".
Definition insert_sql : string := "INSERT INTO items (name, description) VALUES (?, ?)".
Definition update_sql : string :=
  "UPDATE items SET name = ?, description = ? WHERE id = ?".
Definition delete_sql : string := "DELETE FROM items WHERE id = ?".

Definition of_option_string (o : option string) : sqlvalue :=
  match o with
  | Some s => SqlText s
  | None => SqlNull
  end.

(** [db.prepare(select_one_sql).bind(p).first()] *)
Definition first_by_id (p : sqlvalue) : M (option Item) :=
  fun w => (Ok (D1.select_by_id p (DB w)), emit (DbStatement select_one_sql [p]) w).

(** [db.prepare(count_sql).first()], then [.total] *)
Definition total : M Z :=
  fun w => (Ok (D1.count (DB w)), emit (DbStatement count_sql []) w).

(** [db.prepare(page_sql).bind(limit, offset).all()], then [.results] *)
Definition page (lim off : number) : M (list Item) :=
  fun w =>
    let w' := emit (DbStatement page_sql [SqlNumber lim; SqlNumber off]) w in
    match D1.select_page lim off (DB w) with
    | Some rows => (Ok rows, w')
    | None => (Throw (mkError "Error" "D1_ERROR: datatype mismatch"), w')
    end.

(** [db.prepare(insert_sql).bind(name, description).run()], then
    [.meta.last_row_id] *)
Definition insert (amb : Ambient) (nm : string) (descr : option string) : M Z :=
  fun w =>
    let result := D1.insert nm descr (current_timestamp amb) (DB w) in
    (Ok result.1,
     set_db result.2 (emit (DbStatement insert_sql [SqlText nm; of_option_string descr]) w)).

(** [db.prepare(update_sql).bind(name, description, id).run()] *)
Definition update (nm : string) (descr : option string) (p : sqlvalue) : M unit :=
  fun w =>
    (Ok tt, set_db (D1.update nm descr p (DB w))
              (emit (DbStatement update_sql [SqlText nm; of_option_string descr; p]) w)).

(** [db.prepare(delete_sql).bind(id).run()] *)
Definition delete (p : sqlvalue) : M unit :=
  fun w =>
    (Ok tt, set_db (D1.delete p (DB w)) (emit (DbStatement delete_sql [p]) w)).

End Db.

(** ** The rate limiter *)

Definition RATE_LIMIT_WINDOW : Z := 1000.
Definition MAX_REQUESTS_PER_WINDOW : Z := 2.

(** [{ limited, resetTime }]; [resetTime] is present only when limited. *)
Record RateLimitResult : Type := mkRateLimitResult {
  limited : bool;
  resetTime : option Z
}.

Definition not_limited : RateLimitResult := mkRateLimitResult false None.
Definition limited_until (t : Z) : RateLimitResult := mkRateLimitResult true (Some t).

(** The client of a request: the first non-empty one of the two address
    headers, else ["anonymous"]. *)
Definition clientIP (request : Request) : string :=
  or_default (or_else (headers_get request "CF-Connecting-IP")
                      (headers_get request "X-Forwarded-For")) "anonymous".

Definition windowKey (t : Z) : Z := t / RATE_LIMIT_WINDOW.

(** [`rate_limit:${clientIP}:${windowKey}`] *)
Definition rateLimitKey (ip : string) (wk : Z) : string :=
  "rate_limit:" +:+ ip +:+ ":" +:+ JsNumber.Z_toString wk.

(** The branch of [checkRateLimit] taken when [env.RATE_LIMIT_KV] is set.
    [Some r] is a [return r] inside the branch, [None] falls through to
    the final [return { limited: false }]. *)
Definition checkRateLimit_kv (amb : Ambient) (key : string) (wk : Z)
    : M (option RateLimitResult) :=
  currentCount ← KV.get amb key;
  match currentCount with
  | Some (String _ _ as text) =>
      let currentCount := JsNumber.parseInt text in
      if JsNumber.geb currentCount (Num MAX_REQUESTS_PER_WINDOW)
      then mret (Some (limited_until ((wk + 1) * RATE_LIMIT_WINDOW)))
      else
        KV.put amb key (JsNumber.toString (JsNumber.add currentCount (Num 1))) 2;;
        mret None
  | _ =>
      KV.put amb key "1" 2;;
      mret None
  end.

(** The in-memory branch. *)
Definition checkRateLimit_memory (amb : Ambient) (key : string) (wk : Z)
    : M (option RateLimitResult) :=
  log (ConsoleWarn "RATE_LIMIT_KV not configured, using in-memory rate limiting");;
  Store.ensure;;
  entry ← Store.get key;
  early ← match entry with
          | None =>
              Store.set key (mkRateEntry 1 (now amb + RATE_LIMIT_WINDOW * 2));;
              mret None
          | Some e =>
              if MAX_REQUESTS_PER_WINDOW <=? count e
              then mret (Some (limited_until ((wk + 1) * RATE_LIMIT_WINDOW)))
              else Store.increment key e;; mret None
          end;
  match early with
  | Some r => mret (Some r)
  | None =>
      (if Qlt_le_dec (random amb) (1 # 100) then Store.sweep (now amb) else mret tt);;
      mret None
  end.

(** The [try] block of [checkRateLimit]. *)
Definition checkRateLimit_try (request : Request) (amb : Ambient) : M RateLimitResult :=
  let ip := clientIP request in
  let wk := windowKey (now amb) in
  let key := rateLimitKey ip wk in
  w ← get_world;
  early ← (if RATE_LIMIT_KV w is Some _
           then checkRateLimit_kv amb key wk
           else checkRateLimit_memory amb key wk);
  match early with
  | Some r => mret r
  | None => mret not_limited
  end.

(** [checkRateLimit]: the [catch] logs the error and lets the request
    through. *)
Definition checkRateLimit (request : Request) (amb : Ambient) (w : World)
    : RateLimitResult * World :=
  match checkRateLimit_try request amb w with
  | (Ok r, w') => (r, w')
  | (Throw error, w') => (not_limited, emit (ConsoleError "Rate limiting error:" error) w')
  end.

(** ** The items repository *)

Definition json_headers (corsHeaders : list (string * string)) : list (string * string) :=
  ("Content-Type", "application/json") :: corsHeaders.

(** [new Response(JSON.stringify(j), { status, headers: json_headers })] *)
Definition json_response (st : Z) (j : json) (corsHeaders : list (string * string))
    : Response :=
  mkResponse st (json_headers corsHeaders) (BodyJson j).

(** [await request.json()] *)
Definition request_json (request : Request) : M json :=
  match req_body request with
  | Some data => mret data
  | None => throw (mkError "SyntaxError" "Unexpected token in JSON")
  end.

(** [const { name, description } = data]: destructuring [null] throws, a
    value that is no object has neither property. *)
Definition destructure (data : json) : M (jsvalue * jsvalue) :=
  match data with
  | JNull => throw (TypeError "Cannot destructure 'data' as it is null")
  | JObject fields => mret (Json.assoc "name" fields, Json.assoc "description" fields)
  | _ => mret (None, None)
  end.

(** [v.trim()]: only a string has the method. *)
Definition call_trim (v : jsvalue) : M string :=
  match v with
  | Some (JString s) => mret (JsString.trim s)
  | _ => throw (TypeError "trim is not a function")
  end.

(** [!name || name.trim() === ''] *)
Definition name_missing (nm : jsvalue) : M bool :=
  if negb (Json.truthy nm) then mret true
  else s ← call_trim nm; mret (String.eqb s "").

(** [description ? description.trim() : null] *)
Definition description_or_null (descr : jsvalue) : M (option string) :=
  if Json.truthy descr then s ← call_trim descr; mret (Some s)
  else mret None.

Definition json_of_row (row : option Item) : json :=
  match row with
  | Some it => json_of_item it
  | None => JNull
  end.

Definition name_required (corsHeaders : list (string * string)) : Response :=
  json_response 400
    (JObject [("error", JString "Name is required");
              ("details", JString "Please provide a valid name for the item")])
    corsHeaders.

Definition invalid_json (corsHeaders : list (string * string)) : Response :=
  json_response 400
    (JObject [("error", JString "Invalid JSON data");
              ("details", JString "Please provide valid JSON in the request body")])
    corsHeaders.

Definition id_required (corsHeaders : list (string * string)) : Response :=
  json_response 400
    (JObject [("error", JString "ID is required");
              ("details", JString "Please provide an item ID in the URL")])
    corsHeaders.

Definition item_not_found (i : string) (corsHeaders : list (string * string)) : Response :=
  json_response 404
    (JObject [("error", JString "Item not found");
              ("details", JString ("Item with ID " +:+ i +:+ " does not exist"))])
    corsHeaders.

(** The 404 of a read: [{ error: 'Item not found' }] *)
Definition no_such_item (corsHeaders : list (string * string)) : Response :=
  json_response 404 (JObject [("error", JString "Item not found")]) corsHeaders.

(** The 200 of a read: the row itself *)
Definition item_found (it : Item) (corsHeaders : list (string * string)) : Response :=
  json_response 200 (json_of_item it) corsHeaders.

(** The 201 of a create: [{ success, message, item: createdItem }] *)
Definition item_created (createdItem : option Item) (corsHeaders : list (string * string))
    : Response :=
  json_response 201
    (JObject [("success", JBool true);
              ("message", JString "Item created successfully");
              ("item", json_of_row createdItem)])
    corsHeaders.

(** The 200 of an update: [{ success, message, item: updatedItem }] *)
Definition item_updated (updatedItem : option Item) (corsHeaders : list (string * string))
    : Response :=
  json_response 200
    (JObject [("success", JBool true);
              ("message", JString "Item updated successfully");
              ("item", json_of_row updatedItem)])
    corsHeaders.

(** The 200 of a delete: [{ success, message, deletedItem: existingItem }] *)
Definition item_deleted (existingItem : Item) (corsHeaders : list (string * string))
    : Response :=
  json_response 200
    (JObject [("success", JBool true);
              ("message", JString "Item deleted successfully");
              ("deletedItem", json_of_item existingItem)])
    corsHeaders.

(** The id of [/api/items/{id}]: the third non-empty piece of the path,
    when the path has exactly three. *)
Definition path_id (path : string) : option string :=
  let pathParts :=
    List.filter (fun part => (0 <? String.length part)%nat) (JsString.split "/" path) in
  if (length pathParts =? 3)%nat then nth_error pathParts 2 else None.

(** [case 'GET'] *)
Definition handle_get (request : Request) (i : option string)
    (corsHeaders : list (string * string)) : M Response :=
  if truthy_text i then
    item ← Db.first_by_id (Db.of_option_string i);
    match item with
    | None => mret (no_such_item corsHeaders)
    | Some it => mret (item_found it corsHeaders)
    end
  else
    let page := JsNumber.parseInt (or_default (searchParams_get request "page") "1") in
    let limit := JsNumber.parseInt (or_default (searchParams_get request "limit") "10") in
    let offset := JsNumber.mul (JsNumber.sub page (Num 1)) limit in
    total ← Db.total;
    rows ← Db.page limit offset;
    let pages := JsNumber.ceil_quot total limit in
    mret (json_response 200
            (JObject [("items", JArray (map json_of_item rows));
                      ("pagination",
                       JObject [("page", Json.of_number page);
                                ("limit", Json.of_number limit);
                                ("total", Json.of_Z total);
                                ("pages", Json.of_number
                                   (if JsNumber.truthy pages then pages else Num 1))])])
            corsHeaders).

(** [case 'POST'] *)
Definition handle_post (request : Request) (amb : Ambient)
    (corsHeaders : list (string * string)) : M Response :=
  try_catch
    (data ← request_json request;
     '(nm, descr) ← destructure data;
     missing ← name_missing nm;
     if missing : bool then mret (name_required corsHeaders)
     else
       nm' ← call_trim nm;
       descr' ← description_or_null descr;
       last_row_id ← Db.insert amb nm' descr';
       createdItem ← Db.first_by_id (SqlNumber (Num last_row_id));
       mret (item_created createdItem corsHeaders))
    (fun jsonError => mret (invalid_json corsHeaders)).

(** [case 'PUT'] *)
Definition handle_put (request : Request) (i : option string)
    (corsHeaders : list (string * string)) : M Response :=
  if negb (truthy_text i) then mret (id_required corsHeaders)
  else
    try_catch
      (data ← request_json request;
       '(nm, descr) ← destructure data;
       missing ← name_missing nm;
       if missing : bool then mret (name_required corsHeaders)
       else
         existingItem ← Db.first_by_id (Db.of_option_string i);
         match existingItem with
         | None => mret (item_not_found (default "" i) corsHeaders)
         | Some _ =>
             nm' ← call_trim nm;
             descr' ← description_or_null descr;
             Db.update nm' descr' (Db.of_option_string i);;
             updatedItem ← Db.first_by_id (Db.of_option_string i);
             mret (item_updated updatedItem corsHeaders)
         end)
      (fun jsonError => mret (invalid_json corsHeaders)).

(** [case 'DELETE'] *)
Definition handle_delete (i : option string) (corsHeaders : list (string * string))
    : M Response :=
  if negb (truthy_text i) then mret (id_required corsHeaders)
  else
    existingItem ← Db.first_by_id (Db.of_option_string i);
    match existingItem with
    | None => mret (item_not_found (default "" i) corsHeaders)
    | Some it =>
        Db.delete (Db.of_option_string i);;
        mret (item_deleted it corsHeaders)
    end.

Definition method_not_allowed (corsHeaders : list (string * string)) : Response :=
  json_response 405
    (JObject [("error", JString "Method not allowed");
              ("allowed", JArray [JString "GET"; JString "POST"; JString "PUT";
                                  JString "DELETE"; JString "OPTIONS"])])
    corsHeaders.

(** The [switch (method)] inside the [try] block of [handleItemsAPI]. *)
Definition handleItemsAPI_try (request : Request) (amb : Ambient)
    (corsHeaders : list (string * string)) : M Response :=
  let i := path_id (req_pathname request) in
  let method := req_method request in
  if String.eqb method "GET" then handle_get request i corsHeaders
  else if String.eqb method "POST" then handle_post request amb corsHeaders
  else if String.eqb method "PUT" then handle_put request i corsHeaders
  else if String.eqb method "DELETE" then handle_delete i corsHeaders
  else mret (method_not_allowed corsHeaders).

(** [handleItemsAPI(request, env.DB, corsHeaders)]: what escapes the
    [switch] is logged and answered with 500. *)
Definition handleItemsAPI (request : Request) (amb : Ambient)
    (corsHeaders : list (string * string)) (w : World) : Response * World :=
  match handleItemsAPI_try request amb corsHeaders w with
  | (Ok response, w') => (response, w')
  | (Throw error, w') =>
      (json_response 500
         (JObject [("error", JString "Internal server error");
                   ("details", JString (error_message error))])
         corsHeaders,
       emit (ConsoleError "Database error:" error) w')
  end.

(** ** The router *)

Definition corsHeaders : list (string * string) :=
  [("Access-Control-Allow-Origin", "*");
   ("Access-Control-Allow-Methods", "GET, POST, PUT, DELETE, OPTIONS");
   ("Access-Control-Allow-Headers", "Content-Type, Authorization")].

(** [Math.ceil((resetTime - Date.now()) / 1000)] *)
Definition retryAfter (r : RateLimitResult) (amb : Ambient) : number :=
  match resetTime r with
  | Some t => Num (JsNumber.ceil_div (t - now_reply amb) 1000)
  | None => NaN
  end.

Definition rate_limit_exceeded (r : RateLimitResult) (amb : Ambient) : Response :=
  json_response 429
    (JObject [("error", JString "Rate limit exceeded");
              ("message", JString "Too many requests. Please try again later.");
              ("retryAfter", Json.of_number (retryAfter r amb))])
    corsHeaders.

(** Whether [fetch] consults the rate limiter for this request. *)
Definition rate_limited_route (request : Request) : bool :=
  JsString.startsWith (req_pathname request) "/api/items"
  && negb (String.eqb (req_method request) "GET").

(** [getHTML()] returns the page markup; [getSchemaSQL()] has an empty body
    and returns [undefined], which makes a response without a body. *)
Definition getHTML : Body := BodyHtml.
Definition getSchemaSQL : Body := BodyNull.

(** The routes below the rate limiter. *)
Definition dispatch (request : Request) (amb : Ambient) (w : World) : Response * World :=
  let path := req_pathname request in
  if JsString.startsWith path "/api/items" then handleItemsAPI request amb corsHeaders w
  else if String.eqb path "/" then
    (mkResponse 200 (("Content-Type", "text/html") :: corsHeaders) getHTML, w)
  else if String.eqb path "/schema.sql" then
    (mkResponse 200 (("Content-Type", "text/sql") :: corsHeaders) getSchemaSQL, w)
  else (json_response 404 (JObject [("error", JString "Not found")]) corsHeaders, w).

(** [fetch(request, env)] *)
Definition fetch (request : Request) (amb : Ambient) (w : World) : Response * World :=
  if String.eqb (req_method request) "OPTIONS" then
    (mkResponse 200 corsHeaders BodyNull, w)
  else if rate_limited_route request then
    let (rateLimitResult, w') := checkRateLimit request amb w in
    if limited rateLimitResult then (rate_limit_exceeded rateLimitResult amb, w')
    else dispatch request amb w'
  else dispatch request amb w.

(** ** The limiter's view of its counters *)

(** The count the limiter reads under a key at time [t]: the parsed text
    of the live KV entry when the KV namespace is configured, the [count]
    field of the map entry otherwise. *)
Definition counter (t : Z) (key : string) (w : World) : option number :=
  match RATE_LIMIT_KV w with
  | Some kv => JsNumber.parseInt <$> KV.lookup t key kv
  | None => (fun e => Num (count e)) <$> Store.current w !! key
  end.

(** The time at which the counter under a key expires. *)
Definition counter_expiry (key : string) (w : World) : option Z :=
  match RATE_LIMIT_KV w with
  | Some kv => kv_expiration <$> kv !! key
  | None => expires <$> Store.current w !! key
  end.

(** Invariant of the process-local map: the entry of window [wk] expires
    no earlier than two window lengths after the start of [wk].  It holds
    of the empty map and [checkRateLimit] keeps it. *)
Definition store_wf (m : gmap string RateEntry) : Prop :=
  forall ip wk e,
    m !! rateLimitKey ip wk = Some e ->
    (wk + 2) * RATE_LIMIT_WINDOW <= expires e.

(** ** What a computation touches *)

Definition is_limiter_access (e : Event) : bool :=
  match e with
  | KvGet _ | KvPut _ _ _ | StoreGet _ | StoreSet _ _ | StoreEntries => true
  | _ => false
  end.

Definition is_db_access (e : Event) : bool :=
  match e with
  | DbStatement _ _ => true
  | _ => false
  end.

(** [w'] comes from [w] by steps that neither read nor write the counter
    stores. *)
Definition limiter_untouched (w w' : World) : Prop :=
  RATE_LIMIT_KV w' = RATE_LIMIT_KV w /\ rateLimitStore w' = rateLimitStore w /\
  exists evs, trace w' = (evs ++ trace w)%list /\ Forall (fun e => is_limiter_access e = false) evs.

(** [w'] comes from [w] by steps that run no statement on the database. *)
Definition db_untouched (w w' : World) : Prop :=
  DB w' = DB w /\
  exists evs, trace w' = (evs ++ trace w)%list /\ Forall (fun e => is_db_access e = false) evs.

(** [ensures R m Q]: [m] moves the world along [R], and a value it returns
    satisfies [Q]. *)
Definition ensures (R : World -> World -> Prop) {A : Type} (m : M A) (Q : A -> Prop)
    : Prop :=
  forall w, R w (m w).2 /\ forall a, (m w).1 = Ok a -> Q a.

(** [m] reads nothing but the database: from two worlds with the same
    table it returns the same outcome and leaves the same table. *)
Definition db_determined {A : Type} (m : M A) : Prop :=
  forall w1 w2, DB w1 = DB w2 -> (m w1).1 = (m w2).1 /\ DB (m w1).2 = DB (m w2).2.

Abbreviation quiet := (ensures limiter_untouched).

Abbreviation offline := (ensures db_untouched).

(** The statuses the repository and the static routes answer with. *)
Definition plain_status (s : Z) : Prop :=
  s = 200 \/ s = 201 \/ s = 400 \/ s = 404 \/ s = 405 \/ s = 500.

(** What the [try] block can return: no limit, or a limit until the next
    window starts. *)
Definition verdict (t : Z) (r : RateLimitResult) : Prop :=
  r = not_limited \/ r = limited_until ((windowKey t + 1) * RATE_LIMIT_WINDOW).

Definition early_verdict (t : Z) (early : option RateLimitResult) : Prop :=
  verdict t (default not_limited early).

(** ** What a request body carries *)

(** The [name] and [description] properties of the parsed body; [None]
    when the body is no JSON object or lacks the property. *)
Definition body_name (request : Request) : jsvalue :=
  match req_body request with
  | Some (JObject fields) => Json.assoc "name" fields
  | _ => None
  end.

Definition body_description (request : Request) : jsvalue :=
  match req_body request with
  | Some (JObject fields) => Json.assoc "description" fields
  | _ => None
  end.

(** The name is absent ([undefined], or [null] or another falsy value), or
    a string that trims to the empty string. *)
Definition name_blank (v : jsvalue) : Prop :=
  Json.truthy v = false \/ exists s, v = Some (JString s) /\ JsString.trim s = "".

(** The name is a string with something left after trimming. *)
Definition name_given (v : jsvalue) (nm : string) : Prop :=
  v = Some (JString nm) /\ JsString.trim nm <> "".

(** What is stored for a body's [description]: [null] for a falsy value,
    the trimmed text for a non-empty string. *)
Definition stores (d : jsvalue) (stored : option string) : Prop :=
  (Json.truthy d = false /\ stored = None) \/
  (exists s, d = Some (JString s) /\ s <> "" /\ stored = Some (JsString.trim s)).

(** ** Sample requests and worlds *)

(** An engine for the examples.  It reads the decimal spellings of the
    integers, also with a fraction of zeros (['7'], ['-7'], ['7.0']); the
    examples bind no other text. *)
Definition decimal_text (s : string) : option Z :=
  match JsString.split "." s with
  | [i] => Z.of_int <$> NilZero.int_of_string i
  | [i; f] =>
      if negb (String.eqb i "") && JsString.all (Ascii.eqb "0") f
      then Z.of_int <$> NilZero.int_of_string i
      else None
  | _ => None
  end.

Definition empty_database : Database := mkDatabase [] 0 decimal_text.

(** A fresh isolate without, and with, the KV namespace. *)
Definition fresh_world : World := mkWorld None empty_database None [].
Definition fresh_world_kv : World := mkWorld (Some ∅) empty_database None [].

Definition world_with (db : Database) : World := mkWorld None db None [].

(** A quiet moment: both clock readings are [t], no sweep, no outage. *)
Definition at_time (t : Z) : Ambient :=
  mkAmbient t t (1 # 2) false false "2024-01-01 00:00:00".

(** The same moment with the KV service failing its [get]. *)
Definition kv_outage_at (t : Z) : Ambient :=
  mkAmbient t t (1 # 2) true false "2024-01-01 00:00:00".

(** [POST /api/items] from client [ip] with body [{ name, description }] *)
Definition create_request (ip nm descr : string) : Request :=
  mkRequest "POST" "/api/items" [] [("CF-Connecting-IP", ip)]
    (Some (JObject [("name", JString nm); ("description", JString descr)])).

(** [PUT /api/items/{i}] with body [{ name, description }] *)
Definition update_request (i nm descr : string) : Request :=
  mkRequest "PUT" ("/api/items/" +:+ i) [] []
    (Some (JObject [("name", JString nm); ("description", JString descr)])).

Definition delete_request (i : string) : Request :=
  mkRequest "DELETE" ("/api/items/" +:+ i) [] [] None.

Definition read_request (i : string) : Request :=
  mkRequest "GET" ("/api/items/" +:+ i) [] [] None.

Definition list_request (query : list (string * string)) : Request :=
  mkRequest "GET" "/api/items" query [] None.


(** The world after client [X] has written at 0 ms and at 200 ms. *)
Definition after_two_writes (w : World) : World :=
  (fetch (create_request "X" "B" "d") (at_time 200)
     (fetch (create_request "X" "A" "d") (at_time 0) w).2).2.

(** A table of fifteen rows. *)
Definition sample_item (i : nat) : Item :=
  mkItem (Z.of_nat i) "item" None (Some "2024-01-01 00:00:00").

Definition fifteen_items : Database :=
  mkDatabase (map sample_item (seq 1 15)) 15 decimal_text.

(** The number of entries in the [items] array of a listing. *)
Definition listed (r : Response) : option nat :=
  match body_field "items" r with
  | Some (JArray l) => Some (length l)
  | _ => None
  end.

(** A field of the [pagination] object of a listing. *)
Definition pagination_field (k : string) (r : Response) : option json :=
  match body_field "pagination" r with
  | Some j => Json.field k j
  | None => None
  end.

(** A field of the [item] object of a create or update answer. *)
Definition item_field (k : string) (r : Response) : option json :=
  match body_field "item" r with
  | Some j => Json.field k j
  | None => None
  end.

(** ** Sequences of requests *)

(** The requests of a list, each with what it reads from its surroundings,
    served one after the other by one isolate; every request is paired with
    its answer. *)
Fixpoint serve (reqs : list (Request * Ambient)) (w : World)
    : list (Request * Response) * World :=
  match reqs with
  | [] => ([], w)
  | (request, amb) :: rest =>
      let first := fetch request amb w in
      let others := serve rest first.2 in
      ((request, first.1) :: others.1, others.2)
  end.

(** A request of client [ip] that [fetch] passes to the rate limiter. *)
Definition is_write_of (ip : string) (request : Request) : bool :=
  negb (String.eqb (req_method request) "OPTIONS") && rate_limited_route request
  && String.eqb (clientIP request) ip.

(** The answers to the writes of client [ip] whose clock reading lies in
    window [wk], in the order in which a list of requests is served. *)
Definition window_writes (ip : string) (wk : Z) (reqs : list (Request * Ambient))
    (w : World) : list Response :=
  map snd
    (List.filter
       (fun x : (Request * Ambient) * Response =>
          is_write_of ip x.1.1 && (windowKey (now x.1.2) =? wk))
       (combine reqs (map snd (serve reqs w).1))).

(** The counter of client [ip] for window [wk] in the process-local map
    stands at [c]: there is no entry while [c] is 0; otherwise the entry
    holds [c]. *)
Definition counter_at (ip : string) (wk c : Z) (w : World) : Prop :=
  match Store.current w !! rateLimitKey ip wk with
  | None => c = 0
  | Some e => 1 <= c /\ count e = c
  end.

(** What [kv.get] has for the limiter under a key at time [t]: a text that
    reads as a number at or above the maximum. *)
Definition kv_blocks (t : Z) (key : string) (kv : gmap string KVEntry) : bool :=
  match KV.lookup t key kv with
  | Some (String _ _ as text) =>
      JsNumber.geb (JsNumber.parseInt text) (Num MAX_REQUESTS_PER_WINDOW)
  | _ => false
  end.

(** ** What the repository writes *)

(** A string that is empty or starts with something else than white
    space, and one that is empty or ends with something else. *)
Definition starts_clean (s : string) : Prop :=
  JsString.whitespace_head false s = 0%nat.

Definition ends_clean (s : string) : Prop :=
  JsString.whitespace_head true (JsString.reverse s) = 0%nat.

(** A string of white space only. *)
Definition blank (s : string) : Prop := JsString.strip false s = "".

(** [t] is [s] without the white space at its two ends: what is cut off at
    either end is white space, and what is left has none at its ends. *)
Definition trimmed_of (s t : string) : Prop :=
  exists l r, s = l +:+ t +:+ r /\ blank l /\ blank r /\ starts_clean t /\ ends_clean t.

(** ** Counting statements *)

(** [w'] comes from [w] by steps that run at most [n] statements on the
    database. *)
Definition within (n : nat) (w w' : World) : Prop :=
  exists evs, trace w' = (evs ++ trace w)%list /\
              (length (List.filter is_db_access evs) <= n)%nat.

(** A computation that runs at most [n] statements. *)
Definition costs {A : Type} (n : nat) (m : M A) : Prop :=
  forall w, within n w (m w).2.

(** ** Invariants of the table *)

(** The primary key: ids are pairwise distinct, and none exceeds the
    largest id handed out so far. *)
Definition table_wf (db : Database) : Prop :=
  NoDup (map id (items db)) /\
  Forall (fun row => id row <= sqlite_sequence db) (items db).

(** A row as the repository writes it: the name is not empty and carries
    no white space at either end; neither does the description, when there
    is one. *)
Definition row_trimmed (row : Item) : Prop :=
  name row <> "" /\ JsString.trim (name row) = name row /\
  match description row with
  | Some d => JsString.trim d = d
  | None => True
  end.

(** A truthy value that is no string: it has no [trim] method. *)
Definition untrimmable (v : jsvalue) : Prop :=
  Json.truthy v = true /\ forall s, v <> Some (JString s).

(** What a request does to the table: nothing, or the insert of a
    validated row, or the update or the delete of the row its path
    names. *)
Inductive Effect (request : Request) (amb : Ambient) (cors : list (string * string))
    (db : Database) : Response -> Database -> Prop :=
| effect_none (r : Response) :
    Effect request amb cors db r db
| effect_insert (nm : string) (stored : option string) :
    req_method request = "POST" ->
    name_given (body_name request) nm -> stores (body_description request) stored ->
    Effect request amb cors db
      (item_created (Some (mkItem (D1.next_id db) (JsString.trim nm) stored
                             (Some (current_timestamp amb)))) cors)
      (D1.insert (JsString.trim nm) stored (current_timestamp amb) db).2
| effect_update (nm i : string) (stored : option string) (old : Item) :
    req_method request = "PUT" -> path_id (req_pathname request) = Some i ->
    D1.select_by_id (SqlText i) db = Some old ->
    name_given (body_name request) nm -> stores (body_description request) stored ->
    Effect request amb cors db
      (item_updated (Some (mkItem (id old) (JsString.trim nm) stored (created_at old))) cors)
      (D1.update (JsString.trim nm) stored (SqlText i) db)
| effect_delete (i : string) (old : Item) :
    req_method request = "DELETE" -> path_id (req_pathname request) = Some i ->
    D1.select_by_id (SqlText i) db = Some old ->
    Effect request amb cors db (item_deleted old cors) (D1.delete (SqlText i) db).

(** Whether the path of an update or delete selects the row with this
    id. *)
Definition addresses (db : Database) (request : Request) (row_id : Z) : bool :=
  (String.eqb (req_method request) "PUT" || String.eqb (req_method request) "DELETE")
  && match path_id (req_pathname request) with
     | Some i => D1.id_matches db (SqlText i) row_id
     | None => false
     end.

(** The id in the body of a 201 answer. *)
Definition created_id (r : Response) : option Z :=
  if status r =? 201 then
    match item_field "id" r with
    | Some (JNumber q) => Some (Qnum q)
    | _ => None
    end
  else None.

(** The ids of the items created by a sequence of requests, in order. *)
Definition created_ids (exchanges : list (Request * Response)) : list Z :=
  omap (fun x => created_id x.2) exchanges.

(** ** The form of the page

    The script of the page that [getHTML] returns sends the writes.  Its
    submit handler reads the two inputs and the variable [currentEditId]
    ([None] is [null]), and either gives up or calls [fetch] once.  This
    is that part of the handler: the request it sends, as it reaches the
    worker. *)

(** [{ name: name, description: description || null }] after
    [JSON.stringify] in the page and [request.json()] in the worker *)
Definition itemData (nm descr : string) : json :=
  JObject [("name", JString nm);
           ("description", if String.eqb descr "" then JNull else JString descr)].

(** [!!currentEditId] *)
Definition isUpdate (currentEditId : option Z) : bool :=
  match currentEditId with
  | Some i => negb (i =? 0)
  | None => false
  end.

(** The request of the submit handler: none when the trimmed name is
    empty (the handler alerts and returns); a PUT to
    [API_BASE_URL + '/' + currentEditId] while an item is being edited, a
    POST to [API_BASE_URL] otherwise.  [hdrs] are the headers with which
    the request arrives. *)
Definition submit_request (name_value description_value : string)
    (currentEditId : option Z) (hdrs : list (string * string)) : option Request :=
  let nm := JsString.trim name_value in
  let descr := JsString.trim description_value in
  if String.eqb nm "" then None
  else if isUpdate currentEditId then
    Some (mkRequest "PUT"
            ("/api/items/" +:+ JsNumber.Z_toString (default 0 currentEditId))
            [] hdrs (Some (itemData nm descr)))
  else
    Some (mkRequest "POST" "/api/items" [] hdrs (Some (itemData nm descr))).

(** ** Listing page by page *)

(** [GET /api/items?page=p&limit=l] *)
Definition page_request (p l : Z) : Request :=
  list_request [("page", JsNumber.Z_toString p); ("limit", JsNumber.Z_toString l)].

(** Page [p] at [l] rows a page is within reach: [p] and the offset of
    the page are safe integers. *)
Definition page_in_range (p l : Z) : Prop :=
  JsNumber.is_safe_integer p = true /\ JsNumber.is_safe_integer ((p - 1) * l) = true.

(** The [items] array of a listing. *)
Definition page_items (r : Response) : list json :=
  match body_field "items" r with
  | Some (JArray l) => l
  | _ => []
  end.

(** ** More sample requests and worlds *)

(** U+00A0, the no-break space, and U+2003, the em space, as UTF-8 writes
    them. *)
Definition nbsp : string := String "194" (String "160" "").
Definition em_space : string := String "226" (String "128" (String "131" "")).

(** A text with white space of all three lengths around it. *)
Definition padded (s : string) : string :=
  nbsp +:+ " " +:+ em_space +:+ s +:+ em_space +:+ " " +:+ nbsp.

(** The traffic of one window: client [X] writes at 0, 200 and 400 ms;
    in between it reads, and client [Y] writes. *)
Definition window_traffic : list (Request * Ambient) :=
  [(create_request "X" "A" "d", at_time 0);
   (read_request "1", at_time 100);
   (create_request "Y" "B" "d", at_time 150);
   (create_request "X" "C" "d", at_time 200);
   (create_request "X" "D" "d", at_time 400)].

(** The writes of client [X] at 0, 200, 400 and 1050 ms. *)
Definition scenario_traffic : list (Request * Ambient) :=
  [(create_request "X" "A" "d", at_time 0);
   (create_request "X" "B" "d", at_time 200);
   (create_request "X" "C" "d", at_time 400);
   (create_request "X" "D" "d", at_time 1050)].

(** A table of two rows. *)
Definition two_items : Database :=
  mkDatabase [mkItem 1 "A" (Some "a") (Some "2024-01-01 00:00:00");
              mkItem 2 "B" None (Some "2024-01-02 00:00:00")] 2 decimal_text.

(** [PATCH /api/items/1] from client [X] *)
Definition patch_request : Request :=
  mkRequest "PATCH" "/api/items/1" [] [("CF-Connecting-IP", "X")] None.

(** [POST /api/items] with the given body *)
Definition create_with (data : option json) : Request :=
  mkRequest "POST" "/api/items" [] [] data.

(** A KV namespace in which the counter of client [X] for window 0 holds a
    text that is no number. *)
Definition unreadable_kv : gmap string KVEntry :=
  {[ "rate_limit:X:0" := mkKVEntry "abc" 5000 ]}.

Definition unreadable_world : World :=
  mkWorld (Some unreadable_kv) empty_database None [].

(** A moment at which the limiter draws 0, and so sweeps its map. *)
Definition sweeping_at (t : Z) : Ambient :=
  mkAmbient t t 0 false false "2024-01-01 00:00:00".

(** The world after client [Y] has written at 150 ms. *)
Definition after_other_client : World :=
  (fetch (create_request "Y" "B" "d") (at_time 150) fresh_world).2.

(** The world after client [X] has written at 0 and at 200 ms and client
    [Y] at 2400 ms: at 2500 ms the counter of [X] has expired, the one of
    [Y] has not. *)
Definition before_sweep : World :=
  (fetch (create_request "Y" "C" "d") (at_time 2400) (after_two_writes fresh_world)).2.

(** * Checks of the primitives on concrete inputs *)

Example parseInt_examples :
  JsNumber.parseInt "10" = Num 10 /\ JsNumber.parseInt "  -42px" = Num (-42) /\
  JsNumber.parseInt "0x1F" = Num 31 /\ JsNumber.parseInt "abc" = NaN /\
  JsNumber.parseInt "" = NaN /\ JsNumber.parseInt "1.5" = Num 1 /\
  JsNumber.parseInt (nbsp +:+ "7") = Num 7 /\
  JsNumber.parseInt "9007199254740993" = Num 9007199254740992 /\
  JsNumber.parseInt "9007199254740995" = Num 9007199254740996 /\
  JsNumber.parseInt "99999999999999999999999" = Num 99999999999999991611392 /\
  JsNumber.parseInt ("1" +:+ JsNumber.Z_toString (10 ^ 308)) = PosInfinity /\
  JsNumber.toString (Num (-1700000000)) = "-1700000000" /\
  JsNumber.toString (Num 0) = "0".
Proof. repeat split; reflexivity. Qed.

Example string_examples :
  JsString.trim "  a b  " = "a b" /\ JsString.trim "   " = "" /\
  JsString.trim (padded "a b") = "a b" /\ JsString.trim (nbsp +:+ em_space) = "" /\
  JsString.trim ("a" +:+ String "160" "") = "a" +:+ String "160" "" /\
  JsString.split "/" "/api/items/7" = [""; "api"; "items"; "7"] /\
  JsString.split "/" "" = [""] /\
  JsString.startsWith "/api/items/7" "/api/items" = true /\
  JsString.toLowerCase "CF-Connecting-IP" = "cf-connecting-ip".
Proof. repeat split; reflexivity. Qed.

(** * Facts about the string and number primitives *)

Section Decimal.

Import JsString JsNumber.

(** A byte below 128 that is no white space is the head of no white
    space, from whichever end the string is read: the bytes of the longer
    encodings are all above. *)
Lemma whitespace_head_ascii (b : bool) (c : ascii) (s : string) :
  (code c < 128)%N -> whitespace1 c = false -> whitespace_head b (String c s) = 0%nat.
Proof.
  intros Hc Hw. cbn [whitespace_head]. rewrite Hw.
  destruct s as [|c2 s]; [reflexivity|].
  assert (H2 : (if b then whitespace2 c2 c else whitespace2 c c2) = false).
  { destruct b; unfold whitespace2.
    - destruct (N.eqb_spec (code c) 160); [lia | apply andb_false_r].
    - destruct (N.eqb_spec (code c) 194); [lia | reflexivity]. }
  rewrite H2. destruct s as [|c3 s]; [reflexivity|].
  assert (H3 : (if b then whitespace3 c3 c2 c else whitespace3 c c2 c3) = false).
  { destruct b; unfold whitespace3.
    - destruct (N.eqb_spec (code c) 128); [lia|].
      destruct (N.leb_spec 128 (code c)); [lia|].
      destruct (N.eqb_spec (code c) 168); [lia|].
      destruct (N.eqb_spec (code c) 169); [lia|].
      destruct (N.eqb_spec (code c) 175); [lia|].
      destruct (N.eqb_spec (code c) 159); [lia|].
      destruct (N.eqb_spec (code c) 191); [lia|].
      cbn [andb orb]. now rewrite !andb_false_r.
    - destruct (N.eqb_spec (code c) 225); [lia|].
      destruct (N.eqb_spec (code c) 226); [lia|].
      destruct (N.eqb_spec (code c) 227); [lia|].
      destruct (N.eqb_spec (code c) 239); [lia|].
      reflexivity. }
  now rewrite H3.
Qed.

(** Where no white space is at the head, nothing is stripped. *)
Lemma strip_clean (b : bool) (s : string) : whitespace_head b s = 0%nat -> strip b s = s.
Proof.
  destruct s as [|c1 [|c2 [|c3 s]]]; cbn [whitespace_head strip]; [reflexivity | ..];
    repeat (match goal with |- context [if ?c then _ else _] => destruct c end);
    congruence.
Qed.

Lemma digit_not_special (c : ascii) :
  is_digit c = true ->
  ((code c < 128)%N /\ whitespace1 c = false) /\
  Ascii.eqb c "-" = false /\ Ascii.eqb c "+" = false /\
  Ascii.eqb c "x" = false /\ Ascii.eqb c "X" = false /\
  Ascii.eqb c "/" = false /\ Ascii.eqb c ":" = false.
Proof.
  destruct c as [[] [] [] [] [] [] [] []]; vm_compute; intros; repeat split; congruence.
Qed.

(** *** Numbers in the safe range *)

Lemma of_integer_safe (z : Z) : is_safe_integer z = true -> of_integer z = Num z.
Proof.
  unfold is_safe_integer, MAX_SAFE_INTEGER. intros [Hlo Hhi]%andb_prop.
  apply Z.leb_le in Hlo, Hhi.
  assert (Hpow : 2 ^ 53 < 2 ^ 1024) by (apply Z.pow_lt_mono_r; lia).
  unfold of_integer, nearest_double.
  destruct (Z.ltb_spec (Z.abs z) (2 ^ 53)) as [Ha | Ha]; [|lia].
  destruct (Z.leb_spec (2 ^ 1024) (Z.abs z)) as [Hb | Hb]; [lia|].
  f_equal. lia.
Qed.

(** The first integer beyond the safe range is a double as well. *)
Lemma of_integer_exact (z : Z) :
  - MAX_SAFE_INTEGER - 1 <= z <= MAX_SAFE_INTEGER + 1 -> of_integer z = Num z.
Proof.
  intros Hz.
  destruct (Z.eq_dec z (MAX_SAFE_INTEGER + 1)) as [-> | Hhi]; [now vm_compute|].
  destruct (Z.eq_dec z (- MAX_SAFE_INTEGER - 1)) as [-> | Hlo]; [now vm_compute|].
  apply of_integer_safe. unfold is_safe_integer.
  apply andb_true_intro. split; apply Z.leb_le; lia.
Qed.

Lemma negate_of_integer (z : Z) : negate (of_integer z) = of_integer (- z).
Proof.
  destruct z as [|p|p]; [now vm_compute | |]; unfold of_integer.
  - change (- Z.pos p) with (Z.neg p). change (Z.abs (Z.neg p)) with (Z.pos p).
    change (Z.abs (Z.pos p)) with (Z.pos p).
    destruct (2 ^ 1024 <=? nearest_double (Z.pos p)); [reflexivity|].
    cbn [negate]. f_equal. change (Z.sgn (Z.neg p)) with (-1). lia.
  - change (- Z.neg p) with (Z.pos p). change (Z.abs (Z.neg p)) with (Z.pos p).
    change (Z.abs (Z.pos p)) with (Z.pos p).
    destruct (2 ^ 1024 <=? nearest_double (Z.pos p)); [reflexivity|].
    cbn [negate]. f_equal. change (Z.sgn (Z.pos p)) with 1.
    change (Z.sgn (Z.neg p)) with (-1). lia.
Qed.

Lemma string_of_uint_digits (d : Decimal.uint) :
  all is_digit (NilEmpty.string_of_uint d) = true.
Proof. induction d; simpl; auto. Qed.

Lemma to_uint_string_nonempty (p : positive) :
  NilEmpty.string_of_uint (Pos.to_uint p) <> "".
Proof.
  pose proof (Unsigned.to_uint_nonnil p) as Hnil.
  destruct (Pos.to_uint p); simpl; congruence.
Qed.

(** The decimal spelling of an integer: an optional minus sign, then at
    least one digit. *)
Lemma Z_toString_shape (z : Z) :
  exists ds, ds <> "" /\ all is_digit ds = true /\
    Z_toString z = (if z <? 0 then String "-" ds else ds).
Proof.
  destruct z as [|p|p]; unfold Z_toString; simpl.
  - exists "0". repeat split; congruence.
  - exists (NilEmpty.string_of_uint (Pos.to_uint p)).
    auto using to_uint_string_nonempty, string_of_uint_digits.
  - exists (NilEmpty.string_of_uint (Pos.to_uint p)).
    auto using to_uint_string_nonempty, string_of_uint_digits.
Qed.

Lemma Z_toString_inj (x y : Z) : Z_toString x = Z_toString y -> x = y.
Proof.
  unfold Z_toString. intros H.
  apply DecimalZ.to_int_inj.
  assert (Hi : NilEmpty.int_of_string (NilEmpty.string_of_int (Z.to_int x))
               = NilEmpty.int_of_string (NilEmpty.string_of_int (Z.to_int y)))
    by (now rewrite H).
  rewrite !NilEmpty.isi in Hi. congruence.
Qed.

Lemma Z_toString_nonempty (z : Z) : Z_toString z <> "".
Proof.
  destruct (Z_toString_shape z) as (ds & Hne & _ & ->).
  destruct (z <? 0); congruence.
Qed.

Lemma all_digits_free (c : ascii) (s : string) :
  is_digit c = false -> all is_digit s = true -> contains c s = false.
Proof.
  intros Hc. induction s as [|a s IH]; simpl; [easy|].
  intros [Ha Hs]%andb_prop. rewrite (IH Hs), orb_false_r.
  destruct (Ascii.eqb_spec a c); congruence.
Qed.

(** No decimal spelling contains a slash or a colon. *)
Lemma Z_toString_free (c : ascii) (z : Z) :
  is_digit c = false -> Ascii.eqb "-" c = false -> contains c (Z_toString z) = false.
Proof.
  intros Hc Hm.
  destruct (Z_toString_shape z) as (ds & _ & Hds & ->).
  destruct (z <? 0); cbn [contains]; rewrite ?Hm; now apply all_digits_free.
Qed.

(** *** [parseInt] reads back what [toString] writes *)

Lemma parse_digits_acc (d : Decimal.uint) (acc : positive) :
  parse_digits 10 (NilEmpty.string_of_uint d) (Z.pos acc) true
  = of_integer (Z.pos (Pos.of_uint_acc d acc)).
Proof.
  revert acc.
  induction d; intros acc; cbn [NilEmpty.string_of_uint parse_digits Pos.of_uint_acc];
    [reflexivity | ..];
    (match goal with
     | |- context [digit_value 10 ?c] =>
         let v := eval vm_compute in (digit_value 10 c) in
         change (digit_value 10 c) with v
     end);
    cbv iota; rewrite <- IHd; f_equal; lia.
Qed.

Lemma parse_digits_seen (d : Decimal.uint) :
  parse_digits 10 (NilEmpty.string_of_uint d) 0 true = of_integer (Z.of_N (Pos.of_uint d)).
Proof.
  induction d; cbn [NilEmpty.string_of_uint parse_digits Pos.of_uint];
    [reflexivity | ..];
    (match goal with
     | |- context [digit_value 10 ?c] =>
         let v := eval vm_compute in (digit_value 10 c) in
         change (digit_value 10 c) with v
     end);
    cbv iota; first [exact IHd | apply parse_digits_acc].
Qed.

Lemma parse_digits_to_uint (p : positive) :
  parse_digits 10 (NilEmpty.string_of_uint (Pos.to_uint p)) 0 false = of_integer (Z.pos p).
Proof.
  pose proof (Unsigned.of_to p) as Hp.
  pose proof (parse_digits_seen (Pos.to_uint p)) as Hs.
  rewrite Hp in Hs. simpl in Hs. rewrite <- Hs.
  pose proof (Unsigned.to_uint_nonnil p) as Hnil.
  destruct (Pos.to_uint p); [congruence | reflexivity..].
Qed.

Lemma parse_unsigned_digits (s : string) :
  all is_digit s = true -> parse_unsigned s = parse_digits 10 s 0 false.
Proof.
  intros Hs. unfold parse_unsigned.
  destruct s as [|a [|b s]]; [reflexivity | now destruct a as [[] [] [] [] [] [] [] []] |].
  cbn [all] in Hs. apply andb_prop in Hs as [_ [Hb _]%andb_prop].
  destruct (digit_not_special b Hb) as (_ & _ & _ & Hx & HX & _).
  cbn [String.prefix].
  destruct (Ascii.ascii_dec "0" a), (Ascii.ascii_dec "x" b), (Ascii.ascii_dec "X" b);
    subst; try discriminate; reflexivity.
Qed.

(** What [toString] writes, [parseInt] reads as the same integer: the
    integer itself within the safe range, its nearest double beyond. *)
Lemma parseInt_decimal (z : Z) : parseInt (Z_toString z) = of_integer z.
Proof.
  destruct z as [|p|p]; [reflexivity | |]; unfold Z_toString;
    cbn [Z.to_int NilEmpty.string_of_int].
  - pose proof (string_of_uint_digits (Pos.to_uint p)) as Hd.
    pose proof (to_uint_string_nonempty p) as Hne.
    pose proof (parse_digits_to_uint p) as Hp.
    destruct (NilEmpty.string_of_uint (Pos.to_uint p)) as [|c s]; [congruence|].
    unfold parseInt, trimStart. cbn [all] in Hd. pose proof Hd as [Hc _]%andb_prop.
    destruct (digit_not_special c Hc) as ([Hlow Hw] & Hm & Hplus & _).
    rewrite strip_clean by now apply whitespace_head_ascii.
    rewrite Hm, Hplus.
    rewrite parse_unsigned_digits by (cbn [all]; exact Hd). exact Hp.
  - unfold parseInt, trimStart.
    rewrite strip_clean by (apply whitespace_head_ascii; [now vm_compute | reflexivity]).
    change (Ascii.eqb "-" "-") with true. cbv iota.
    rewrite parse_unsigned_digits by apply string_of_uint_digits.
    rewrite parse_digits_to_uint. apply (negate_of_integer (Z.pos p)).
Qed.

Theorem parseInt_toString (z : Z) :
  is_safe_integer z = true -> parseInt (Z_toString z) = Num z.
Proof. intros Hz. rewrite parseInt_decimal. now apply of_integer_safe. Qed.

End Decimal.

Section Paths.

Import JsString JsNumber.

(** A string without the separator is a single piece. *)
Lemma split_free (sep : ascii) (s : string) :
  contains sep s = false -> split sep s = [s].
Proof.
  induction s as [|a s IH]; cbn [contains split]; [easy|].
  intros [Ha Hs]%orb_false_elim. now rewrite Ha, IH.
Qed.

Lemma split_nonempty (sep : ascii) (s : string) : split sep s <> [].
Proof.
  induction s as [|a s IH]; cbn [split]; [easy|].
  destruct (Ascii.eqb a sep); [easy|]. now destruct (split sep s).
Qed.

Lemma split_two (sep : ascii) (s : string) :
  contains sep s = true -> exists h h' t, split sep s = h :: h' :: t.
Proof.
  induction s as [|b s IH]; cbn [contains split]; [easy|].
  destruct (Ascii.eqb b sep); cbn [orb].
  - intros _. pose proof (split_nonempty sep s).
    destruct (split sep s) as [|h' t]; [easy|]. now exists "", h', t.
  - intros (h & h' & t & ->)%IH. now exists (String b h), h', t.
Qed.

Lemma last_piece_cons (sep a : ascii) (s : string) :
  contains sep s = true -> last_piece sep (String a s) = last_piece sep s.
Proof.
  unfold last_piece. cbn [split].
  intros (h & h' & t & ->)%split_two.
  now destruct (Ascii.eqb a sep).
Qed.

Lemma append_cons (x : ascii) (a b : string) :
  String x a +:+ b = String x (a +:+ b).
Proof. reflexivity. Qed.

Lemma append_assoc (a b c : string) : (a +:+ b) +:+ c = a +:+ (b +:+ c).
Proof.
  induction a as [|x a IH]; [reflexivity|].
  now rewrite !append_cons, IH.
Qed.

Lemma contains_append (c : ascii) (a b : string) :
  contains c (a +:+ b) = contains c a || contains c b.
Proof.
  induction a as [|x a IH]; [reflexivity|].
  rewrite append_cons. cbn [contains]. now rewrite IH, orb_assoc.
Qed.

(** After a prefix that ends in the separator, the last piece is the
    rest, when the rest is free of the separator. *)
Lemma last_piece_append (sep : ascii) (a d : string) :
  contains sep d = false -> last_piece sep (a +:+ String sep d) = d.
Proof.
  intros Hd. induction a as [|x a IH].
  - unfold last_piece. change ("" +:+ String sep d) with (String sep d).
    cbn [split]. rewrite Ascii.eqb_refl.
    now rewrite split_free.
  - rewrite append_cons.
    rewrite last_piece_cons; [exact IH|].
    rewrite contains_append. cbn [contains]. rewrite Ascii.eqb_refl.
    now rewrite orb_true_r.
Qed.

Lemma split_append (sep : ascii) (a b : string) :
  contains sep a = false -> split sep (a +:+ String sep b) = a :: split sep b.
Proof.
  induction a as [|x a IH]; intros Ha.
  - change ("" +:+ String sep b) with (String sep b). cbn [split].
    now rewrite Ascii.eqb_refl.
  - rewrite append_cons. cbn [contains] in Ha.
    apply orb_false_elim in Ha as [Hx Ha]. cbn [split]. now rewrite Hx, IH.
Qed.

(** The path of an item is read back as its id. *)
Lemma path_id_item (s : string) :
  s <> "" -> contains "/" s = false -> path_id ("/api/items/" +:+ s) = Some s.
Proof.
  intros Hne Hs. unfold path_id.
  change ("/api/items/" +:+ s)
    with ("" +:+ String "/" ("api" +:+ String "/" ("items" +:+ String "/" s))).
  rewrite !split_append by reflexivity. rewrite (split_free _ _ Hs).
  destruct s; [congruence | reflexivity].
Qed.

(** The window index can be read back from a counter key. *)
Lemma rateLimitKey_window (ip ip' : string) (wk wk' : Z) :
  rateLimitKey ip wk = rateLimitKey ip' wk' -> wk = wk'.
Proof.
  unfold rateLimitKey. intros H.
  assert (Hc : forall z, contains ":" (Z_toString z) = false)
    by (intros z; now apply Z_toString_free).
  assert (Hk : forall i z, "rate_limit:" +:+ i +:+ ":" +:+ Z_toString z
                           = ("rate_limit:" +:+ i) +:+ String ":" (Z_toString z))
    by (intros; now rewrite append_assoc).
  rewrite !Hk in H.
  apply Z_toString_inj.
  rewrite <- (last_piece_append ":" ("rate_limit:" +:+ ip) (Z_toString wk) (Hc wk)).
  rewrite <- (last_piece_append ":" ("rate_limit:" +:+ ip') (Z_toString wk') (Hc wk')).
  now rewrite H.
Qed.

End Paths.

(** * Trimming *)

Section Trim.

Import JsString.

Lemma append_length (a b : string) :
  String.length (a +:+ b) = (String.length a + String.length b)%nat.
Proof. induction a as [|x a IH]; [reflexivity|]. rewrite append_cons. cbn. now rewrite IH. Qed.

Lemma append_empty_r (a : string) : a +:+ "" = a.
Proof. induction a as [|x a IH]; [reflexivity|]. now rewrite append_cons, IH. Qed.

Lemma reverse_append (a b : string) : reverse (a +:+ b) = reverse b +:+ reverse a.
Proof.
  induction a as [|x a IH].
  - change ("" +:+ b) with b. cbn [reverse]. now rewrite append_empty_r.
  - rewrite append_cons. cbn [reverse]. now rewrite IH, append_assoc.
Qed.

Lemma reverse_involutive (a : string) : reverse (reverse a) = a.
Proof.
  induction a as [|x a IH]; [reflexivity|].
  cbn [reverse]. rewrite reverse_append, IH. reflexivity.
Qed.

Ltac reflect_bytes H :=
  repeat (rewrite orb_true_iff in H || rewrite andb_true_iff in H
          || rewrite N.leb_le in H || rewrite N.eqb_eq in H).

(** The bytes of the longer encodings are no white space of one byte, and
    those of the three-byte encodings do not begin the two-byte one. *)
Lemma whitespace2_bytes (a b : ascii) :
  whitespace2 a b = true -> whitespace1 a = false /\ whitespace1 b = false.
Proof.
  unfold whitespace2, whitespace1. intros H. reflect_bytes H.
  split; apply not_true_is_false; intros H1; reflect_bytes H1; lia.
Qed.

Lemma whitespace3_bytes (a b c : ascii) :
  whitespace3 a b c = true ->
  whitespace1 a = false /\ whitespace1 c = false /\
  whitespace2 a b = false /\ whitespace2 b c = false.
Proof.
  unfold whitespace3, whitespace2, whitespace1. intros H. reflect_bytes H.
  repeat split; apply not_true_is_false; intros H1; reflect_bytes H1; lia.
Qed.

(** Either no white space is at the head of [s], or [s] begins with one
    code point [l] of white space: [strip] removes [l] whatever follows,
    and [l] read from its end is white space for the reader that comes
    from the other side. *)
Lemma strip_cases (b : bool) (s : string) :
  whitespace_head b s = 0%nat \/
  exists l r, s = l +:+ r /\ l <> "" /\
    (forall t, strip b (l +:+ t) = strip b t) /\
    (forall t, whitespace_head b (l +:+ t) <> 0%nat) /\
    strip (negb b) (reverse l) = "".
Proof.
  destruct s as [|c1 s]; [now left|].
  destruct (whitespace1 c1) eqn:H1.
  { right. exists (String c1 ""), s. split; [reflexivity|]. split; [discriminate|].
    split; [|split].
    - intros t. change (String c1 "" +:+ t) with (String c1 t).
      cbn [strip]. now rewrite H1.
    - intros t. change (String c1 "" +:+ t) with (String c1 t).
      cbn [whitespace_head]. now rewrite H1.
    - change (reverse (String c1 "")) with (String c1 "").
      cbn [strip]. now rewrite H1. }
  destruct s as [|c2 s]; [left; cbn [whitespace_head]; now rewrite H1|].
  destruct (if b then whitespace2 c2 c1 else whitespace2 c1 c2) eqn:H2.
  { right. exists (String c1 (String c2 "")), s. split; [reflexivity|].
    split; [discriminate|]. split; [|split].
    - intros t. change (String c1 (String c2 "") +:+ t) with (String c1 (String c2 t)).
      cbn [strip]. now rewrite H1, H2.
    - intros t. change (String c1 (String c2 "") +:+ t) with (String c1 (String c2 t)).
      cbn [whitespace_head]. now rewrite H1, H2.
    - change (reverse (String c1 (String c2 ""))) with (String c2 (String c1 "")).
      destruct b; cbn [negb strip]; destruct (whitespace2_bytes _ _ H2) as [Ha Hb];
        now rewrite ?Ha, ?Hb, H2. }
  destruct s as [|c3 s]; [left; cbn [whitespace_head]; now rewrite H1, H2|].
  destruct (if b then whitespace3 c3 c2 c1 else whitespace3 c1 c2 c3) eqn:H3.
  { right. exists (String c1 (String c2 (String c3 ""))), s. split; [reflexivity|].
    split; [discriminate|]. split; [|split].
    - intros t.
      change (String c1 (String c2 (String c3 "")) +:+ t)
        with (String c1 (String c2 (String c3 t))).
      cbn [strip]. now rewrite H1, H2, H3.
    - intros t.
      change (String c1 (String c2 (String c3 "")) +:+ t)
        with (String c1 (String c2 (String c3 t))).
      cbn [whitespace_head]. now rewrite H1, H2, H3.
    - change (reverse (String c1 (String c2 (String c3 ""))))
        with (String c3 (String c2 (String c1 ""))).
      destruct b; cbn [negb strip];
        destruct (whitespace3_bytes _ _ _ H3) as (Ha & Hc & Hab & Hbc);
        now rewrite ?Ha, ?Hc, ?Hab, ?Hbc, H3. }
  left. cbn [whitespace_head]. now rewrite H1, H2, H3.
Qed.

(** What [strip] returns has no white space at its head, and what it cut
    off is white space. *)
Lemma strip_split (b : bool) (s : string) :
  whitespace_head b (strip b s) = 0%nat /\
  exists l, s = l +:+ strip b s /\ strip b l = "" /\ strip (negb b) (reverse l) = "".
Proof.
  remember (String.length s) as n eqn:Hn. revert s Hn.
  induction n as [n IH] using lt_wf_ind. intros s ->.
  destruct (strip_cases b s) as [H0 | (l & r & -> & Hl & Hstrip & _ & Hrev)].
  - rewrite (strip_clean _ _ H0). split; [exact H0|]. now exists "".
  - assert (Hlen : (String.length r < String.length (l +:+ r))%nat).
    { rewrite append_length. destruct l; [congruence | cbn; lia]. }
    destruct (IH _ Hlen r eq_refl) as (H0 & l' & Hr & Hl' & Hrev').
    rewrite Hstrip. split; [exact H0|].
    exists (l +:+ l'). split; [|split].
    + rewrite append_assoc. now rewrite <- Hr.
    + now rewrite Hstrip.
    + rewrite reverse_append.
      (* the reader from the other side meets [l'] first *)
      clear - Hrev Hrev' IH.
      remember (reverse l') as x eqn:Hx. clear Hx.
      remember (String.length x) as m eqn:Hm. revert x Hm Hrev'.
      induction m as [m IHm] using lt_wf_ind. intros x -> Hx.
      destruct (strip_cases (negb b) x) as [H0 | (l1 & r1 & -> & Hl1 & Hs1 & _ & _)].
      * rewrite (strip_clean _ _ H0) in Hx. subst x. exact Hrev.
      * rewrite append_assoc, Hs1. rewrite Hs1 in Hx.
        eapply IHm; [|reflexivity|exact Hx].
        rewrite append_length. destruct l1; [congruence | cbn; lia].
Qed.

Lemma strip_idem (b : bool) (s : string) : strip b (strip b s) = strip b s.
Proof. apply strip_clean, strip_split. Qed.

(** White space at the head of a string is at the head of every string
    that continues it. *)
Lemma whitespace_head_prefix (b : bool) (p r : string) :
  whitespace_head b (p +:+ r) = 0%nat -> whitespace_head b p = 0%nat.
Proof.
  intros H. destruct (strip_cases b p) as [H0 | (l & r' & -> & _ & _ & Hhead & _)];
    [exact H0|].
  rewrite append_assoc in H. now apply Hhead in H.
Qed.

(** [trim] cuts white space off both ends and leaves none there. *)
Theorem trim_spec (s : string) : trimmed_of s (trim s).
Proof.
  unfold trimmed_of, trim, trimEnd, trimStart, blank, starts_clean, ends_clean.
  destruct (strip_split false s) as (Hclean & l & Hs & Hl & _).
  set (u := strip false s) in *.
  destruct (strip_split true (reverse u)) as (Hend & l' & Hu & _ & Hl').
  set (v := strip true (reverse u)) in *.
  assert (Hu' : u = reverse v +:+ reverse l').
  { rewrite <- reverse_append, <- Hu. now rewrite reverse_involutive. }
  exists l, (reverse l'). split; [|split; [|split; [|split]]].
  - now rewrite <- Hu'.
  - exact Hl.
  - exact Hl'.
  - apply (whitespace_head_prefix false _ (reverse l')). now rewrite <- Hu'.
  - now rewrite reverse_involutive.
Qed.

(** [trim] finds nothing to remove from a trimmed string. *)
Lemma trim_idem (s : string) : trim (trim s) = trim s.
Proof.
  destruct (trim_spec s) as (_ & _ & _ & _ & _ & Hstart & Hend).
  unfold starts_clean, ends_clean in *.
  unfold trim at 1, trimEnd, trimStart.
  rewrite (strip_clean false _ Hstart), (strip_clean true _ Hend).
  apply reverse_involutive.
Qed.

End Trim.

(** * The rate limiter *)

Ltac run_M :=
  unfold mbind, M_bind, mret, M_ret, throw, try_catch, get_world, log in *.


Lemma window_not_expired (t wk e : Z) :
  wk = windowKey t -> (wk + 2) * RATE_LIMIT_WINDOW <= e -> ~ e < t.
Proof.
  unfold windowKey, RATE_LIMIT_WINDOW. intros -> H.
  pose proof (Z.mul_div_le t 1000 ltac:(lia)).
  pose proof (Z.mod_pos_bound t 1000 ltac:(lia)).
  pose proof (Z.div_mod t 1000 ltac:(lia)). lia.
Qed.

Lemma memory_branch (amb : Ambient) (key : string) (wk : Z) (w : World) :
  exists early w',
    checkRateLimit_memory amb key wk w = (Ok early, w') /\
    RATE_LIMIT_KV w' = RATE_LIMIT_KV w /\ DB w' = DB w /\
    (wk = windowKey (now amb) ->
     (forall e, Store.current w !! key = Some e ->
                (wk + 2) * RATE_LIMIT_WINDOW <= expires e) ->
     match Store.current w !! key with
     | None =>
         early = None /\
         Store.current w' !! key = Some (mkRateEntry 1 (now amb + 2 * RATE_LIMIT_WINDOW))
     | Some e =>
         if count e <? MAX_REQUESTS_PER_WINDOW
         then early = None /\
              Store.current w' !! key = Some (mkRateEntry (count e + 1) (expires e))
         else early = Some (limited_until ((wk + 1) * RATE_LIMIT_WINDOW)) /\
              rateLimitStore w' = rateLimitStore w
     end).
Proof.
  assert (Hnew : mkRateEntry 1 (now amb + RATE_LIMIT_WINDOW * 2)
                 = mkRateEntry 1 (now amb + 2 * RATE_LIMIT_WINDOW)) by (f_equal; lia).
  assert (Hfresh : ~ now amb + 2 * RATE_LIMIT_WINDOW < now amb)
    by (unfold RATE_LIMIT_WINDOW; lia).
  unfold checkRateLimit_memory. run_M.
  unfold Store.ensure, Store.get, Store.set, Store.increment, Store.sweep, Store.current in *.
  rewrite Hnew. cbn.
  destruct (rateLimitStore w) as [m|] eqn:Hm; cbn in *; rewrite ?Hm; cbn.
  - destruct (m !! key) as [e|] eqn:He; cbn.
    + unfold MAX_REQUESTS_PER_WINDOW.
      destruct (Z.leb_spec 2 (count e)), (Z.ltb_spec (count e) 2); try lia; cbn.
      * eexists _, _. split; [reflexivity|]. cbn. rewrite Hm. auto.
      * destruct (Qlt_le_dec (random amb) (1 # 100)); eexists _, _;
          (split; [reflexivity|]); cbn; (do 2 (split; [reflexivity|]));
          intros Hwk Hlive; (split; [reflexivity|]).
        -- pose proof (window_not_expired _ _ _ Hwk (Hlive e eq_refl)).
           apply map_lookup_filter_Some. split; [apply lookup_insert_eq | assumption].
        -- apply lookup_insert_eq.
    + destruct (Qlt_le_dec (random amb) (1 # 100)); eexists _, _;
        (split; [reflexivity|]); cbn; (do 2 (split; [reflexivity|]));
        intros Hwk Hlive; (split; [reflexivity|]).
      * apply map_lookup_filter_Some. split; [apply lookup_insert_eq | assumption].
      * apply lookup_insert_eq.
  - rewrite lookup_empty.
    destruct (Qlt_le_dec (random amb) (1 # 100)); eexists _, _;
      (split; [reflexivity|]); cbn; (do 2 (split; [reflexivity|]));
      intros Hwk Hlive; (split; [reflexivity|]).
    * apply map_lookup_filter_Some. split; [apply lookup_insert_eq | assumption].
    * apply lookup_insert_eq.
Qed.

(** The KV branch.  The namespace refuses the [expirationTtl] of 2 that
    both calls of [put] ask for, so the branch either returns the limit it
    reads from an entry that is already there, or throws; it never writes. *)
Lemma kv_branch (amb : Ambient) (key : string) (wk : Z) (w : World)
    (kv : gmap string KVEntry) :
  RATE_LIMIT_KV w = Some kv ->
  let run := checkRateLimit_kv amb key wk w in
  RATE_LIMIT_KV run.2 = Some kv /\ rateLimitStore run.2 = rateLimitStore w /\
  DB run.2 = DB w /\
  if negb (kv_get_fails amb) && kv_blocks (now amb) key kv
  then run.1 = Ok (Some (limited_until ((wk + 1) * RATE_LIMIT_WINDOW)))
  else exists e, run.1 = Throw e.
Proof.
  intros Hkv. unfold checkRateLimit_kv, kv_blocks. run_M. unfold KV.get, KV.put.
  cbn. rewrite Hkv. destruct (kv_get_fails amb); cbn; [eauto 6|].
  destruct (KV.lookup (now amb) key kv) as [[|c text]|]; cbn; rewrite ?Hkv; cbn.
  - destruct (kv_put_fails amb); cbn; eauto 6.
  - destruct (JsNumber.geb _ _); cbn; rewrite ?Hkv; cbn; [auto|].
    destruct (kv_put_fails amb); cbn; eauto 6.
  - destruct (kv_put_fails amb); cbn; eauto 6.
Qed.

Lemma checkRateLimit_unfold (request : Request) (amb : Ambient) (w : World) :
  let wk := windowKey (now amb) in
  let key := rateLimitKey (clientIP request) wk in
  forall early w',
    (if RATE_LIMIT_KV w is Some _
     then checkRateLimit_kv amb key wk w
     else checkRateLimit_memory amb key wk w) = (Ok early, w') ->
    checkRateLimit request amb w = (default not_limited early, w').
Proof.
  intros wk key early w' H.
  unfold checkRateLimit, checkRateLimit_try. run_M. fold wk key.
  destruct (RATE_LIMIT_KV w); rewrite H; now destruct early.
Qed.

(** Property X27.  Without a KV namespace, [checkRateLimit] follows the
    fixed-window counter, with a window of 1000 ms and at most 2 requests
    per window, on the counter of the process-local map under the key of
    the client and of the window [floor(now / 1000)], when the map
    satisfies its invariant:
    - no counter: the request is allowed and a counter is created with
      count 1 and expiry [now + 2 * 1000];
    - a counter with count below 2: the request is allowed and the count is
      incremented;
    - a counter with count 2 or more: the request is rejected until the
      start of the next window, and the map stays as it is. *)
Theorem memory_fixed_window (request : Request) (amb : Ambient) (w : World) :
  RATE_LIMIT_KV w = None ->
  store_wf (Store.current w) ->
  let key := rateLimitKey (clientIP request) (windowKey (now amb)) in
  let r := fst (checkRateLimit request amb w) in
  let w' := snd (checkRateLimit request amb w) in
  RATE_LIMIT_KV w' = None
  /\ (counter (now amb) key w = None ->
        limited r = false /\
        counter (now amb) key w' = Some (Num 1) /\
        counter_expiry key w' = Some (now amb + 2 * RATE_LIMIT_WINDOW))
  /\ (forall c, counter (now amb) key w = Some (Num c) -> c < MAX_REQUESTS_PER_WINDOW ->
        limited r = false /\ counter (now amb) key w' = Some (Num (c + 1)))
  /\ (forall c, counter (now amb) key w = Some (Num c) -> MAX_REQUESTS_PER_WINDOW <= c ->
        r = limited_until ((windowKey (now amb) + 1) * RATE_LIMIT_WINDOW) /\
        rateLimitStore w' = rateLimitStore w).
Proof.
  intros Hkv Hwf key r w'. subst r w'.
  pose proof (checkRateLimit_unfold request amb w) as Hrun. cbv zeta in Hrun. fold key in Hrun.
  unfold counter, counter_expiry. rewrite Hkv in Hrun.
  destruct (memory_branch amb key (windowKey (now amb)) w)
    as (early & w' & Hrun' & Hkv' & _ & Hcase).
  specialize (Hcase eq_refl (fun e He => Hwf _ _ _ He)).
  rewrite (Hrun _ _ Hrun'). cbn [fst snd]. rewrite Hkv', Hkv.
  split; [reflexivity|].
  split; [intros Hnone | split; intros c Hc Hcmp].
  + destruct (Store.current w !! key) as [e|]; [discriminate|].
    destruct Hcase as [-> ->]. cbn. auto.
  + destruct (Store.current w !! key) as [e|]; [|discriminate].
    injection Hc as <-.
    destruct (Z.ltb_spec (count e) MAX_REQUESTS_PER_WINDOW); [|lia].
    destruct Hcase as [-> ->]. cbn. auto.
  + destruct (Store.current w !! key) as [e|]; [|discriminate].
    injection Hc as <-.
    destruct (Z.ltb_spec (count e) MAX_REQUESTS_PER_WINDOW); [lia|].
    destruct Hcase as [-> ->]. cbn. auto.
Qed.

(** * A frame rule for the monad *)

Section Frames.

Context (R : World -> World -> Prop).
Local Abbreviation ensures := (ensures R).
Hypothesis R_refl : forall w, R w w.
Hypothesis R_trans : forall w1 w2 w3, R w1 w2 -> R w2 w3 -> R w1 w3.

Lemma ensures_ret {A : Type} (a : A) (Q : A -> Prop) : Q a -> ensures (mret a) Q.
Proof. intros HQ w. split; [apply R_refl | now intros ? [= <-]]. Qed.

Lemma ensures_throw {A : Type} (e : JsError) (Q : A -> Prop) : ensures (throw e) Q.
Proof. intros w. split; [apply R_refl | discriminate]. Qed.

Lemma ensures_bind {A B : Type} (m : M A) (f : A -> M B) (P : A -> Prop) (Q : B -> Prop) :
  ensures m P -> (forall a, P a -> ensures (f a) Q) -> ensures (m ≫= f) Q.
Proof.
  intros Hm Hf w. unfold mbind, M_bind.
  destruct (Hm w) as [Hw Ha]. destruct (m w) as [[a|e] w1]; cbn in *.
  - destruct (Hf a (Ha a eq_refl) w1) as [Hw1 Hb]. split; [eauto | exact Hb].
  - split; [exact Hw | discriminate].
Qed.

Lemma ensures_try_catch {A : Type} (m : M A) (h : JsError -> M A) (Q : A -> Prop) :
  ensures m Q -> (forall e, ensures (h e) Q) -> ensures (try_catch m h) Q.
Proof.
  intros Hm Hh w. unfold try_catch.
  destruct (Hm w) as [Hw Ha]. destruct (m w) as [[a|e] w1]; cbn in *.
  - split; [exact Hw | exact Ha].
  - destruct (Hh e w1) as [Hw1 Hb]. split; [eauto | exact Hb].
Qed.

End Frames.

(** * The repository leaves the limiter alone *)

Lemma limiter_untouched_refl (w : World) : limiter_untouched w w.
Proof. repeat split. now exists []. Qed.

Lemma limiter_untouched_trans (w1 w2 w3 : World) :
  limiter_untouched w1 w2 -> limiter_untouched w2 w3 -> limiter_untouched w1 w3.
Proof.
  intros (Hk1 & Hs1 & evs1 & Ht1 & Hf1) (Hk2 & Hs2 & evs2 & Ht2 & Hf2).
  split; [congruence|]. split; [congruence|].
  exists (evs2 ++ evs1)%list. split.
  - rewrite Ht2, Ht1. apply List.app_assoc.
  - apply Forall_app; auto.
Qed.

Lemma limiter_untouched_emit (e : Event) (w : World) :
  is_limiter_access e = false -> limiter_untouched w (emit e w).
Proof. intros He. repeat split. exists [e]. split; [reflexivity | now constructor]. Qed.

Lemma limiter_untouched_db (db : Database) (e : Event) (w : World) :
  is_limiter_access e = false -> limiter_untouched w (set_db db (emit e w)).
Proof. intros He. repeat split. exists [e]. split; [reflexivity | now constructor]. Qed.

Lemma quiet_primitive {A : Type} (m : M A) :
  (forall w, limiter_untouched w (m w).2) -> quiet m (fun _ => True).
Proof. intros H w. split; [apply H | trivial]. Qed.

Lemma quiet_first_by_id (p : sqlvalue) : quiet (Db.first_by_id p) (fun _ => True).
Proof. apply quiet_primitive. intros w. now apply limiter_untouched_emit. Qed.

Lemma quiet_total : quiet Db.total (fun _ => True).
Proof. apply quiet_primitive. intros w. now apply limiter_untouched_emit. Qed.

Lemma quiet_page (lim off : number) : quiet (Db.page lim off) (fun _ => True).
Proof.
  apply quiet_primitive. intros w. unfold Db.page.
  destruct (D1.select_page lim off (DB w)); now apply limiter_untouched_emit.
Qed.

Lemma quiet_insert (amb : Ambient) (nm : string) (d : option string) :
  quiet (Db.insert amb nm d) (fun _ => True).
Proof.
  apply quiet_primitive. intros w. now apply limiter_untouched_db.
Qed.

Lemma quiet_update (nm : string) (d : option string) (p : sqlvalue) :
  quiet (Db.update nm d p) (fun _ => True).
Proof. apply quiet_primitive. intros w. now apply limiter_untouched_db. Qed.

Lemma quiet_delete (p : sqlvalue) : quiet (Db.delete p) (fun _ => True).
Proof. apply quiet_primitive. intros w. now apply limiter_untouched_db. Qed.

Lemma quiet_pure {A : Type} (m : M A) :
  (forall w, (m w).2 = w) -> quiet m (fun _ => True).
Proof. intros H. apply quiet_primitive. intros w. rewrite H. apply limiter_untouched_refl. Qed.

Lemma quiet_request_json (request : Request) : quiet (request_json request) (fun _ => True).
Proof. apply quiet_pure. intros w. unfold request_json. now destruct (req_body request). Qed.

Lemma quiet_destructure (data : json) : quiet (destructure data) (fun _ => True).
Proof. apply quiet_pure. intros w. now destruct data. Qed.

Lemma quiet_call_trim (v : jsvalue) : quiet (call_trim v) (fun _ => True).
Proof. apply quiet_pure. intros w. now destruct v as [[]|]. Qed.

Lemma quiet_name_missing (v : jsvalue) : quiet (name_missing v) (fun _ => True).
Proof.
  apply quiet_pure. intros w. unfold name_missing.
  destruct (Json.truthy v); [|reflexivity]. now destruct v as [[]|].
Qed.

Lemma quiet_description_or_null (v : jsvalue) :
  quiet (description_or_null v) (fun _ => True).
Proof.
  apply quiet_pure. intros w. unfold description_or_null.
  destruct (Json.truthy v); [|reflexivity]. now destruct v as [[]|].
Qed.

Ltac quiet_step_with post :=
  first
    [ apply (ensures_ret _ limiter_untouched_refl); post
    | apply (ensures_throw _ limiter_untouched_refl)
    | apply (ensures_try_catch _ limiter_untouched_trans); [ | intros ?]
    | eapply (ensures_bind _ limiter_untouched_trans);
        [ first [ apply quiet_first_by_id | apply quiet_total | apply quiet_page
                | apply quiet_insert | apply quiet_update | apply quiet_delete
                | apply quiet_request_json | apply quiet_destructure | apply quiet_call_trim
                | apply quiet_name_missing | apply quiet_description_or_null ]
        | intros ? _ ]
    | match goal with
      | |- ensures _ (match ?x with _ => _ end) _ => destruct x
      end ].

Ltac quiet_step := quiet_step_with ltac:(cbv; tauto).

Lemma quiet_handleItemsAPI_try (request : Request) (amb : Ambient)
    (cors : list (string * string)) :
  quiet (handleItemsAPI_try request amb cors) (fun r => plain_status (status r)).
Proof.
  unfold handleItemsAPI_try, handle_get, handle_post, handle_put, handle_delete.
  repeat quiet_step.
Qed.

Lemma handleItemsAPI_quiet (request : Request) (amb : Ambient)
    (cors : list (string * string)) (w : World) :
  limiter_untouched w (handleItemsAPI request amb cors w).2 /\
  plain_status (status (handleItemsAPI request amb cors w).1).
Proof.
  unfold handleItemsAPI.
  destruct (quiet_handleItemsAPI_try request amb cors w) as [Hw Hr].
  destruct (handleItemsAPI_try request amb cors w) as [[r|e] w1]; cbn in *.
  - auto.
  - split; [|cbv; tauto].
    eapply limiter_untouched_trans; [exact Hw | now apply limiter_untouched_emit].
Qed.

Lemma dispatch_quiet (request : Request) (amb : Ambient) (w : World) :
  limiter_untouched w (dispatch request amb w).2 /\
  plain_status (status (dispatch request amb w).1).
Proof.
  unfold dispatch.
  destruct (JsString.startsWith _ _); [apply handleItemsAPI_quiet|].
  repeat case_match; cbn; (split; [apply limiter_untouched_refl | cbv; tauto]).
Qed.

Lemma plain_status_not_429 (s : Z) : plain_status s -> s <> 429.
Proof. unfold plain_status. lia. Qed.


(** Claim C8.  A GET request on any path, and any request outside
    [/api/items*], is never answered 429 and never reaches the limiter:
    both counter stores are unchanged and no access to them is traced.
    Only the other methods on [/api/items*] pass the gate. *)
Theorem get_bypasses_rate_limit (request : Request) (amb : Ambient) (w : World) :
  req_method request = "GET" \/
  JsString.startsWith (req_pathname request) "/api/items" = false ->
  status (fetch request amb w).1 <> 429 /\
  limiter_untouched w (fetch request amb w).2.
Proof.
  intros H. unfold fetch.
  destruct (String.eqb (req_method request) "OPTIONS") eqn:Hopt.
  - cbn. split; [discriminate | apply limiter_untouched_refl].
  - assert (Hroute : rate_limited_route request = false).
    { unfold rate_limited_route. destruct H as [-> | ->]; [|reflexivity].
      now rewrite andb_false_r. }
    rewrite Hroute. destruct (dispatch_quiet request amb w) as [Hw Hs].
    split; [now apply plain_status_not_429 | exact Hw].
Qed.

(** * The repository reads nothing but the database *)

Lemma determined_ret {A : Type} (a : A) : db_determined (mret a).
Proof. intros w1 w2 H. now split. Qed.

Lemma determined_throw {A : Type} (e : JsError) : db_determined (throw e : M A).
Proof. intros w1 w2 H. now split. Qed.

Lemma determined_bind {A B : Type} (m : M A) (f : A -> M B) :
  db_determined m -> (forall a, db_determined (f a)) -> db_determined (m ≫= f).
Proof.
  intros Hm Hf w1 w2 H. unfold mbind, M_bind.
  destruct (Hm w1 w2 H) as [Hr Hdb].
  destruct (m w1) as [[a1|e1] w1'], (m w2) as [[a2|e2] w2']; cbn in *; try discriminate.
  - injection Hr as <-. now apply Hf.
  - injection Hr as <-. now split.
Qed.

Lemma determined_try_catch {A : Type} (m : M A) (h : JsError -> M A) :
  db_determined m -> (forall e, db_determined (h e)) -> db_determined (try_catch m h).
Proof.
  intros Hm Hh w1 w2 H. unfold try_catch.
  destruct (Hm w1 w2 H) as [Hr Hdb].
  destruct (m w1) as [[a1|e1] w1'], (m w2) as [[a2|e2] w2']; cbn in *; try discriminate.
  - injection Hr as <-. now split.
  - injection Hr as <-. now apply Hh.
Qed.

Lemma determined_request_json (request : Request) : db_determined (request_json request).
Proof. unfold request_json. destruct (req_body request); [apply determined_ret | apply determined_throw]. Qed.

Lemma determined_destructure (data : json) : db_determined (destructure data).
Proof. destruct data; first [apply determined_ret | apply determined_throw]. Qed.

Lemma determined_call_trim (v : jsvalue) : db_determined (call_trim v).
Proof. destruct v as [[]|]; first [apply determined_ret | apply determined_throw]. Qed.

Lemma determined_first_by_id (p : sqlvalue) : db_determined (Db.first_by_id p).
Proof. intros w1 w2 H. unfold Db.first_by_id. cbn. now rewrite H. Qed.

Lemma determined_total : db_determined Db.total.
Proof. intros w1 w2 H. unfold Db.total. cbn. now rewrite H. Qed.

Lemma determined_page (lim off : number) : db_determined (Db.page lim off).
Proof.
  intros w1 w2 H. unfold Db.page. rewrite H.
  now destruct (D1.select_page lim off (DB w2)).
Qed.

Lemma determined_insert (amb : Ambient) (nm : string) (d : option string) :
  db_determined (Db.insert amb nm d).
Proof. intros w1 w2 H. unfold Db.insert. cbn. now rewrite H. Qed.

Lemma determined_update (nm : string) (d : option string) (p : sqlvalue) :
  db_determined (Db.update nm d p).
Proof. intros w1 w2 H. unfold Db.update. cbn. now rewrite H. Qed.

Lemma determined_delete (p : sqlvalue) : db_determined (Db.delete p).
Proof. intros w1 w2 H. unfold Db.delete. cbn. now rewrite H. Qed.

Ltac determined_step :=
  first
    [ apply determined_ret
    | apply determined_throw
    | apply determined_try_catch; [ | intros ?]
    | apply determined_request_json | apply determined_destructure
    | apply determined_call_trim
    | apply determined_first_by_id | apply determined_total | apply determined_page
    | apply determined_insert | apply determined_update | apply determined_delete
    | apply determined_bind; [ | intros ?]
    | match goal with
      | |- db_determined (match ?x with _ => _ end) => destruct x
      end ].

Lemma determined_handleItemsAPI_try (request : Request) (amb : Ambient)
    (cors : list (string * string)) :
  db_determined (handleItemsAPI_try request amb cors).
Proof.
  unfold handleItemsAPI_try, handle_get, handle_post, handle_put, handle_delete,
    name_missing, description_or_null.
  repeat determined_step.
Qed.

(** The answer of the routes below the limiter, and the table they
    leave, depend on the world through its table only. *)
Lemma dispatch_db_determined (request : Request) (amb : Ambient) (w1 w2 : World) :
  DB w1 = DB w2 ->
  (dispatch request amb w1).1 = (dispatch request amb w2).1 /\
  DB (dispatch request amb w1).2 = DB (dispatch request amb w2).2.
Proof.
  intros H. unfold dispatch.
  destruct (JsString.startsWith _ _); [|repeat case_match; now split].
  unfold handleItemsAPI.
  destruct (determined_handleItemsAPI_try request amb corsHeaders w1 w2 H) as [Hr Hdb].
  destruct (handleItemsAPI_try request amb corsHeaders w1) as [[r1|e1] w1'],
           (handleItemsAPI_try request amb corsHeaders w2) as [[r2|e2] w2'];
    cbn in *; try discriminate; injection Hr as <-; now split.
Qed.

(** * Failing open *)

(** The [try] block throws only when a call to the KV namespace fails,
    and then it has changed neither counter store. *)
Lemma checkRateLimit_try_throws (request : Request) (amb : Ambient) (w : World)
    (error : JsError) (w1 : World) :
  checkRateLimit_try request amb w = (Throw error, w1) ->
  is_Some (RATE_LIMIT_KV w) /\
  RATE_LIMIT_KV w1 = RATE_LIMIT_KV w /\ rateLimitStore w1 = rateLimitStore w /\
  DB w1 = DB w.
Proof.
  unfold checkRateLimit_try. run_M.
  destruct (RATE_LIMIT_KV w) as [kv|] eqn:Hkv.
  - pose proof (kv_branch amb (rateLimitKey (clientIP request) (windowKey (now amb)))
                  (windowKey (now amb)) w kv Hkv) as (Hkv' & Hstore & Hdb & _).
    destruct (checkRateLimit_kv _ _ _ w) as [[early|e] w']; cbn in *.
    + destruct early; discriminate.
    + intros [= <- <-]. rewrite Hkv'. auto.
  - destruct (memory_branch amb (rateLimitKey (clientIP request) (windowKey (now amb)))
                (windowKey (now amb)) w) as (early & w' & -> & _).
    destruct early; discriminate.
Qed.

(** An outage of [get] makes the [try] block throw. *)
Lemma kv_get_outage (request : Request) (amb : Ambient) (w : World) :
  is_Some (RATE_LIMIT_KV w) -> kv_get_fails amb = true ->
  exists w1, checkRateLimit_try request amb w = (Throw KV.unavailable, w1).
Proof.
  intros [kv Hkv] Hget.
  unfold checkRateLimit_try, checkRateLimit_kv, KV.get. run_M.
  rewrite Hkv. cbn. rewrite Hkv, Hget. eauto.
Qed.

(** So does an outage of [put], unless the counter is saturated and no
    [put] is attempted. *)
Lemma kv_put_outage (request : Request) (amb : Ambient) (w : World) (kv : gmap string KVEntry) :
  RATE_LIMIT_KV w = Some kv -> kv_get_fails amb = false -> kv_put_fails amb = true ->
  KV.lookup (now amb) (rateLimitKey (clientIP request) (windowKey (now amb))) kv = None ->
  exists w1, checkRateLimit_try request amb w = (Throw KV.unavailable, w1).
Proof.
  intros Hkv Hget Hput Hnone.
  unfold checkRateLimit_try, checkRateLimit_kv, KV.get, KV.put. run_M.
  rewrite Hkv. cbn. rewrite Hkv, Hget, Hnone. cbn. rewrite Hkv, Hput. eauto.
Qed.

(** And so does every [put] that the namespace is asked for: the
    [expirationTtl] of 2 is below its minimum. *)
Lemma kv_put_refused (request : Request) (amb : Ambient) (w : World) (kv : gmap string KVEntry) :
  RATE_LIMIT_KV w = Some kv -> kv_get_fails amb = false -> kv_put_fails amb = false ->
  kv_blocks (now amb) (rateLimitKey (clientIP request) (windowKey (now amb))) kv = false ->
  exists w1, checkRateLimit_try request amb w = (Throw (KV.ttl_refused 2), w1).
Proof.
  intros Hkv Hget Hput Hfree.
  unfold checkRateLimit_try, checkRateLimit_kv, KV.get, KV.put, kv_blocks in *. run_M.
  rewrite Hkv. cbn. rewrite Hkv, Hget.
  destruct (KV.lookup _ _ kv) as [[|c text]|]; cbn; rewrite ?Hfree; cbn;
    rewrite Hkv, Hput; cbn; eauto.
Qed.

Lemma fetch_gate (request : Request) (amb : Ambient) (w : World) :
  req_method request <> "OPTIONS" -> rate_limited_route request = true ->
  fetch request amb w =
    if limited (checkRateLimit request amb w).1
    then (rate_limit_exceeded (checkRateLimit request amb w).1 amb,
          (checkRateLimit request amb w).2)
    else dispatch request amb (checkRateLimit request amb w).2.
Proof.
  intros Hopt Hroute. unfold fetch.
  destruct (String.eqb_spec (req_method request) "OPTIONS"); [contradiction|].
  rewrite Hroute. now destruct (checkRateLimit request amb w).
Qed.

(** Claim C3.  When anything is thrown while the limiter consults its
    backend, a write request to [/api/items*] is let through:
    [checkRateLimit] returns [{ limited: false }], neither counter store
    nor the database has changed, and [fetch] hands the request to the
    repository: its answer is no 429, and both the answer and the table
    afterwards are those of the repository run without the limiter. *)
Theorem rate_limiter_fails_open (request : Request) (amb : Ambient) (w : World)
    (error : JsError) (w1 : World) :
  req_method request <> "OPTIONS" -> rate_limited_route request = true ->
  checkRateLimit_try request amb w = (Throw error, w1) ->
  let r := (checkRateLimit request amb w).1 in
  let w' := (checkRateLimit request amb w).2 in
  r = not_limited /\
  RATE_LIMIT_KV w' = RATE_LIMIT_KV w /\ rateLimitStore w' = rateLimitStore w /\
  DB w' = DB w /\
  fetch request amb w = dispatch request amb w' /\
  status (fetch request amb w).1 <> 429 /\
  (fetch request amb w).1 = (dispatch request amb w).1 /\
  DB (fetch request amb w).2 = DB (dispatch request amb w).2.
Proof.
  intros Hopt Hroute Hthrow r w'. subst r w'.
  destruct (checkRateLimit_try_throws _ _ _ _ _ Hthrow) as (_ & Hkv & Hstore & Hdb).
  rewrite (fetch_gate _ _ _ Hopt Hroute).
  unfold checkRateLimit. rewrite Hthrow. cbn.
  do 5 (split; [trivial|]). split.
  - apply plain_status_not_429, dispatch_quiet.
  - apply dispatch_db_determined. exact Hdb.
Qed.

(** * The limiter leaves the database alone *)

Lemma db_untouched_refl (w : World) : db_untouched w w.
Proof. split; [reflexivity|]. now exists []. Qed.

Lemma db_untouched_trans (w1 w2 w3 : World) :
  db_untouched w1 w2 -> db_untouched w2 w3 -> db_untouched w1 w3.
Proof.
  intros (Hd1 & evs1 & Ht1 & Hf1) (Hd2 & evs2 & Ht2 & Hf2).
  split; [congruence|].
  exists (evs2 ++ evs1)%list. split.
  - rewrite Ht2, Ht1. apply List.app_assoc.
  - apply Forall_app; auto.
Qed.

Lemma db_untouched_emit (e : Event) (w : World) :
  is_db_access e = false -> db_untouched w (emit e w).
Proof. intros He. split; [reflexivity|]. exists [e]. split; [reflexivity | now constructor]. Qed.

Lemma offline_primitive {A : Type} (m : M A) :
  (forall w, db_untouched w (m w).2) -> offline m (fun _ => True).
Proof. intros H w. split; [apply H | trivial]. Qed.

Lemma offline_kv_get (amb : Ambient) (key : string) : offline (KV.get amb key) (fun _ => True).
Proof.
  apply offline_primitive. intros w. unfold KV.get.
  repeat case_match; now apply db_untouched_emit.
Qed.

Lemma offline_kv_put (amb : Ambient) (key value : string) (ttl : Z) :
  offline (KV.put amb key value ttl) (fun _ => True).
Proof.
  apply offline_primitive. intros w. unfold KV.put.
  repeat case_match; now apply db_untouched_emit.
Qed.

Lemma offline_log (e : Event) : is_db_access e = false -> offline (log e) (fun _ => True).
Proof. intros He. apply offline_primitive. intros w. now apply db_untouched_emit. Qed.

Lemma offline_store_ensure : offline Store.ensure (fun _ => True).
Proof.
  apply offline_primitive. intros w. unfold Store.ensure.
  destruct (rateLimitStore w); cbn; (split; [reflexivity | now exists []]).
Qed.

Lemma offline_store_get (key : string) : offline (Store.get key) (fun _ => True).
Proof. apply offline_primitive. intros w. now apply db_untouched_emit. Qed.

Lemma offline_store_set (key : string) (e : RateEntry) :
  offline (Store.set key e) (fun _ => True).
Proof.
  apply offline_primitive. intros w.
  split; [reflexivity|]. exists [StoreSet key e]. split; [reflexivity | now constructor].
Qed.

Lemma offline_store_increment (key : string) (e : RateEntry) :
  offline (Store.increment key e) (fun _ => True).
Proof. apply offline_primitive. intros w. split; [reflexivity|]. now exists []. Qed.

Lemma offline_store_sweep (t : Z) : offline (Store.sweep t) (fun _ => True).
Proof.
  apply offline_primitive. intros w.
  split; [reflexivity|]. exists [StoreEntries]. split; [reflexivity | now constructor].
Qed.

Lemma offline_get_world : offline get_world (fun _ => True).
Proof. apply offline_primitive. intros w. apply db_untouched_refl. Qed.

Ltac offline_step :=
  first
    [ apply (ensures_ret _ db_untouched_refl); cbv; tauto
    | match goal with
      | |- ensures _ ((match ?x with _ => _ end) ≫= _) _ => destruct x
      end
    | eapply (ensures_bind _ db_untouched_trans);
        [ first [ apply offline_kv_get | apply offline_kv_put
                | apply offline_log; reflexivity | apply offline_store_ensure
                | apply offline_store_get | apply offline_store_set
                | apply offline_store_increment | apply offline_store_sweep
                | apply offline_get_world | apply (ensures_ret _ db_untouched_refl); exact I ]
        | intros ? _ ]
    | match goal with
      | |- ensures _ (match ?x with _ => _ end) _ => destruct x
      end ].

Lemma offline_checkRateLimit_try (request : Request) (amb : Ambient) :
  offline (checkRateLimit_try request amb) (verdict (now amb)).
Proof.
  unfold checkRateLimit_try.
  eapply (ensures_bind _ db_untouched_trans); [apply offline_get_world | intros w _].
  eapply (ensures_bind _ db_untouched_trans) with (P := early_verdict (now amb)).
  - destruct (RATE_LIMIT_KV w).
    + unfold checkRateLimit_kv. repeat offline_step.
    + unfold checkRateLimit_memory.
      do 3 offline_step.
      eapply (ensures_bind _ db_untouched_trans) with (P := early_verdict (now amb)).
      * repeat offline_step.
      * intros early Hearly. destruct early; repeat offline_step.
  - intros early Hearly. destruct early; apply (ensures_ret _ db_untouched_refl); exact Hearly.
Qed.

Lemma checkRateLimit_offline (request : Request) (amb : Ambient) (w : World) :
  db_untouched w (checkRateLimit request amb w).2 /\
  verdict (now amb) (checkRateLimit request amb w).1.
Proof.
  unfold checkRateLimit.
  destruct (offline_checkRateLimit_try request amb w) as [Hw Hr].
  destruct (checkRateLimit_try request amb w) as [[r|e] w1]; cbn in *.
  - auto.
  - split; [|now left].
    eapply db_untouched_trans; [exact Hw | now apply db_untouched_emit].
Qed.

Lemma checkRateLimit_resetTime (request : Request) (amb : Ambient) (w : World) :
  limited (checkRateLimit request amb w).1 = true ->
  (checkRateLimit request amb w).1
  = limited_until ((windowKey (now amb) + 1) * RATE_LIMIT_WINDOW).
Proof.
  destruct (checkRateLimit_offline request amb w) as [_ [-> | ->]]; [discriminate | trivial].
Qed.

Lemma ceil_div_within_window (t t' : Z) :
  t <= t' < (windowKey t + 1) * RATE_LIMIT_WINDOW ->
  JsNumber.ceil_div ((windowKey t + 1) * RATE_LIMIT_WINDOW - t') 1000 = 1.
Proof.
  unfold windowKey, RATE_LIMIT_WINDOW, JsNumber.ceil_div. intros [Hle Hlt].
  pose proof (Z.mul_div_le t 1000 ltac:(lia)).
  assert (H1 : (- ((t / 1000 + 1) * 1000 - t')) / 1000 = -1).
  { symmetry. apply (Z.div_unique _ 1000 (-1) ((t / 1000) * 1000 + 1000 - ((t / 1000 + 1) * 1000 - t') - (t / 1000) * 1000)); lia. }
  rewrite H1. reflexivity.
Qed.

(** Claim C2, amended.  A write that the limiter rejects is answered 429
    with a body whose [retryAfter] is the whole number of seconds, rounded
    up, from the moment the reply is written to the start of the next
    window: [ceil(((windowIndex + 1) * 1000 - now') / 1000)].  While the
    reply is written in the window of the request this is 1; the database
    is not touched. *)
Theorem rejected_write_429 (request : Request) (amb : Ambient) (w : World) :
  req_method request <> "OPTIONS" -> rate_limited_route request = true ->
  limited (checkRateLimit request amb w).1 = true ->
  let response := (fetch request amb w).1 in
  let reset := (windowKey (now amb) + 1) * RATE_LIMIT_WINDOW in
  status response = 429 /\
  body_field "retryAfter" response
    = Some (Json.of_Z (JsNumber.ceil_div (reset - now_reply amb) 1000)) /\
  (now amb <= now_reply amb < reset ->
   body_field "retryAfter" response = Some (Json.of_Z 1)) /\
  DB (fetch request amb w).2 = DB w.
Proof.
  intros Hopt Hroute Hlim response reset. subst response reset.
  rewrite (fetch_gate _ _ _ Hopt Hroute), Hlim.
  rewrite (checkRateLimit_resetTime _ _ _ Hlim).
  cbn [fst snd]. split; [reflexivity|]. split; [reflexivity|]. split.
  - intros Hwin. cbn. unfold retryAfter. cbn.
    now rewrite (ceil_div_within_window _ _ Hwin).
  - apply checkRateLimit_offline.
Qed.

(** * The items repository *)

Lemma path_id_nonempty (path i : string) : path_id path = Some i -> truthy_text (Some i) = true.
Proof.
  unfold path_id. case_match; [|discriminate].
  intros Hn%nth_error_In. apply List.filter_In in Hn as [_ Hlen].
  now destruct i.
Qed.

Lemma name_missing_blank (v : jsvalue) (w : World) :
  name_blank v -> name_missing v w = (Ok true, w).
Proof.
  unfold name_missing. intros [-> | (s & -> & Hs)]; [reflexivity|].
  cbn. destruct (String.eqb s ""); cbn; [reflexivity|].
  run_M. cbn. now rewrite Hs.
Qed.

Lemma name_missing_given (v : jsvalue) (nm : string) (w : World) :
  name_given v nm -> name_missing v w = (Ok false, w).
Proof.
  unfold name_missing. intros [-> Hs]. cbn.
  destruct (String.eqb_spec nm ""); cbn.
  - subst. now contradiction Hs.
  - run_M. cbn. now destruct (String.eqb_spec (JsString.trim nm) "").
Qed.

(** Without a usable name, create and update answer 400 and touch nothing. *)
Lemma blank_name_handler (request : Request) (amb : Ambient)
    (cors : list (string * string)) (w : World) :
  req_method request = "POST" \/ req_method request = "PUT" ->
  name_blank (body_name request) ->
  exists response,
    handleItemsAPI request amb cors w = (response, w) /\ status response = 400.
Proof.
  intros Hm Hblank. unfold handleItemsAPI, handleItemsAPI_try, body_name in *.
  assert (Hbody :
    forall k : jsvalue * jsvalue -> M Response,
      (forall nm descr w0, name_blank nm ->
         k (nm, descr) w0 = (Ok (name_required cors), w0)) ->
      exists response,
        try_catch (data ← request_json request; p ← destructure data; k p)
                  (fun _ => mret (invalid_json cors)) w = (Ok response, w)
        /\ status response = 400).
  { intros k Hk. unfold request_json, destructure. run_M.
    destruct (req_body request) as [[| | | | |fields]|]; cbn;
      try (eexists; split; [reflexivity | reflexivity]);
      try (rewrite Hk by (now left); eexists; split; reflexivity).
    rewrite Hk by exact Hblank. eexists; split; reflexivity. }
  destruct Hm as [-> | ->]; cbn.
  - unfold handle_post.
    edestruct Hbody as (response & -> & Hs); [|eexists; split; [reflexivity | exact Hs]].
    intros nm descr w0 Hnm. run_M. now rewrite (name_missing_blank _ _ Hnm).
  - unfold handle_put. destruct (truthy_text _); cbn.
    + edestruct Hbody as (response & -> & Hs); [|eexists; split; [reflexivity | exact Hs]].
      intros nm descr w0 Hnm. run_M. now rewrite (name_missing_blank _ _ Hnm).
    + eexists; split; reflexivity.
Qed.

(** A GET under [/api/items] goes straight to the repository. *)
Lemma fetch_get_route (request : Request) (amb : Ambient) (w : World) :
  req_method request = "GET" ->
  JsString.startsWith (req_pathname request) "/api/items" = true ->
  fetch request amb w = handleItemsAPI request amb corsHeaders w.
Proof.
  intros Hm Hpath. unfold fetch, rate_limited_route, dispatch.
  now rewrite Hm, Hpath.
Qed.

(** Any other method under [/api/items] goes through the limiter first. *)
Lemma fetch_write_route (request : Request) (amb : Ambient) (w : World) :
  req_method request <> "OPTIONS" -> req_method request <> "GET" ->
  JsString.startsWith (req_pathname request) "/api/items" = true ->
  fetch request amb w =
    if limited (checkRateLimit request amb w).1
    then (rate_limit_exceeded (checkRateLimit request amb w).1 amb,
          (checkRateLimit request amb w).2)
    else handleItemsAPI request amb corsHeaders (checkRateLimit request amb w).2.
Proof.
  intros Hopt Hget Hpath.
  assert (Hroute : rate_limited_route request = true).
  { unfold rate_limited_route. rewrite Hpath.
    now destruct (String.eqb_spec (req_method request) "GET"). }
  rewrite (fetch_gate _ _ _ Hopt Hroute). unfold dispatch. now rewrite Hpath.
Qed.

(** Claim C4.  A create or an update whose body carries no [name], or a
    [name] that trims to the empty string, is answered 400 by the
    repository, which leaves the world as it was: no statement reaches the
    database.  Through [fetch] the table is unchanged as well, and the
    answer is that 400 unless the limiter has rejected the request first
    (429). *)
Theorem blank_name_rejected (request : Request) (amb : Ambient) (w : World) :
  req_method request = "POST" \/ req_method request = "PUT" ->
  name_blank (body_name request) ->
  (forall cors,
     status (handleItemsAPI request amb cors w).1 = 400 /\
     (handleItemsAPI request amb cors w).2 = w) /\
  (JsString.startsWith (req_pathname request) "/api/items" = true ->
   DB (fetch request amb w).2 = DB w /\
   (if limited (checkRateLimit request amb w).1
    then status (fetch request amb w).1 = 429
    else status (fetch request amb w).1 = 400)).
Proof.
  intros Hm Hblank. split.
  - intros cors.
    destruct (blank_name_handler request amb cors w Hm Hblank) as (response & -> & Hs).
    auto.
  - intros Hpath.
    rewrite fetch_write_route; trivial; try (destruct Hm as [-> | ->]; discriminate).
    destruct (checkRateLimit_offline request amb w) as [[Hdb _] _].
    destruct (limited _).
    + auto.
    + destruct (blank_name_handler request amb corsHeaders
                  (checkRateLimit request amb w).2 Hm Hblank) as (response & -> & Hs).
      auto.
Qed.

(** A body with a usable name is a JSON object; the handlers read its two
    properties. *)
Lemma body_with_name (request : Request) (nm : string) :
  name_given (body_name request) nm ->
  exists fields,
    req_body request = Some (JObject fields) /\
    Json.assoc "name" fields = body_name request /\
    Json.assoc "description" fields = body_description request.
Proof.
  unfold body_name, body_description. intros [H _].
  destruct (req_body request) as [[| | | | |fields]|]; try discriminate. eauto.
Qed.


(** ** Facts about the table *)

#[local] Arguments D1.select_by_id : simpl never.
#[local] Arguments D1.insert : simpl never.
#[local] Arguments D1.update : simpl never.
#[local] Arguments D1.delete : simpl never.
#[local] Arguments D1.next_id : simpl never.

Lemma id_matches_number (db : Database) (i r : Z) :
  D1.id_matches db (SqlNumber (Num i)) r = (i =? r).
Proof. reflexivity. Qed.

Lemma id_matches_text (db : Database) (i r : Z) :
  D1.reads_decimal db i ->
  D1.id_matches db (SqlText (JsNumber.Z_toString i)) r = (i =? r).
Proof. unfold D1.id_matches, D1.integer_of, D1.reads_decimal. now intros ->. Qed.

Lemma id_matches_with_rows (rows : list Item) (seq : Z) (db : Database) (p : sqlvalue) :
  D1.id_matches (with_rows rows seq db) p = D1.id_matches db p.
Proof. reflexivity. Qed.

(** The engine of the examples reads every decimal spelling. *)
Lemma decimal_text_toString (z : Z) : decimal_text (JsNumber.Z_toString z) = Some z.
Proof.
  unfold decimal_text.
  rewrite split_free by now apply Z_toString_free.
  unfold JsNumber.Z_toString.
  assert (H : NilZero.int_of_string (NilEmpty.string_of_int (Z.to_int z)) = Some (Z.to_int z)).
  { destruct z as [|p|p]; [reflexivity | |]; cbn [Z.to_int NilEmpty.string_of_int].
    - pose proof (NilZero.isi (Decimal.Pos (Pos.to_uint p))) as Hi.
      pose proof (Unsigned.to_uint_nonnil p) as Hnil.
      cbn [NilZero.string_of_int NilZero.string_of_uint] in Hi.
      destruct (Pos.to_uint p) eqn:E; [congruence | apply Hi; congruence ..].
    - pose proof (NilZero.isi (Decimal.Neg (Pos.to_uint p))) as Hi.
      pose proof (Unsigned.to_uint_nonnil p) as Hnil.
      cbn [NilZero.string_of_int NilZero.string_of_uint] in Hi.
      destruct (Pos.to_uint p) eqn:E; [congruence | apply Hi; congruence ..]. }
  rewrite H. cbn. now rewrite DecimalZ.of_to.
Qed.

Lemma max_rowid_bound (rows : list Item) (row : Item) :
  In row rows -> id row <= D1.max_rowid rows.
Proof.
  unfold D1.max_rowid.
  induction rows as [|r rows IH]; cbn [fold_right In]; [easy|].
  intros [-> | Hin]; [lia|]. specialize (IH Hin). lia.
Qed.

Lemma find_app_fresh {A : Type} (f : A -> bool) (l : list A) (x : A) :
  (forall y, In y l -> f y = false) -> f x = true -> List.find f (l ++ [x]) = Some x.
Proof.
  induction l as [|y l IH]; cbn; intros Hl Hx.
  - now rewrite Hx.
  - rewrite (Hl y) by now left. apply IH; auto.
Qed.

(** The row just inserted is the one its id selects. *)
Lemma select_after_insert (nm : string) (d : option string) (ts : string)
    (db : Database) (p : sqlvalue) :
  (forall r, D1.id_matches db p r = (D1.next_id db =? r)) ->
  D1.select_by_id p (D1.insert nm d ts db).2
  = Some (mkItem (D1.next_id db) nm d (Some ts)).
Proof.
  intros Hp. unfold D1.select_by_id, D1.insert. cbn [snd items with_rows].
  change (D1.id_matches _ p) with (D1.id_matches db p).
  apply find_app_fresh.
  - intros row Hin. rewrite Hp. apply Z.eqb_neq.
    pose proof (max_rowid_bound _ _ Hin). unfold D1.next_id. lia.
  - rewrite Hp. apply Z.eqb_refl.
Qed.

(** After an update, the id selects the rewritten row. *)
Lemma select_after_update (nm : string) (d : option string) (p : sqlvalue)
    (db : Database) (old : Item) :
  D1.select_by_id p db = Some old ->
  D1.select_by_id p (D1.update nm d p db)
  = Some (mkItem (id old) nm d (created_at old)).
Proof.
  unfold D1.select_by_id, D1.update. cbn [items with_rows].
  change (D1.id_matches (with_rows _ _ db) p) with (D1.id_matches db p).
  induction (items db) as [|row rows IH]; cbn; [discriminate|].
  destruct (D1.id_matches db p (id row)) eqn:Hrow; cbn.
  - rewrite Hrow. now intros [= ->].
  - rewrite Hrow. exact IH.
Qed.

Lemma description_or_null_stores (d : jsvalue) (stored : option string) (w : World) :
  stores d stored -> description_or_null d w = (Ok stored, w).
Proof.
  unfold description_or_null.
  intros [[-> ->] | (s & -> & Hs & ->)]; [reflexivity|].
  cbn. now destruct (String.eqb_spec s "").
Qed.

Lemma call_trim_given (v : jsvalue) (nm : string) (w : World) :
  name_given v nm -> call_trim v w = (Ok (JsString.trim nm), w).
Proof. now intros [-> _]. Qed.

(** A create with a usable name and a storable description. *)
Lemma post_creates (request : Request) (amb : Ambient) (cors : list (string * string))
    (w : World) (nm : string) (stored : option string) :
  req_method request = "POST" ->
  name_given (body_name request) nm ->
  stores (body_description request) stored ->
  let it := mkItem (D1.next_id (DB w)) (JsString.trim nm) stored
              (Some (current_timestamp amb)) in
  (handleItemsAPI request amb cors w).1 = item_created (Some it) cors /\
  DB (handleItemsAPI request amb cors w).2
  = (D1.insert (JsString.trim nm) stored (current_timestamp amb) (DB w)).2.
Proof.
  intros Hm Hnm Hd it. subst it.
  destruct (body_with_name _ _ Hnm) as (fields & Hbody & Hname & Hdescr).
  unfold handleItemsAPI, handleItemsAPI_try. rewrite Hm. cbn.
  unfold handle_post, request_json, destructure. rewrite Hbody. cbn.
  run_M. cbn. rewrite Hname, Hdescr.
  rewrite (name_missing_given _ _ _ Hnm), (call_trim_given _ _ _ Hnm).
  rewrite (description_or_null_stores _ _ _ Hd).
  unfold Db.insert, Db.first_by_id. cbn.
  change (D1.insert (JsString.trim nm) stored (current_timestamp amb) (DB w)).1
    with (D1.next_id (DB w)).
  rewrite (select_after_insert (JsString.trim nm) stored (current_timestamp amb)
             (DB w) (SqlNumber (Num (D1.next_id (DB w)))) (fun r => eq_refl)).
  auto.
Qed.

(** An update of an existing row, likewise. *)
Lemma put_updates (request : Request) (amb : Ambient) (cors : list (string * string))
    (w : World) (nm i : string) (stored : option string) (old : Item) :
  req_method request = "PUT" ->
  path_id (req_pathname request) = Some i ->
  D1.select_by_id (SqlText i) (DB w) = Some old ->
  name_given (body_name request) nm ->
  stores (body_description request) stored ->
  let it := mkItem (id old) (JsString.trim nm) stored (created_at old) in
  (handleItemsAPI request amb cors w).1 = item_updated (Some it) cors /\
  DB (handleItemsAPI request amb cors w).2
  = D1.update (JsString.trim nm) stored (SqlText i) (DB w).
Proof.
  intros Hm Hid Hold Hnm Hd it. subst it.
  pose proof (path_id_nonempty _ _ Hid) as Hi.
  destruct (body_with_name _ _ Hnm) as (fields & Hbody & Hname & Hdescr).
  unfold handleItemsAPI, handleItemsAPI_try. rewrite Hm, Hid. cbn.
  unfold handle_put, request_json, destructure. rewrite Hi, Hbody. cbn.
  run_M. cbn. rewrite Hname, Hdescr.
  rewrite (name_missing_given _ _ _ Hnm). cbn. rewrite Hold.
  rewrite (call_trim_given _ _ _ Hnm), (description_or_null_stores _ _ _ Hd). cbn.
  rewrite (select_after_update _ _ _ _ _ Hold). auto.
Qed.

(** What [stores] keeps of a description: nothing of a falsy value, and of
    a non-empty string the text between the white space at its ends. *)
Lemma stores_trimmed (d : jsvalue) (stored : option string) :
  stores d stored ->
  (Json.truthy d = false -> stored = None) /\
  (forall s, d = Some (JString s) -> s <> "" ->
     exists t, stored = Some t /\ trimmed_of s t).
Proof.
  intros [[Hf ->] | (s & -> & Hs & ->)]; split; trivial.
  - intros s -> Hs. cbn in Hf. now destruct (String.eqb_spec s "").
  - cbn. destruct (String.eqb_spec s ""); [contradiction | discriminate].
  - intros s' [= <-] _. eauto using trim_spec.
Qed.

(** Claim C10.  For a create, and for an update of an existing row, whose
    body carries a usable name: a falsy [description] (absent, [null], the
    empty string, ...) is stored as NULL; of a non-empty string what is
    stored is the string without the white space at its two ends, which
    is again a string, never NULL.  The row selected afterwards by the id
    carries that value. *)
Theorem description_normalised (request : Request) (amb : Ambient)
    (cors : list (string * string)) (w : World) (nm : string) (stored : option string) :
  name_given (body_name request) nm ->
  stores (body_description request) stored ->
  let response := (handleItemsAPI request amb cors w).1 in
  let db' := DB (handleItemsAPI request amb cors w).2 in
  (Json.truthy (body_description request) = false -> stored = None) /\
  (forall s, body_description request = Some (JString s) -> s <> "" ->
     exists t, stored = Some t /\ trimmed_of s t) /\
  (req_method request = "POST" ->
   let it := mkItem (D1.next_id (DB w)) (JsString.trim nm) stored
               (Some (current_timestamp amb)) in
   response = item_created (Some it) cors /\
   D1.select_by_id (SqlNumber (Num (id it))) db' = Some it /\
   description it = stored) /\
  (req_method request = "PUT" ->
   forall i old,
     path_id (req_pathname request) = Some i ->
     D1.select_by_id (SqlText i) (DB w) = Some old ->
     let it := mkItem (id old) (JsString.trim nm) stored (created_at old) in
     response = item_updated (Some it) cors /\
     D1.select_by_id (SqlText i) db' = Some it /\
     description it = stored).
Proof.
  intros Hnm Hd response db'. subst response db'.
  destruct (stores_trimmed _ _ Hd) as [Hnull Htrim].
  split; [exact Hnull|]. split; [exact Htrim|]. split.
  - intros Hm it. subst it.
    destruct (post_creates request amb cors w nm stored Hm Hnm Hd) as [-> ->].
    split; [reflexivity|]. split; [|reflexivity].
    now apply select_after_insert.
  - intros Hm i old Hid Hold it. subst it.
    destruct (put_updates request amb cors w nm i stored old Hm Hid Hold Hnm Hd) as [-> ->].
    split; [reflexivity|]. split; [|reflexivity].
    now apply select_after_update.
Qed.

(** ** Create, then read *)

(** Only a create answers 201. *)
Lemma created_by_post (request : Request) (amb : Ambient)
    (cors : list (string * string)) (w : World) :
  status (handleItemsAPI request amb cors w).1 = 201 -> req_method request = "POST".
Proof.
  unfold handleItemsAPI, handleItemsAPI_try.
  destruct (String.eqb_spec (req_method request) "POST"); [trivial|].
  assert (H : quiet
    (if String.eqb (req_method request) "GET"
     then handle_get request (path_id (req_pathname request)) cors
     else if String.eqb (req_method request) "PUT"
          then handle_put request (path_id (req_pathname request)) cors
          else if String.eqb (req_method request) "DELETE"
               then handle_delete (path_id (req_pathname request)) cors
               else mret (method_not_allowed cors))
    (fun r => status r <> 201)).
  { unfold handle_get, handle_put, handle_delete.
    repeat quiet_step_with ltac:(cbv; discriminate). }
  intros Hs. exfalso.
  destruct (H w) as [_ Hr]. cbv zeta in *.
  destruct (String.eqb (req_method request) "GET");
    [| destruct (String.eqb (req_method request) "PUT");
       [| destruct (String.eqb (req_method request) "DELETE")]];
    match type of Hr with
    | context [(?m w).1] => destruct (m w) as [[r|e] w1]
    end; cbn in *; try discriminate; now apply (Hr r).
Qed.

(** A create answers 201 only for a usable name and a storable
    description. *)
Lemma created_body (request : Request) (amb : Ambient)
    (cors : list (string * string)) (w : World) :
  req_method request = "POST" ->
  status (handleItemsAPI request amb cors w).1 = 201 ->
  exists nm stored,
    name_given (body_name request) nm /\ stores (body_description request) stored.
Proof.
  intros Hm. unfold handleItemsAPI, handleItemsAPI_try. rewrite Hm. cbn.
  unfold handle_post, request_json, destructure, body_name, body_description.
  destruct (req_body request) as [[| | | | |fields]|]; run_M; cbn; try discriminate.
  unfold name_missing, description_or_null, call_trim. run_M.
  destruct (Json.assoc "name" fields) as [[|[]|q|s|l|f]|]; cbn; try discriminate.
  - destruct (Qnum q =? 0); cbn; discriminate.
  - destruct (String.eqb_spec s ""); cbn; [discriminate|].
    destruct (String.eqb_spec (JsString.trim s) ""); cbn; [discriminate|].
    destruct (Json.assoc "description" fields) as [[|[]|q|d|l|f]|]; cbn;
      try discriminate;
      try (intros _; exists s, None; split; [now split | left; now split]).
    + destruct (Qnum q =? 0) eqn:Hq; cbn; [|discriminate].
      intros _. exists s, None. split; [now split | left; cbn; now rewrite Hq].
    + destruct (String.eqb_spec d ""); cbn; intros _.
      * exists s, None. split; [now split | left; subst; now split].
      * exists s, (Some (JsString.trim d)). split; [now split | right; eauto].
Qed.

(** A 201 from [fetch] is the answer of the repository to an admitted
    POST. *)
Lemma fetch_created (request : Request) (amb : Ambient) (w : World) :
  status (fetch request amb w).1 = 201 ->
  exists w1,
    DB w1 = DB w /\
    fetch request amb w = handleItemsAPI request amb corsHeaders w1 /\
    req_method request = "POST".
Proof.
  unfold fetch.
  destruct (String.eqb (req_method request) "OPTIONS"); [discriminate|].
  assert (Hd : forall w1,
            status (dispatch request amb w1).1 = 201 ->
            dispatch request amb w1 = handleItemsAPI request amb corsHeaders w1 /\
            req_method request = "POST").
  { intros w1. unfold dispatch.
    destruct (JsString.startsWith _ _).
    - intros Hs. eauto using created_by_post.
    - repeat case_match; discriminate. }
  destruct (rate_limited_route request).
  - destruct (checkRateLimit_offline request amb w) as [[Hdb _] _].
    destruct (checkRateLimit request amb w) as [r w1]. cbn in *.
    destruct (limited r); [discriminate|].
    intros Hs. exists w1. destruct (Hd w1 Hs). auto.
  - intros Hs. exists w. destruct (Hd w Hs). auto.
Qed.

Lemma startsWith_items (s : string) :
  JsString.startsWith ("/api/items/" +:+ s) "/api/items" = true.
Proof. reflexivity. Qed.

(** Reading an item that the table holds under a numeric id. *)
Lemma fetch_read (read : Request) (amb : Ambient) (w : World) (i : Z) (it : Item) :
  req_method read = "GET" ->
  req_pathname read = "/api/items/" +:+ JsNumber.Z_toString i ->
  D1.select_by_id (SqlText (JsNumber.Z_toString i)) (DB w) = Some it ->
  (fetch read amb w).1 = item_found it corsHeaders.
Proof.
  intros Hm Hpath Hsel.
  unfold fetch, rate_limited_route, dispatch. rewrite Hm, Hpath, startsWith_items. cbn.
  unfold handleItemsAPI, handleItemsAPI_try. rewrite Hm, Hpath. cbn.
  rewrite path_id_item; [| apply Z_toString_nonempty | now apply Z_toString_free].
  unfold handle_get.
  rewrite (path_id_nonempty ("/api/items/" +:+ JsNumber.Z_toString i)
             (JsNumber.Z_toString i))
    by (apply path_id_item; [apply Z_toString_nonempty | now apply Z_toString_free]).
  unfold Db.first_by_id. run_M. cbn. now rewrite Hsel.
Qed.

(** Claim C9, amended.  After a create answered 201, the item read by
    the returned id, while the table is as the create left it, is the
    created item: its [name] is the [name] of the body without the white
    space at its ends, its [description] likewise the [description] of the
    body, or [null] for a falsy one, and its [created_at] is the time
    stamp of the insert, not [null].  The read names the id by its decimal
    spelling, which the engine reads as that id. *)
Theorem create_then_read (request : Request) (amb : Ambient) (w : World) :
  status (fetch request amb w).1 = 201 ->
  exists nm it,
    name_given (body_name request) nm /\
    (fetch request amb w).1 = item_created (Some it) corsHeaders /\
    name it = JsString.trim nm /\ trimmed_of nm (name it) /\
    stores (body_description request) (description it) /\
    (forall s, body_description request = Some (JString s) -> s <> "" ->
       exists t, description it = Some t /\ trimmed_of s t) /\
    created_at it = Some (current_timestamp amb) /\
    forall read amb' w'',
      req_method read = "GET" ->
      req_pathname read = "/api/items/" +:+ JsNumber.Z_toString (id it) ->
      DB w'' = DB (fetch request amb w).2 ->
      D1.reads_decimal (DB w'') (id it) ->
      (fetch read amb' w'').1 = item_found it corsHeaders.
Proof.
  intros Hs.
  destruct (fetch_created _ _ _ Hs) as (w1 & Hdb & Hfetch & Hm).
  rewrite Hfetch in *.
  destruct (created_body _ _ _ _ Hm Hs) as (nm & stored & Hnm & Hst).
  destruct (post_creates request amb corsHeaders w1 nm stored Hm Hnm Hst) as [Hr Hdb'].
  exists nm, (mkItem (D1.next_id (DB w1)) (JsString.trim nm) stored
                (Some (current_timestamp amb))).
  do 3 (split; [trivial|]). split; [apply trim_spec|]. split; [exact Hst|].
  split; [apply (stores_trimmed _ _ Hst)|]. split; [reflexivity|].
  intros read amb' w'' Hget Hpath Hsame Hreads.
  apply fetch_read with (i := D1.next_id (DB w1)); trivial.
  rewrite Hsame, Hdb' in *. apply select_after_insert. intros r.
  now apply id_matches_text.
Qed.

(** ** Listing *)

#[local] Arguments D1.order_by_created_at_desc : simpl never.
#[local] Arguments D1.count : simpl never.
#[local] Arguments JsNumber.ceil_quot : simpl never.
#[local] Arguments JsNumber.truthy : simpl never.
#[local] Arguments JsNumber.mul : simpl never.
#[local] Arguments JsNumber.sub : simpl never.

(** The offset of a page, when it stays in the safe range. *)
Lemma offset_Num (p l : Z) :
  1 <= l ->
  - JsNumber.MAX_SAFE_INTEGER <= (p - 1) * l <= JsNumber.MAX_SAFE_INTEGER ->
  JsNumber.mul (JsNumber.sub (Num p) (Num 1)) (Num l) = Num ((p - 1) * l).
Proof.
  intros Hl Ho.
  unfold JsNumber.mul, JsNumber.sub, JsNumber.add, JsNumber.negate.
  change (p + - (1)) with (p - 1).
  rewrite (of_integer_safe (p - 1)).
  - destruct (p - 1); apply of_integer_safe; unfold JsNumber.is_safe_integer;
      apply andb_true_intro; split; apply Z.leb_le; lia.
  - unfold JsNumber.is_safe_integer, JsNumber.MAX_SAFE_INTEGER in *.
    apply andb_true_intro. split; apply Z.leb_le; nia.
Qed.

Lemma bound_safe (z : Z) :
  - JsNumber.MAX_SAFE_INTEGER <= z <= JsNumber.MAX_SAFE_INTEGER ->
  D1.bound_integer (Num z) = Some z.
Proof.
  intros Hz. unfold D1.bound_integer, JsNumber.is_safe_integer.
  destruct (Z.leb_spec (- JsNumber.MAX_SAFE_INTEGER) z); [|lia].
  destruct (Z.leb_spec z JsNumber.MAX_SAFE_INTEGER); [reflexivity | lia].
Qed.

(** *** The order of the listing *)

Lemma created_leb_total (a b : option string) :
  D1.created_leb a b = true \/ D1.created_leb b a = true.
Proof. destruct a, b; cbn; auto using String.leb_total. Qed.

Lemma created_leb_trans (a b c : option string) :
  D1.created_leb a b = true -> D1.created_leb b c = true -> D1.created_leb a c = true.
Proof.
  destruct a as [x|], b as [y|], c as [z|]; cbn; try easy.
  intros Hxy%Is_true_true Hyz%Is_true_true. apply Is_true_true.
  change (String.le x z). now transitivity y.
Qed.

Lemma insert_desc_perm (x : Item) (l : list Item) : D1.insert_desc x l ≡ₚ x :: l.
Proof.
  induction l as [|y l IH]; cbn; [reflexivity|].
  destruct (D1.created_leb _ _); [reflexivity|].
  rewrite IH. apply perm_swap.
Qed.

(** Ordering the rows neither loses nor repeats a row. *)
Lemma order_perm (rows : list Item) : D1.order_by_created_at_desc rows ≡ₚ rows.
Proof.
  unfold D1.order_by_created_at_desc.
  induction rows as [|x rows IH]; cbn; [reflexivity|].
  now rewrite insert_desc_perm, IH.
Qed.

Lemma insert_desc_sorted (x : Item) (l : list Item) :
  StronglySorted (fun a b => D1.created_leb (created_at b) (created_at a) = true) l ->
  StronglySorted (fun a b => D1.created_leb (created_at b) (created_at a) = true)
    (D1.insert_desc x l).
Proof.
  induction l as [|y l IH]; cbn; intros Hs.
  - repeat constructor.
  - apply StronglySorted_inv in Hs as [Hl Hy].
    destruct (D1.created_leb (created_at y) (created_at x)) eqn:Hyx.
    + constructor; [now constructor|]. constructor; [exact Hyx|].
      rewrite List.Forall_forall in *. intros z Hz.
      eapply created_leb_trans; [apply Hy, Hz | exact Hyx].
    + constructor; [now apply IH|].
      rewrite (insert_desc_perm x l). constructor; [|exact Hy].
      destruct (created_leb_total (created_at x) (created_at y)); congruence.
Qed.

(** The listing comes newest first: no row is followed by one with a
    later [created_at]. *)
Lemma order_sorted (rows : list Item) :
  StronglySorted (fun a b => D1.created_leb (created_at b) (created_at a) = true)
    (D1.order_by_created_at_desc rows).
Proof.
  unfold D1.order_by_created_at_desc.
  induction rows as [|x rows IH]; cbn; [constructor | now apply insert_desc_sorted].
Qed.

Lemma insert_desc_length (x : Item) (l : list Item) :
  length (D1.insert_desc x l) = S (length l).
Proof.
  induction l as [|y l IH]; cbn; [reflexivity|].
  destruct (D1.created_leb _ _); cbn; [reflexivity | now rewrite IH].
Qed.

(** Ordering the rows keeps their number. *)
Lemma order_length (rows : list Item) :
  length (D1.order_by_created_at_desc rows) = length rows.
Proof.
  unfold D1.order_by_created_at_desc.
  induction rows as [|x rows IH]; cbn; [reflexivity|].
  now rewrite insert_desc_length, IH.
Qed.

Lemma ceil_div_pos (a b : Z) : 0 <= a -> 1 <= b ->
  0 <= JsNumber.ceil_div a b /\ (JsNumber.ceil_div a b = 0 <-> a = 0) /\
  (JsNumber.ceil_div a b - 1) * b < a <= JsNumber.ceil_div a b * b.
Proof.
  intros Ha Hb. unfold JsNumber.ceil_div.
  pose proof (Z.div_mod (- a) b ltac:(lia)) as Hdm.
  pose proof (Z.mod_pos_bound (- a) b ltac:(lia)) as Hmod.
  split; [nia|]. split; [split; nia | nia].
Qed.

(** [Math.ceil(total / limit) || 1] for a positive limit. *)
Lemma pages_positive_limit (total l : Z) : 0 <= total -> 1 <= l ->
  (if JsNumber.truthy (JsNumber.ceil_quot total (Num l))
   then JsNumber.ceil_quot total (Num l) else Num 1)
  = Num (Z.max 1 (JsNumber.ceil_div total l)).
Proof.
  intros Ht Hl. destruct (ceil_div_pos total l Ht Hl) as (Hc & _ & _).
  unfold JsNumber.ceil_quot. destruct l as [|l|l]; try lia.
  destruct (JsNumber.ceil_div total (Z.pos l)) as [|c|c] eqn:Hcd; try lia; cbn.
  - reflexivity.
  - f_equal. lia.
Qed.

(** Claim C6, amended.  For a list request whose [page] and [limit]
    parse to integers [p] and [l] with [1 <= l] ([p] is 1 and [l] is 10
    when the parameter is absent), where [l] and the offset [(p - 1) * l]
    are within the safe integers, the answer is 200 with the slice of the
    ordered rows that starts at that offset (a negative offset counts as 0)
    and has at most [l] rows, and with [pages = max 1 (ceil (total / l))].
    The ordered rows are the rows of the table, each once, newest first.
    With fifteen rows and [l = 10], page 1 has 10 rows, page 2 has 5, and
    [pages] is 2. *)
Theorem list_pagination (request : Request) (amb : Ambient)
    (cors : list (string * string)) (w : World) (p l : Z) :
  req_method request = "GET" ->
  path_id (req_pathname request) = None ->
  JsNumber.parseInt (or_default (searchParams_get request "page") "1") = Num p ->
  JsNumber.parseInt (or_default (searchParams_get request "limit") "10") = Num l ->
  1 <= l <= JsNumber.MAX_SAFE_INTEGER ->
  - JsNumber.MAX_SAFE_INTEGER <= (p - 1) * l <= JsNumber.MAX_SAFE_INTEGER ->
  let total := D1.count (DB w) in
  let offset := (p - 1) * l in
  let ordered := D1.order_by_created_at_desc (items (DB w)) in
  let rows := take (Z.to_nat l) (drop (Z.to_nat offset) ordered) in
  let pages := Z.max 1 (JsNumber.ceil_div total l) in
  (handleItemsAPI request amb cors w).1
  = json_response 200
      (JObject [("items", JArray (map json_of_item rows));
                ("pagination",
                 JObject [("page", Json.of_Z p); ("limit", Json.of_Z l);
                          ("total", Json.of_Z total); ("pages", Json.of_Z pages)])])
      cors /\
  DB (handleItemsAPI request amb cors w).2 = DB w /\
  (searchParams_get request "page" = None -> p = 1) /\
  (searchParams_get request "limit" = None -> l = 10) /\
  Z.of_nat (length rows) <= l /\
  (1 <= p -> Z.of_nat (length rows) = Z.min l (Z.max 0 (total - offset))) /\
  (ordered ≡ₚ items (DB w) /\
   StronglySorted (fun a b => D1.created_leb (created_at b) (created_at a) = true) ordered) /\
  (total = 15 -> l = 10 -> p = 1 -> length rows = 10%nat /\ pages = 2) /\
  (total = 15 -> l = 10 -> p = 2 -> length rows = 5%nat /\ pages = 2).
Proof.
  intros Hm Hid Hp Hl Hl1 Hoff total offset ordered rows pages.
  assert (Hlen : 1 <= p -> Z.of_nat (length rows) = Z.min l (Z.max 0 (total - offset))).
  { intros Hp1. subst rows ordered total offset. unfold D1.count.
    rewrite length_take, length_drop, order_length. nia. }
  assert (Hpages : total = 15 -> l = 10 -> pages = 2).
  { intros Ht Hl10. subst pages. rewrite Ht, Hl10. reflexivity. }
  assert (Hrun : handleItemsAPI request amb cors w
                 = (json_response 200
                      (JObject [("items", JArray (map json_of_item rows));
                                ("pagination",
                                 JObject [("page", Json.of_Z p); ("limit", Json.of_Z l);
                                          ("total", Json.of_Z total);
                                          ("pages", Json.of_Z pages)])])
                      cors,
                    emit (DbStatement Db.page_sql [SqlNumber (Num l); SqlNumber (Num offset)])
                      (emit (DbStatement Db.count_sql []) w))).
  { unfold handleItemsAPI, handleItemsAPI_try. rewrite Hm, Hid. cbn.
    unfold handle_get. cbn. rewrite Hp, Hl, offset_Num by lia.
    unfold Db.total, Db.page. run_M. cbn.
    unfold D1.select_page, D1.limit_offset.
    rewrite !bound_safe by lia.
    destruct (Z.ltb_spec l 0); [lia|]. cbn.
    fold total. rewrite pages_positive_limit by (unfold total, D1.count; lia).
    reflexivity. }
  rewrite Hrun. cbn [fst snd].
  split; [reflexivity|]. split; [reflexivity|].
  split; [|split; [|split; [|split; [exact Hlen|split; [|split]]]]].
  - intros Hnone. rewrite Hnone in Hp. cbn in Hp. now injection Hp.
  - intros Hnone. rewrite Hnone in Hl. cbn in Hl. now injection Hl.
  - subst rows. rewrite length_take. lia.
  - split; [apply order_perm | apply order_sorted].
  - intros Ht Hl10 Hp1. split; [|now apply Hpages].
    specialize (Hlen ltac:(lia)). subst offset. lia.
  - intros Ht Hl10 Hp2. split; [|now apply Hpages].
    specialize (Hlen ltac:(lia)). subst offset. lia.
Qed.

(** * The invariant of the process-local map *)

Lemma fresh_entry_wf (t wk : Z) :
  wk = windowKey t -> (wk + 2) * RATE_LIMIT_WINDOW <= t + 2 * RATE_LIMIT_WINDOW.
Proof.
  unfold windowKey, RATE_LIMIT_WINDOW. intros ->.
  pose proof (Z.mul_div_le t 1000 ltac:(lia)). lia.
Qed.

(** The entries of the map after the in-memory branch: those it had,
    except that the entry of the current key is new or incremented. *)
Lemma memory_branch_entries (amb : Ambient) (key : string) (wk : Z) (w : World)
    (k : string) (e' : RateEntry) :
  Store.current (checkRateLimit_memory amb key wk w).2 !! k = Some e' ->
  Store.current w !! k = Some e' \/
  (k = key /\
   (e' = mkRateEntry 1 (now amb + 2 * RATE_LIMIT_WINDOW) \/
    exists e, Store.current w !! key = Some e /\ expires e' = expires e)).
Proof.
  assert (Hnew : mkRateEntry 1 (now amb + RATE_LIMIT_WINDOW * 2)
                 = mkRateEntry 1 (now amb + 2 * RATE_LIMIT_WINDOW)) by (f_equal; lia).
  assert (Hins : forall (m : gmap string RateEntry) e,
            <[key := e]> m !! k = Some e' -> m !! k = Some e' \/ (k = key /\ e' = e)).
  { intros m e. destruct (decide (key = k)) as [<- | Hne].
    - rewrite lookup_insert_eq. intros [= <-]. now right.
    - rewrite lookup_insert_ne by exact Hne. now left. }
  unfold checkRateLimit_memory. run_M.
  unfold Store.ensure, Store.get, Store.set, Store.increment, Store.sweep, Store.current in *.
  rewrite Hnew. cbn.
  destruct (rateLimitStore w) as [m|] eqn:Hm; cbn in *; rewrite ?Hm; cbn.
  - destruct (m !! key) as [e|] eqn:He; cbn.
    + destruct (MAX_REQUESTS_PER_WINDOW <=? count e); cbn; [rewrite Hm; now left|].
      destruct (Qlt_le_dec (random amb) (1 # 100)); cbn; rewrite ?Hm; cbn;
        [intros [H _]%map_lookup_filter_Some | intros H];
        (apply Hins in H as [H | [-> ->]];
         [now left
         | right; split; [reflexivity|];
           first [left; reflexivity | right; eexists; split; reflexivity]]).
    + destruct (Qlt_le_dec (random amb) (1 # 100)); cbn; rewrite ?Hm; cbn;
        [intros [H _]%map_lookup_filter_Some | intros H];
        (apply Hins in H as [H | [-> ->]];
         [now left
         | right; split; [reflexivity|];
           first [left; reflexivity | right; eexists; split; reflexivity]]).
  - destruct (Qlt_le_dec (random amb) (1 # 100)); cbn; rewrite ?Hm; cbn;
      [intros [H _]%map_lookup_filter_Some | intros H];
      (apply Hins in H as [H | [-> ->]];
         [now left
         | right; split; [reflexivity|];
           first [left; reflexivity | right; eexists; split; reflexivity]]).
Qed.

Lemma kv_branch_store (amb : Ambient) (key : string) (wk : Z) (w : World) :
  rateLimitStore (checkRateLimit_kv amb key wk w).2 = rateLimitStore w.
Proof.
  unfold checkRateLimit_kv, KV.get, KV.put. run_M. cbn.
  destruct (RATE_LIMIT_KV w) as [kv|] eqn:Hkv; cbn; [|reflexivity].
  destruct (kv_get_fails amb); cbn; [reflexivity|].
  destruct (KV.lookup _ _ kv) as [[|c text]|]; cbn; rewrite ?Hkv;
    try destruct (JsNumber.geb _ _); cbn; rewrite ?Hkv;
    destruct (kv_put_fails amb); reflexivity.
Qed.

(** [checkRateLimit] keeps the invariant. *)
Lemma checkRateLimit_keeps_wf (request : Request) (amb : Ambient) (w : World) :
  store_wf (Store.current w) ->
  store_wf (Store.current (checkRateLimit request amb w).2).
Proof.
  intros Hwf.
  set (wk := windowKey (now amb)). set (key := rateLimitKey (clientIP request) wk).
  assert (Hstep : Store.current (checkRateLimit request amb w).2
                  = Store.current
                      (if RATE_LIMIT_KV w is Some _
                       then checkRateLimit_kv amb key wk w
                       else checkRateLimit_memory amb key wk w).2).
  { unfold checkRateLimit, checkRateLimit_try. run_M. fold wk key.
    destruct (RATE_LIMIT_KV w);
      [destruct (checkRateLimit_kv amb key wk w) as [[[r|]|e] w1]
      |destruct (checkRateLimit_memory amb key wk w) as [[[r|]|e] w1]];
      reflexivity. }
  rewrite Hstep. destruct (RATE_LIMIT_KV w).
  - unfold Store.current. now rewrite kv_branch_store.
  - intros ip wk' e' He'.
    apply memory_branch_entries in He' as [He' | [Hk [-> | (e & He & Hexp)]]].
    + exact (Hwf _ _ _ He').
    + apply rateLimitKey_window in Hk as ->. now apply fresh_entry_wf.
    + rewrite Hexp. rewrite <- Hk in He. exact (Hwf _ _ _ He).
Qed.

(** So does a whole request. *)
Lemma fetch_keeps_wf (request : Request) (amb : Ambient) (w : World) :
  store_wf (Store.current w) -> store_wf (Store.current (fetch request amb w).2).
Proof.
  intros Hwf.
  assert (Hd : forall w1, store_wf (Store.current w1) ->
                 store_wf (Store.current (dispatch request amb w1).2)).
  { intros w1 H1. destruct (dispatch_quiet request amb w1) as [(_ & Hs & _) _].
    unfold Store.current. now rewrite Hs. }
  unfold fetch. destruct (String.eqb _ _); [exact Hwf|].
  destruct (rate_limited_route request); [|now apply Hd].
  pose proof (checkRateLimit_keeps_wf request amb w Hwf) as Hwf1.
  destruct (checkRateLimit request amb w) as [r w1]. cbn in *.
  destruct (limited r); [exact Hwf1 | now apply Hd].
Qed.

(** * The scenarios of the specification *)

(** Writes of one client at 0, 200, 400 and 1050 ms on the in-memory
    backend: allowed, allowed, rejected, allowed; the counter of window 0
    stands at 2 and that of window 1 at 1. *)
Example four_writes :
  let w2 := after_two_writes fresh_world in
  let third := fetch (create_request "X" "C" "d") (at_time 400) w2 in
  let fourth := fetch (create_request "X" "D" "d") (at_time 1050) third.2 in
  counter 0 "rate_limit:X:0"
    (fetch (create_request "X" "A" "d") (at_time 0) fresh_world).2 = Some (Num 1) /\
  counter 200 "rate_limit:X:0" w2 = Some (Num 2) /\
  status third.1 = 429 /\
  status fourth.1 = 201 /\
  counter 1050 "rate_limit:X:1" fourth.2 = Some (Num 1).
Proof. vm_compute; repeat split; reflexivity. Qed.

(** Claim C1, the defect.  With a KV namespace bound, the same four writes
    are all answered 201 and the namespace stays empty: the [put] that is
    to create the counter asks for an [expirationTtl] of 2, the namespace
    refuses it, and the [catch] of [checkRateLimit] lets the request
    through.  No counter is created, none is incremented, and the third
    write is not rejected. *)
Lemma kv_counter_never_created :
  let first := fetch (create_request "X" "A" "d") (at_time 0) fresh_world_kv in
  let run := serve scenario_traffic fresh_world_kv in
  checkRateLimit_try (create_request "X" "A" "d") (at_time 0) fresh_world_kv
  = (Throw (KV.ttl_refused 2),
     emit (KvPut "rate_limit:X:0" "1" 2) (emit (KvGet "rate_limit:X:0") fresh_world_kv)) /\
  counter 0 "rate_limit:X:0" first.2 = None /\
  map (fun x : Request * Response => status x.2) run.1 = [201; 201; 201; 201] /\
  RATE_LIMIT_KV run.2 = Some ∅.
Proof. cbv zeta. repeat split; vm_compute; reflexivity. Qed.

(** Claim C2, the counterexample.  In the scenario of the specification
    the third write, at 400 ms, is answered 429 with [retryAfter] 1, a
    count of seconds, not a value near 600. *)
Lemma retryAfter_counts_seconds :
  let third := (fetch (create_request "X" "C" "d") (at_time 400)
                  (after_two_writes fresh_world)).1 in
  status third = 429 /\
  body_field "retryAfter" third = Some (Json.of_Z 1) /\
  ~ (exists r, 500 <= r <= 700 /\ body_field "retryAfter" third = Some (Json.of_Z r)).
Proof.
  cbv zeta.
  assert (H : body_field "retryAfter"
                (fetch (create_request "X" "C" "d") (at_time 400)
                   (after_two_writes fresh_world)).1 = Some (Json.of_Z 1))
    by (vm_compute; reflexivity).
  split; [vm_compute; reflexivity|]. split; [exact H|].
  intros (r & Hr & Hfield). rewrite H in Hfield. injection Hfield as Hfield. lia.
Qed.

Lemma fresh_store_wf : store_wf (Store.current fresh_world).
Proof.
  intros ip wk e H.
  change (Store.current fresh_world) with (∅ : gmap string RateEntry) in H.
  rewrite lookup_empty in H. discriminate H.
Qed.

(** Property X27 at a concrete input: the first write of a client. *)
Lemma memory_fixed_window_witness :
  RATE_LIMIT_KV fresh_world = None /\
  store_wf (Store.current fresh_world) /\
  limited (checkRateLimit (create_request "X" "A" "d") (at_time 0) fresh_world).1 = false /\
  counter 0 "rate_limit:X:0"
    (checkRateLimit (create_request "X" "A" "d") (at_time 0) fresh_world).2
  = Some (Num 1) /\
  counter_expiry "rate_limit:X:0"
    (checkRateLimit (create_request "X" "A" "d") (at_time 0) fresh_world).2
  = Some 2000.
Proof.
  split; [reflexivity|]. split; [exact fresh_store_wf|].
  destruct (memory_fixed_window (create_request "X" "A" "d") (at_time 0)
              fresh_world eq_refl fresh_store_wf) as (_ & Hfirst & _).
  destruct (Hfirst eq_refl) as (Hallow & Hcount & Hexp).
  split; [exact Hallow|]. split; [exact Hcount | exact Hexp].
Defined.

(** Claim C2 at a concrete input: the third write of the scenario. *)
Lemma rejected_write_429_witness :
  req_method (create_request "X" "C" "d") <> "OPTIONS" /\
  rate_limited_route (create_request "X" "C" "d") = true /\
  limited (checkRateLimit (create_request "X" "C" "d") (at_time 400)
             (after_two_writes fresh_world)).1 = true /\
  status (fetch (create_request "X" "C" "d") (at_time 400)
            (after_two_writes fresh_world)).1 = 429.
Proof.
  assert (Hopt : req_method (create_request "X" "C" "d") <> "OPTIONS") by discriminate.
  assert (Hlim : limited (checkRateLimit (create_request "X" "C" "d") (at_time 400)
                            (after_two_writes fresh_world)).1 = true)
    by (vm_compute; reflexivity).
  split; [exact Hopt|]. split; [reflexivity|]. split; [exact Hlim|].
  exact (proj1 (rejected_write_429 _ _ _ Hopt eq_refl Hlim)).
Defined.

(** Claim C3 at a concrete input: the KV service fails the lookup. *)
Lemma rate_limiter_fails_open_witness :
  req_method (create_request "X" "A" "d") <> "OPTIONS" /\
  rate_limited_route (create_request "X" "A" "d") = true /\
  checkRateLimit_try (create_request "X" "A" "d") (kv_outage_at 0) fresh_world_kv
  = (Throw KV.unavailable, emit (KvGet "rate_limit:X:0") fresh_world_kv) /\
  (checkRateLimit (create_request "X" "A" "d") (kv_outage_at 0) fresh_world_kv).1
  = not_limited /\
  status (fetch (create_request "X" "A" "d") (kv_outage_at 0) fresh_world_kv).1 <> 429.
Proof.
  assert (Hopt : req_method (create_request "X" "A" "d") <> "OPTIONS") by discriminate.
  assert (Hthrow :
    checkRateLimit_try (create_request "X" "A" "d") (kv_outage_at 0) fresh_world_kv
    = (Throw KV.unavailable, emit (KvGet "rate_limit:X:0") fresh_world_kv))
    by reflexivity.
  split; [exact Hopt|]. split; [reflexivity|]. split; [exact Hthrow|].
  destruct (rate_limiter_fails_open _ _ _ _ _ Hopt eq_refl Hthrow)
    as (Hallow & _ & _ & _ & _ & Hstatus & _).
  split; [exact Hallow | exact Hstatus].
Defined.

(** Claim C4 at a concrete input: a name that is white space only, a
    no-break space and an em space among it. *)
Lemma blank_name_rejected_witness :
  (req_method (create_request "X" (padded "") "d") = "POST" \/
   req_method (create_request "X" (padded "") "d") = "PUT") /\
  name_blank (body_name (create_request "X" (padded "") "d")) /\
  handleItemsAPI (create_request "X" (padded "") "d") (at_time 0) corsHeaders fresh_world
  = (name_required corsHeaders, fresh_world).
Proof.
  assert (Hm : req_method (create_request "X" (padded "") "d") = "POST" \/
               req_method (create_request "X" (padded "") "d") = "PUT") by (left; reflexivity).
  assert (Hblank : name_blank (body_name (create_request "X" (padded "") "d")))
    by (right; exists (padded ""); split; reflexivity).
  split; [exact Hm|]. split; [exact Hblank|].
  destruct (proj1 (blank_name_rejected _ (at_time 0) fresh_world Hm Hblank) corsHeaders)
    as [_ Hw].
  apply injective_projections; [reflexivity | exact Hw].
Defined.



(** Claim C6, the counterexample.  With [limit=-1] all fifteen rows come
    back, more than the limit, and [pages] is [-15], less than 1. *)
Lemma negative_limit_listing :
  let response := (fetch (list_request [("limit", "-1")]) (at_time 0)
                     (world_with fifteen_items)).1 in
  status response = 200 /\
  pagination_field "limit" response = Some (Json.of_Z (-1)) /\
  listed response = Some 15%nat /\
  pagination_field "pages" response = Some (Json.of_Z (-15)) /\
  ~ (Z.of_nat 15 <= -1) /\ ~ (1 <= -15).
Proof.
  cbv zeta. do 4 (split; [vm_compute; reflexivity|]). split; lia.
Qed.

(** Claim C6 at a concrete input: the second page of fifteen rows. *)
Lemma list_pagination_witness :
  req_method (list_request [("page", "2"); ("limit", "10")]) = "GET" /\
  path_id (req_pathname (list_request [("page", "2"); ("limit", "10")])) = None /\
  1 <= 10 <= JsNumber.MAX_SAFE_INTEGER /\
  - JsNumber.MAX_SAFE_INTEGER <= (2 - 1) * 10 <= JsNumber.MAX_SAFE_INTEGER /\
  listed (handleItemsAPI (list_request [("page", "2"); ("limit", "10")]) (at_time 0)
            corsHeaders (world_with fifteen_items)).1 = Some 5%nat /\
  pagination_field "pages"
    (handleItemsAPI (list_request [("page", "2"); ("limit", "10")]) (at_time 0)
       corsHeaders (world_with fifteen_items)).1 = Some (Json.of_Z 2).
Proof.
  assert (Hl : 1 <= 10 <= JsNumber.MAX_SAFE_INTEGER) by (vm_compute; split; discriminate).
  assert (Ho : - JsNumber.MAX_SAFE_INTEGER <= (2 - 1) * 10 <= JsNumber.MAX_SAFE_INTEGER)
    by (vm_compute; split; discriminate).
  split; [reflexivity|]. split; [reflexivity|]. split; [exact Hl|]. split; [exact Ho|].
  destruct (list_pagination (list_request [("page", "2"); ("limit", "10")]) (at_time 0)
              corsHeaders (world_with fifteen_items) 2 10
              eq_refl eq_refl eq_refl eq_refl Hl Ho) as [-> _].
  split; reflexivity.
Defined.


(** Claim C8 at a concrete input: a read by a client whose window is full. *)
Lemma get_bypasses_rate_limit_witness :
  (req_method (read_request "1") = "GET" \/
   JsString.startsWith (req_pathname (read_request "1")) "/api/items" = false) /\
  status (fetch (read_request "1") (at_time 400) (after_two_writes fresh_world)).1 <> 429.
Proof.
  assert (Hm : req_method (read_request "1") = "GET" \/
               JsString.startsWith (req_pathname (read_request "1")) "/api/items" = false)
    by (left; reflexivity).
  split; [exact Hm|].
  exact (proj1 (get_bypasses_rate_limit (read_request "1") (at_time 400)
                  (after_two_writes fresh_world) Hm)).
Defined.

(** Claim C9, the counterexample.  The name [" A "] is read back as
    ["A"]. *)
Lemma round_trip_trims :
  let created := fetch (create_request "X" " A " "d") (at_time 0) fresh_world in
  let read := (fetch (read_request "1") (at_time 0) created.2).1 in
  status created.1 = 201 /\
  item_field "id" created.1 = Some (Json.of_Z 1) /\
  status read = 200 /\
  body_field "name" read = Some (JString "A") /\
  body_field "name" read <> Some (JString " A ").
Proof.
  cbv zeta. do 4 (split; [vm_compute; reflexivity|]). vm_compute. discriminate.
Qed.

(** Claim C9 at a concrete input: a name and a description with white
    space around them. *)
Lemma create_then_read_witness :
  status (fetch (create_request "X" (padded "A") (padded "d")) (at_time 0) fresh_world).1
  = 201 /\
  exists it,
    name it = "A" /\ description it = Some "d" /\ created_at it <> None /\
    (fetch (read_request (JsNumber.Z_toString (id it))) (at_time 0)
       (fetch (create_request "X" (padded "A") (padded "d")) (at_time 0) fresh_world).2).1
    = item_found it corsHeaders.
Proof.
  assert (Hs : status (fetch (create_request "X" (padded "A") (padded "d")) (at_time 0)
                         fresh_world).1 = 201)
    by reflexivity.
  split; [exact Hs|].
  destruct (create_then_read _ _ _ Hs)
    as (nm & it & [Hnm _] & _ & Hname & _ & Hd & _ & Hat & Hread).
  injection Hnm as <-.
  exists it. split; [exact Hname|]. split.
  - destruct Hd as [[Hf _] | (s & Hs' & _ & Hst)]; [discriminate Hf|].
    injection Hs' as <-. exact Hst.
  - split; [rewrite Hat; discriminate|].
    apply Hread; try reflexivity. apply decimal_text_toString.
Defined.

(** Claim C10 at a concrete input: a description with white space around
    it, a no-break space and an em space among it, is stored without. *)
Lemma description_normalised_witness :
  name_given (body_name (create_request "X" "A" (padded "d e"))) "A" /\
  stores (body_description (create_request "X" "A" (padded "d e"))) (Some "d e") /\
  trimmed_of (padded "d e") "d e" /\
  (handleItemsAPI (create_request "X" "A" (padded "d e")) (at_time 0) corsHeaders
     fresh_world).1
  = item_created (Some (mkItem 1 "A" (Some "d e") (Some "2024-01-01 00:00:00")))
      corsHeaders.
Proof.
  assert (Hnm : name_given (body_name (create_request "X" "A" (padded "d e"))) "A")
    by (split; [reflexivity | discriminate]).
  assert (Hd : stores (body_description (create_request "X" "A" (padded "d e")))
                 (Some "d e"))
    by (right; exists (padded "d e"); split; [reflexivity | split; [discriminate | reflexivity]]).
  split; [exact Hnm|]. split; [exact Hd|].
  destruct (description_normalised _ (at_time 0) corsHeaders fresh_world "A" (Some "d e")
              Hnm Hd) as (_ & Htrim & Hpost & _).
  split.
  - destruct (Htrim (padded "d e") eq_refl ltac:(discriminate)) as (t & [= <-] & Ht).
    exact Ht.
  - exact (proj1 (Hpost eq_refl)).
Defined.

(** The same for an empty description, which is stored as NULL. *)
Example empty_description_null :
  (handleItemsAPI (create_request "X" "A" "") (at_time 0) corsHeaders fresh_world).1
  = item_created (Some (mkItem 1 "A" None (Some "2024-01-01 00:00:00"))) corsHeaders.
Proof. reflexivity. Qed.

(** * Further properties of the rate limiter *)

(** ** Counter keys *)

Lemma append_cancel_r (a b c : string) : a +:+ c = b +:+ c -> a = b.
Proof.
  revert b. induction a as [|x a IH]; intros [|y b] H.
  - reflexivity.
  - apply (f_equal String.length) in H. rewrite !append_length in H. cbn in H. lia.
  - apply (f_equal String.length) in H. rewrite !append_length in H. cbn in H. lia.
  - rewrite !append_cons in H. injection H as -> H. f_equal. now apply IH.
Qed.

(** A counter key determines its client and its window. *)
Lemma rateLimitKey_inj (ip ip' : string) (wk wk' : Z) :
  rateLimitKey ip wk = rateLimitKey ip' wk' -> ip = ip' /\ wk = wk'.
Proof.
  intros H. pose proof (rateLimitKey_window _ _ _ _ H) as <-.
  split; [|reflexivity].
  unfold rateLimitKey in H.
  apply (String.app_inj "rate_limit:") in H.
  now apply append_cancel_r in H.
Qed.

(** ** What a check leaves alone *)

(** The KV branch writes no key but its own. *)
Lemma kv_branch_frame (amb : Ambient) (key : string) (wk : Z) (w : World)
    (kv : gmap string KVEntry) (k : string) :
  RATE_LIMIT_KV w = Some kv -> k <> key ->
  exists kv', RATE_LIMIT_KV (checkRateLimit_kv amb key wk w).2 = Some kv' /\
              kv' !! k = kv !! k.
Proof.
  intros Hkv Hk. assert (Hk' : key <> k) by congruence.
  unfold checkRateLimit_kv, KV.get, KV.put. run_M. cbn. rewrite Hkv.
  destruct (kv_get_fails amb); cbn; rewrite ?Hkv; [eauto|].
  destruct (KV.lookup _ _ kv) as [[|c text]|]; cbn; rewrite ?Hkv;
    try destruct (JsNumber.geb _ _); cbn; rewrite ?Hkv;
    try (destruct (kv_put_fails amb); cbn; rewrite ?Hkv);
    first [ now eauto | eexists; split; [reflexivity | now apply lookup_insert_ne] ].
Qed.

(** The in-memory branch touches no other entry, except that its sweep
    deletes the entries that have expired. *)
Lemma memory_branch_frame (amb : Ambient) (key : string) (wk : Z) (w : World)
    (k : string) :
  k <> key ->
  let m' := Store.current (checkRateLimit_memory amb key wk w).2 in
  m' !! k = Store.current w !! k \/
  (m' !! k = None /\ exists e, Store.current w !! k = Some e /\ expires e < now amb).
Proof.
  intros Hk.
  assert (Hsweep : forall (m : gmap string RateEntry) (e0 : RateEntry),
            let m' := filter (fun kv : string * RateEntry => ~ expires kv.2 < now amb)
                        (<[key := e0]> m) in
            m' !! k = m !! k \/
            (m' !! k = None /\ exists e, m !! k = Some e /\ expires e < now amb)).
  { intros m e0 m'. subst m'.
    destruct (m !! k) as [e|] eqn:He.
    - destruct (decide (expires e < now amb)) as [Hexp | Hlive].
      + right. split; [|eauto].
        apply map_lookup_filter_None. right. intros e'.
        rewrite lookup_insert_ne by congruence. rewrite He. intros [= <-]. cbn. tauto.
      + left. apply map_lookup_filter_Some. split; [|exact Hlive].
        rewrite lookup_insert_ne by congruence. exact He.
    - left. apply map_lookup_filter_None. left.
      rewrite lookup_insert_ne by congruence. exact He. }
  unfold checkRateLimit_memory. run_M.
  unfold Store.ensure, Store.get, Store.set, Store.increment, Store.sweep, Store.current in *.
  cbn.
  destruct (rateLimitStore w) as [m|] eqn:Hm; cbn in *; rewrite ?Hm; cbn.
  - destruct (m !! key) as [e|] eqn:He; cbn.
    + destruct (MAX_REQUESTS_PER_WINDOW <=? count e); cbn; [rewrite Hm; now left|].
      destruct (Qlt_le_dec (random amb) (1 # 100)); cbn; rewrite ?Hm; cbn.
      * apply Hsweep.
      * left. apply lookup_insert_ne. congruence.
    + destruct (Qlt_le_dec (random amb) (1 # 100)); cbn; rewrite ?Hm; cbn.
      * apply Hsweep.
      * left. apply lookup_insert_ne. congruence.
  - destruct (Qlt_le_dec (random amb) (1 # 100)); cbn; rewrite ?Hm; cbn.
    + apply (Hsweep ∅).
    + left. apply lookup_insert_ne. congruence.
Qed.

(** The stores after [checkRateLimit] are those its branch leaves. *)
Lemma checkRateLimit_stores (request : Request) (amb : Ambient) (w : World) :
  let wk := windowKey (now amb) in
  let key := rateLimitKey (clientIP request) wk in
  let w1 := (if RATE_LIMIT_KV w is Some _
             then checkRateLimit_kv amb key wk w
             else checkRateLimit_memory amb key wk w).2 in
  RATE_LIMIT_KV (checkRateLimit request amb w).2 = RATE_LIMIT_KV w1 /\
  rateLimitStore (checkRateLimit request amb w).2 = rateLimitStore w1.
Proof.
  intros wk key w1. subst w1.
  unfold checkRateLimit, checkRateLimit_try. run_M. fold wk key.
  destruct (RATE_LIMIT_KV w);
    [destruct (checkRateLimit_kv amb key wk w) as [[[r|]|e] w1]
    |destruct (checkRateLimit_memory amb key wk w) as [[[r|]|e] w1]];
    split; reflexivity.
Qed.

(** The stores after [fetch]: those before, or those [checkRateLimit]
    leaves. *)
Lemma fetch_stores (request : Request) (amb : Ambient) (w : World) :
  let w' := (fetch request amb w).2 in
  (RATE_LIMIT_KV w' = RATE_LIMIT_KV w /\ rateLimitStore w' = rateLimitStore w) \/
  (is_write_of (clientIP request) request = true /\
   RATE_LIMIT_KV w' = RATE_LIMIT_KV (checkRateLimit request amb w).2 /\
   rateLimitStore w' = rateLimitStore (checkRateLimit request amb w).2).
Proof.
  cbv zeta. unfold fetch, is_write_of.
  destruct (String.eqb (req_method request) "OPTIONS"); [now left|].
  destruct (rate_limited_route request).
  - right. rewrite String.eqb_refl. split; [reflexivity|].
    destruct (checkRateLimit request amb w) as [r w1]. cbn.
    destruct (limited r); [now split|].
    destruct (dispatch_quiet request amb w1) as [(Hk & Hs & _) _]. now split.
  - left. destruct (dispatch_quiet request amb w) as [(Hk & Hs & _) _]. now split.
Qed.

(** The counters of other clients and other windows after a request. *)
Lemma fetch_frame (request : Request) (amb : Ambient) (w : World) (key : string) :
  key <> rateLimitKey (clientIP request) (windowKey (now amb)) ->
  let w' := (fetch request amb w).2 in
  (forall kv, RATE_LIMIT_KV w = Some kv ->
     rateLimitStore w' = rateLimitStore w /\
     exists kv', RATE_LIMIT_KV w' = Some kv' /\ kv' !! key = kv !! key) /\
  (RATE_LIMIT_KV w = None ->
     RATE_LIMIT_KV w' = None /\
     (Store.current w' !! key = Store.current w !! key \/
      (Store.current w' !! key = None /\
       exists e, Store.current w !! key = Some e /\ expires e < now amb))).
Proof.
  intros Hkey w'. subst w'.
  pose proof (checkRateLimit_stores request amb w) as Hstores. cbv zeta in Hstores.
  destruct (fetch_stores request amb w) as [[Hk Hs] | (_ & Hk & Hs)].
  - split.
    + intros kv Hkv. split; [exact Hs|]. exists kv. now rewrite Hk.
    + intros Hkv. split; [congruence|]. left. unfold Store.current. now rewrite Hs.
  - destruct Hstores as [Hk1 Hs1]. rewrite Hk1 in Hk. rewrite Hs1 in Hs. clear Hk1 Hs1.
    split.
    + intros kv Hkv. rewrite Hkv in Hk, Hs.
      rewrite kv_branch_store in Hs. split; [exact Hs|].
      rewrite Hk. now apply kv_branch_frame.
    + intros Hkv. rewrite Hkv in Hk, Hs.
      destruct (memory_branch amb (rateLimitKey (clientIP request) (windowKey (now amb)))
                  (windowKey (now amb)) w) as (early & w1 & Hrun & Hkv1 & _).
      split; [rewrite Hk, Hrun; cbn; congruence|].
      pose proof (memory_branch_frame amb _ (windowKey (now amb)) w key Hkey) as Hframe.
      cbv zeta in Hframe. unfold Store.current in *. now rewrite Hs.
Qed.

(** Property X1.  A request changes no counter but the one of its own client
    and window: under every other key the KV namespace holds what it held,
    and so does the process-local map, except that the sweep of the
    in-memory limiter may delete an entry whose expiry has passed. *)
Theorem limiter_isolates_clients (request : Request) (amb : Ambient) (w : World)
    (ip : string) (wk : Z) :
  (ip, wk) <> (clientIP request, windowKey (now amb)) ->
  let key := rateLimitKey ip wk in
  let w' := (fetch request amb w).2 in
  (forall kv, RATE_LIMIT_KV w = Some kv ->
     rateLimitStore w' = rateLimitStore w /\
     exists kv', RATE_LIMIT_KV w' = Some kv' /\ kv' !! key = kv !! key) /\
  (RATE_LIMIT_KV w = None ->
     RATE_LIMIT_KV w' = None /\
     (Store.current w' !! key = Store.current w !! key \/
      (Store.current w' !! key = None /\
       exists e, Store.current w !! key = Some e /\ expires e < now amb))).
Proof.
  intros Hne key w'. apply fetch_frame.
  intros Hk. apply rateLimitKey_inj in Hk as [-> ->]. now apply Hne.
Qed.

(** ** Counting the writes of a window *)

Lemma window_bounds (t wk : Z) :
  windowKey t = wk -> wk * RATE_LIMIT_WINDOW <= t < (wk + 1) * RATE_LIMIT_WINDOW.
Proof.
  unfold windowKey, RATE_LIMIT_WINDOW. intros <-.
  pose proof (Z.mul_div_le t 1000 ltac:(lia)).
  pose proof (Z.mod_pos_bound t 1000 ltac:(lia)).
  pose proof (Z.div_mod t 1000 ltac:(lia)). lia.
Qed.

(** Without a KV namespace none appears. *)
Lemma fetch_keeps_memory (request : Request) (amb : Ambient) (w : World) :
  RATE_LIMIT_KV w = None -> RATE_LIMIT_KV (fetch request amb w).2 = None.
Proof.
  intros Hkv.
  destruct (fetch_stores request amb w) as [[Hk _] | (_ & Hk & _)]; [congruence|].
  rewrite Hk. destruct (checkRateLimit_stores request amb w) as [-> _]. rewrite Hkv.
  destruct (memory_branch amb (rateLimitKey (clientIP request) (windowKey (now amb)))
              (windowKey (now amb)) w) as (early & w1 & -> & Hkv1 & _).
  cbn. congruence.
Qed.

(** A check of the counter's own client on the in-memory backend: it
    rejects when the counter has reached the maximum, and counts
    otherwise. *)
Lemma counter_at_own (request : Request) (amb : Ambient) (w : World) (wk c : Z) :
  RATE_LIMIT_KV w = None ->
  counter_at (clientIP request) wk c w -> store_wf (Store.current w) ->
  windowKey (now amb) = wk ->
  limited (checkRateLimit request amb w).1 = (MAX_REQUESTS_PER_WINDOW <=? c) /\
  counter_at (clientIP request) wk
    (if c <? MAX_REQUESTS_PER_WINDOW then c + 1 else c) (checkRateLimit request amb w).2.
Proof.
  intros Hkv Hc Hwf Hwk.
  pose proof (window_bounds _ _ Hwk) as Hwin.
  pose proof (checkRateLimit_unfold request amb w) as Hrun. cbv zeta in Hrun.
  rewrite Hwk, Hkv in Hrun. unfold counter_at in *.
  set (key := rateLimitKey (clientIP request) wk) in *.
  destruct (memory_branch amb key wk w) as (early & w' & Hrun' & Hkv' & _ & Hcase).
  specialize (Hcase (eq_sym Hwk) (fun e He => Hwf _ _ _ He)).
  rewrite (Hrun _ _ Hrun'). cbn [fst snd].
  destruct (Store.current w !! key) as [e|] eqn:He.
  + destruct Hc as (Hc1 & Hcount). rewrite Hcount in Hcase.
    unfold MAX_REQUESTS_PER_WINDOW in *.
    destruct (Z.ltb_spec c 2), (Z.leb_spec 2 c); try lia; destruct Hcase as [-> Hst]; cbn.
    * split; [reflexivity|]. rewrite Hst. cbn. split; lia.
    * split; [reflexivity|]. unfold Store.current in *. rewrite Hst, He. auto.
  + subst c. destruct Hcase as [-> ->]. cbn. split; [reflexivity|]. split; lia.
Qed.

(** A request of another client, or one that bypasses the limiter, leaves
    the counter as it stands. *)
Lemma counter_at_other (request : Request) (amb : Ambient) (w : World)
    (ip : string) (wk c : Z) :
  RATE_LIMIT_KV w = None ->
  counter_at ip wk c w -> store_wf (Store.current w) ->
  windowKey (now amb) = wk -> is_write_of ip request = false ->
  counter_at ip wk c (fetch request amb w).2.
Proof.
  intros Hw Hc Hwf Hwk Hother.
  pose proof (window_bounds _ _ Hwk) as Hwin.
  unfold counter_at in *.
  destruct (decide (rateLimitKey ip wk
                    = rateLimitKey (clientIP request) (windowKey (now amb)))) as [Heq | Hne].
  - apply rateLimitKey_inj in Heq as [-> _].
    destruct (fetch_stores request amb w) as [[Hk Hs] | (Hw' & _)].
    + unfold Store.current. now rewrite Hs.
    + congruence.
  - destruct (fetch_frame request amb w _ Hne) as [_ Hmem].
    destruct (Hmem Hw) as [_ [-> | (_ & e & He & Hexp)]]; [exact Hc|].
    pose proof (Hwf _ _ _ He). unfold RATE_LIMIT_WINDOW in *. lia.
Qed.

(** What [fetch] does with a write: 429 exactly when the limiter rejects. *)
Lemma fetch_write_status (request : Request) (amb : Ambient) (w : World) (ip : string) :
  is_write_of ip request = true ->
  clientIP request = ip /\
  (status (fetch request amb w).1 = 429 <-> limited (checkRateLimit request amb w).1 = true) /\
  RATE_LIMIT_KV (fetch request amb w).2 = RATE_LIMIT_KV (checkRateLimit request amb w).2 /\
  rateLimitStore (fetch request amb w).2 = rateLimitStore (checkRateLimit request amb w).2.
Proof.
  unfold is_write_of. intros [[Hopt Hroute]%andb_prop Hip%String.eqb_eq]%andb_prop.
  apply negb_true_iff, String.eqb_neq in Hopt.
  split; [exact Hip|].
  rewrite (fetch_gate _ _ _ Hopt Hroute).
  destruct (limited (checkRateLimit request amb w).1) eqn:Hlim; cbn.
  - repeat split; trivial.
  - destruct (dispatch_quiet request amb (checkRateLimit request amb w).2)
      as [(Hk & Hs & _) Hplain].
    split; [|now split].
    split; [|discriminate]. intros H. now apply plain_status_not_429 in Hplain.
Qed.

Lemma counter_at_stores (ip : string) (wk c : Z) (w w' : World) :
  rateLimitStore w' = rateLimitStore w ->
  counter_at ip wk c w -> counter_at ip wk c w'.
Proof. unfold counter_at, Store.current. now intros ->. Qed.

Lemma store_wf_stores (w w' : World) :
  rateLimitStore w' = rateLimitStore w ->
  store_wf (Store.current w) -> store_wf (Store.current w').
Proof. unfold Store.current. now intros ->. Qed.

(** The writes of one client among the requests of one window on the
    in-memory backend: with the counter at [c], write number [k] is
    rejected exactly when [c + k] has reached the maximum. *)
Lemma serve_window (reqs : list (Request * Ambient)) (ip : string) (wk : Z) :
  Forall (fun ra : Request * Ambient => windowKey (now ra.2) = wk) reqs ->
  forall (w : World) (c : Z),
    RATE_LIMIT_KV w = None ->
    0 <= c -> counter_at ip wk c w -> store_wf (Store.current w) ->
    forall (k : nat) (x : Request * Response),
      nth_error (List.filter (fun x : Request * Response => is_write_of ip x.1)
                   (serve reqs w).1) k = Some x ->
      status x.2 = 429 <-> MAX_REQUESTS_PER_WINDOW <= c + Z.of_nat k.
Proof.
  induction 1 as [|[request amb] reqs Hwk Hreqs IH]; intros w c Hkv Hc0 Hc Hwf k x.
  - cbn. now destruct k.
  - cbn [serve fst snd List.filter]. cbn [snd] in Hwk.
    pose proof (fetch_keeps_wf request amb w Hwf) as Hwf'.
    pose proof (fetch_keeps_memory request amb w Hkv) as Hkv'.
    destruct (is_write_of ip request) eqn:Hwrite.
    + destruct (fetch_write_status request amb w ip Hwrite) as (Hip & Hstatus & Hk & Hs).
      subst ip.
      destruct (counter_at_own request amb w wk c Hkv Hc Hwf Hwk) as [Hlim Hc'].
      apply (counter_at_stores _ _ _ _ _ Hs) in Hc'.
      destruct k as [|k]; cbn [nth_error].
      * intros [= <-]. cbn [snd]. rewrite Hstatus, Hlim, Z.leb_le. lia.
      * intros Hx.
        assert (Hc0' : 0 <= (if c <? MAX_REQUESTS_PER_WINDOW then c + 1 else c))
          by (destruct (c <? _); lia).
        apply (IH _ _ Hkv' Hc0' Hc' Hwf') in Hx.
        rewrite Hx. unfold MAX_REQUESTS_PER_WINDOW.
        destruct (Z.ltb_spec c 2); lia.
    + apply IH; trivial. now apply counter_at_other.
Qed.

(** Property X2.  Without a KV namespace, however the requests of one
    window are interleaved (reads, writes, other clients), a client that
    has no counter for the window yet gets its first two writes past the
    limiter and every further write of the window answered 429. *)
Theorem two_writes_per_window (reqs : list (Request * Ambient)) (w : World)
    (ip : string) (wk : Z) (k : nat) (x : Request * Response) :
  RATE_LIMIT_KV w = None ->
  store_wf (Store.current w) ->
  counter_expiry (rateLimitKey ip wk) w = None ->
  Forall (fun ra : Request * Ambient => windowKey (now ra.2) = wk) reqs ->
  nth_error (List.filter (fun x : Request * Response => is_write_of ip x.1)
               (serve reqs w).1) k = Some x ->
  status x.2 = 429 <-> MAX_REQUESTS_PER_WINDOW <= Z.of_nat k.
Proof.
  intros Hkv Hwf Hnone Hreqs Hx.
  apply (serve_window reqs ip wk Hreqs w 0 Hkv ltac:(lia)) in Hx; trivial.
  unfold counter_at, counter_expiry in *. rewrite Hkv in Hnone.
  now destruct (Store.current w !! rateLimitKey ip wk).
Qed.

(** ** Rejections *)

(** A check that rejects has written to neither counter store. *)
Lemma limited_keeps_stores (request : Request) (amb : Ambient) (w : World) :
  limited (checkRateLimit request amb w).1 = true ->
  RATE_LIMIT_KV (checkRateLimit request amb w).2 = RATE_LIMIT_KV w /\
  rateLimitStore (checkRateLimit request amb w).2 = rateLimitStore w.
Proof.
  unfold checkRateLimit, checkRateLimit_try. run_M.
  set (wk := windowKey (now amb)). set (key := rateLimitKey (clientIP request) wk).
  destruct (RATE_LIMIT_KV w) as [kv|] eqn:Hkv.
  - pose proof (kv_branch amb key wk w kv Hkv) as (Hkv' & Hstore & _).
    destruct (checkRateLimit_kv amb key wk w) as [[[r|]|e] w1]; cbn in *;
      try discriminate. intros _. rewrite Hkv'. now split.
  - unfold checkRateLimit_memory. run_M.
    unfold Store.ensure, Store.get, Store.set, Store.increment, Store.sweep, Store.current.
    cbn.
    destruct (rateLimitStore w) as [m|] eqn:Hm; cbn in *; rewrite ?Hm; cbn.
    + destruct (m !! key) as [e|] eqn:He; cbn.
      * destruct (MAX_REQUESTS_PER_WINDOW <=? count e); cbn.
        -- intros _. rewrite ?Hm, ?Hkv. now split.
        -- destruct (Qlt_le_dec (random amb) (1 # 100)); cbn; discriminate.
      * destruct (Qlt_le_dec (random amb) (1 # 100)); cbn; discriminate.
    + rewrite lookup_empty. cbn.
      destruct (Qlt_le_dec (random amb) (1 # 100)); cbn; discriminate.
Qed.

(** Only the limiter answers 429. *)
Lemma status_429_limited (request : Request) (amb : Ambient) (w : World) :
  status (fetch request amb w).1 = 429 ->
  req_method request <> "OPTIONS" /\ rate_limited_route request = true /\
  limited (checkRateLimit request amb w).1 = true.
Proof.
  unfold fetch.
  destruct (String.eqb_spec (req_method request) "OPTIONS"); [discriminate|].
  destruct (rate_limited_route request).
  - destruct (checkRateLimit request amb w) as [r w1]. cbn.
    destruct (limited r); [auto|].
    intros H. destruct (dispatch_quiet request amb w1) as [_ Hp].
    now apply plain_status_not_429 in Hp.
  - intros H. destruct (dispatch_quiet request amb w) as [_ Hp].
    now apply plain_status_not_429 in Hp.
Qed.

Lemma ceil_div_le (a b : Z) : JsNumber.ceil_div a 1000 <= b <-> a <= b * 1000.
Proof.
  unfold JsNumber.ceil_div.
  pose proof (Z.div_mod (- a) 1000 ltac:(lia)).
  pose proof (Z.mod_pos_bound (- a) 1000 ltac:(lia)). lia.
Qed.

(** Property X3.  A 429 answer comes from the limiter only, and the request
    it answers has changed nothing: the KV namespace, the process-local
    map and the table are as before.  Its [retryAfter] is an integer that
    never exceeds 1 when the clock does not run backwards, and it is 0 or
    negative when the reply is written after the window has ended. *)
Theorem rejection_has_no_effect (request : Request) (amb : Ambient) (w : World) :
  status (fetch request amb w).1 = 429 ->
  let w' := (fetch request amb w).2 in
  let reset := (windowKey (now amb) + 1) * RATE_LIMIT_WINDOW in
  is_write_of (clientIP request) request = true /\
  RATE_LIMIT_KV w' = RATE_LIMIT_KV w /\ rateLimitStore w' = rateLimitStore w /\
  DB w' = DB w /\
  exists n,
    body_field "retryAfter" (fetch request amb w).1 = Some (Json.of_Z n) /\
    (now amb <= now_reply amb -> n <= 1) /\
    (reset <= now_reply amb -> n <= 0) /\
    (now_reply amb < reset -> 1 <= n).
Proof.
  intros Hs w' reset. subst w'.
  destruct (status_429_limited _ _ _ Hs) as (Hopt & Hroute & Hlim).
  destruct (limited_keeps_stores _ _ _ Hlim) as [Hk Hst].
  destruct (checkRateLimit_offline request amb w) as [[Hdb _] _].
  pose proof (window_bounds (now amb) _ eq_refl) as Hwin.
  rewrite (fetch_gate _ _ _ Hopt Hroute), Hlim.
  rewrite (checkRateLimit_resetTime _ _ _ Hlim). cbn [fst snd].
  split.
  { unfold is_write_of. rewrite Hroute, String.eqb_refl.
    now destruct (String.eqb_spec (req_method request) "OPTIONS"). }
  do 3 (split; [assumption|]).
  exists (JsNumber.ceil_div (reset - now_reply amb) 1000).
  split; [reflexivity|]. fold reset in Hwin. unfold RATE_LIMIT_WINDOW in *.
  split; [|split]; intros H.
  - apply ceil_div_le. lia.
  - apply ceil_div_le. lia.
  - destruct (Z_le_gt_dec (JsNumber.ceil_div (reset - now_reply amb) 1000) 0) as [Hle|]; [|lia].
    apply ceil_div_le in Hle. lia.
Qed.

(** ** The limiter over a KV namespace *)

(** What [checkRateLimit] does when a namespace is bound: it writes
    nothing, and it rejects exactly when [get] answers with a text that
    reads as a number at or above the maximum. *)
Lemma checkRateLimit_kv_bound (request : Request) (amb : Ambient) (w : World)
    (kv : gmap string KVEntry) :
  RATE_LIMIT_KV w = Some kv ->
  let key := rateLimitKey (clientIP request) (windowKey (now amb)) in
  RATE_LIMIT_KV (checkRateLimit request amb w).2 = Some kv /\
  rateLimitStore (checkRateLimit request amb w).2 = rateLimitStore w /\
  limited (checkRateLimit request amb w).1
  = negb (kv_get_fails amb) && kv_blocks (now amb) key kv.
Proof.
  intros Hkv key.
  pose proof (kv_branch amb key (windowKey (now amb)) w kv Hkv) as (Hkv' & Hstore & _ & Hcase).
  unfold checkRateLimit, checkRateLimit_try. run_M. fold key. rewrite Hkv.
  destruct (checkRateLimit_kv amb key (windowKey (now amb)) w) as [[[r|]|e] w1];
    cbn [fst snd] in *;
    destruct (negb (kv_get_fails amb) && kv_blocks (now amb) key kv).
  - injection Hcase as ->. cbn. auto.
  - destruct Hcase as [e' He']. discriminate.
  - discriminate.
  - destruct Hcase as [e' He']. discriminate.
  - discriminate.
  - cbn. auto.
Qed.

(** Property X28.  Over a KV namespace the limiter never counts.  Whatever
    requests are served, the namespace is left as it was, and so is the
    process-local map; a write is answered 429 only when the namespace
    already holds, under the key of the client and the window, a live text
    that reads as a number of 2 or more.  A client for whose window the
    namespace holds nothing is never rejected. *)
Theorem kv_namespace_never_written (reqs : list (Request * Ambient)) (w : World)
    (kv : gmap string KVEntry) :
  RATE_LIMIT_KV w = Some kv ->
  RATE_LIMIT_KV (serve reqs w).2 = Some kv /\
  rateLimitStore (serve reqs w).2 = rateLimitStore w /\
  forall ra response,
    In (ra, response) (combine reqs (map snd (serve reqs w).1)) ->
    status response = 429 ->
    kv_get_fails ra.2 = false /\
    kv_blocks (now ra.2) (rateLimitKey (clientIP ra.1) (windowKey (now ra.2))) kv = true.
Proof.
  revert w. induction reqs as [|[request amb] reqs IH]; intros w Hkv.
  - cbn. split; [exact Hkv|]. split; [reflexivity|]. intros ra response [].
  - cbn [serve fst snd map combine].
    assert (Hstep : RATE_LIMIT_KV (fetch request amb w).2 = Some kv /\
                    rateLimitStore (fetch request amb w).2 = rateLimitStore w).
    { destruct (fetch_stores request amb w) as [[Hk Hs] | (_ & Hk & Hs)].
      - split; congruence.
      - destruct (checkRateLimit_kv_bound request amb w kv Hkv) as (Hk' & Hs' & _).
        split; congruence. }
    destruct Hstep as [Hkv1 Hs1].
    destruct (IH _ Hkv1) as (Hkv2 & Hs2 & Hrej).
    split; [exact Hkv2|]. split; [congruence|].
    intros ra response [[= <- <-] | Hin] H429; [|now apply (Hrej ra response)].
    cbn [fst snd].
    destruct (status_429_limited _ _ _ H429) as (_ & _ & Hlim).
    destruct (checkRateLimit_kv_bound request amb w kv Hkv) as (_ & _ & Hwhen).
    rewrite Hwhen in Hlim. apply andb_prop in Hlim as [Hget Hblock].
    split; [now destruct (kv_get_fails amb) | exact Hblock].
Qed.

(** ** A counter that cannot be read *)

(** Property X4.  When the KV entry of the client holds a text in which
    [parseInt] finds no number, the comparison with the maximum is false
    and the request is admitted.  The limiter then asks the namespace to
    overwrite the entry with the text [NaN]; the namespace refuses, and
    the entry keeps its text, which reads as no number again. *)
Theorem unreadable_counter_admits (request : Request) (amb : Ambient) (w : World)
    (kv : gmap string KVEntry) (text : string) :
  RATE_LIMIT_KV w = Some kv -> kv_get_fails amb = false ->
  let key := rateLimitKey (clientIP request) (windowKey (now amb)) in
  let w' := (checkRateLimit request amb w).2 in
  KV.lookup (now amb) key kv = Some text -> text <> "" ->
  JsNumber.parseInt text = NaN ->
  (checkRateLimit request amb w).1 = not_limited /\
  (exists e, checkRateLimit_try request amb w
             = (Throw e, emit (KvPut key "NaN" 2) (emit (KvGet key) w))) /\
  RATE_LIMIT_KV w' = Some kv /\
  counter (now amb) key w' = Some NaN.
Proof.
  intros Hkv Hget key w' Hlook Hne Hnan. subst w'.
  assert (Hrun : exists e, checkRateLimit_try request amb w
                           = (Throw e, emit (KvPut key "NaN" 2) (emit (KvGet key) w))).
  { unfold checkRateLimit_try, checkRateLimit_kv, KV.get, KV.put. run_M. fold key.
    rewrite Hkv. cbn. rewrite Hkv, Hget, Hlook.
    destruct text as [|a text]; [congruence|]. rewrite Hnan. cbn. rewrite Hkv.
    destruct (kv_put_fails amb); cbn; eauto. }
  destruct Hrun as [e Hrun]. unfold checkRateLimit. rewrite Hrun. cbn [fst snd].
  split; [reflexivity|]. split; [eauto|]. split; [exact Hkv|].
  unfold counter. cbn. rewrite Hkv. cbn. rewrite Hlook. cbn. now rewrite Hnan.
Qed.

(** ** Counting the writes of every window *)

Lemma windowKey_mono (t t' : Z) : t <= t' -> windowKey t <= windowKey t'.
Proof. unfold windowKey, RATE_LIMIT_WINDOW. intros H. apply Z.div_le_mono; lia. Qed.

Lemma window_writes_cons (ip : string) (wk : Z) (request : Request) (amb : Ambient)
    (reqs : list (Request * Ambient)) (w : World) :
  window_writes ip wk ((request, amb) :: reqs) w
  = if is_write_of ip request && (windowKey (now amb) =? wk)
    then (fetch request amb w).1 :: window_writes ip wk reqs (fetch request amb w).2
    else window_writes ip wk reqs (fetch request amb w).2.
Proof.
  unfold window_writes. cbn [serve fst snd map combine List.filter].
  now destruct (is_write_of ip request && (windowKey (now amb) =? wk)).
Qed.

(** Once the clock has left a window, no request counts for it. *)
Lemma window_writes_late (ip : string) (wk : Z) (reqs : list (Request * Ambient)) :
  Forall (fun ra : Request * Ambient => wk < windowKey (now ra.2)) reqs ->
  forall w, window_writes ip wk reqs w = [].
Proof.
  induction 1 as [|[request amb] reqs Hlate _ IH]; intros w; [reflexivity|].
  rewrite window_writes_cons. cbn in Hlate.
  destruct (Z.eqb_spec (windowKey (now amb)) wk); [lia|].
  rewrite andb_false_r. apply IH.
Qed.

(** A request of another window leaves an absent counter absent. *)
Lemma counter_absent_frame (request : Request) (amb : Ambient) (w : World)
    (ip : string) (wk : Z) :
  RATE_LIMIT_KV w = None ->
  counter_at ip wk 0 w -> windowKey (now amb) <> wk ->
  counter_at ip wk 0 (fetch request amb w).2.
Proof.
  intros Hw Hc Hwk. unfold counter_at in *.
  assert (Hne : rateLimitKey ip wk
                <> rateLimitKey (clientIP request) (windowKey (now amb))).
  { intros [_ H]%rateLimitKey_inj. congruence. }
  destruct (fetch_frame request amb w _ Hne) as [_ Hmem].
  destruct (Hmem Hw) as [_ [-> | [-> _]]]; [exact Hc | reflexivity].
Qed.

Lemma serve_windows (reqs : list (Request * Ambient)) (ip : string) (wk : Z) :
  StronglySorted (fun a b : Request * Ambient => now a.2 <= now b.2) reqs ->
  forall (w : World) (c : Z),
    RATE_LIMIT_KV w = None ->
    0 <= c -> counter_at ip wk c w -> store_wf (Store.current w) ->
    (0 < c -> Forall (fun ra : Request * Ambient => wk <= windowKey (now ra.2)) reqs) ->
    forall (k : nat) (r : Response),
      nth_error (window_writes ip wk reqs w) k = Some r ->
      status r = 429 <-> MAX_REQUESTS_PER_WINDOW <= c + Z.of_nat k.
Proof.
  induction 1 as [|[request amb] reqs Hsorted IH Hlater]; intros w c Hkv Hc0 Hc Hwf Hin k r.
  - cbn. now destruct k.
  - rewrite window_writes_cons.
    pose proof (fetch_keeps_wf request amb w Hwf) as Hwf'.
    pose proof (fetch_keeps_memory request amb w Hkv) as Hkv'.
    assert (Hafter : forall wk0, wk0 <= windowKey (now amb) ->
              Forall (fun ra : Request * Ambient => wk0 <= windowKey (now ra.2)) reqs).
    { intros wk0 Hwk0. eapply Forall_impl; [exact Hlater|]. cbn.
      intros ra Hra. apply windowKey_mono in Hra. lia. }
    destruct (Z.eqb_spec (windowKey (now amb)) wk) as [Hwk | Hwk].
    + rewrite andb_true_r.
      destruct (is_write_of ip request) eqn:Hwrite.
      * destruct (fetch_write_status request amb w ip Hwrite) as (Hip & Hstatus & Hk & Hs).
        subst ip.
        destruct (counter_at_own request amb w wk c Hkv Hc Hwf Hwk) as [Hlim Hc'].
        apply (counter_at_stores _ _ _ _ _ Hs) in Hc'.
        destruct k as [|k]; cbn [nth_error].
        -- intros [= <-]. rewrite Hstatus, Hlim, Z.leb_le. lia.
        -- intros Hx.
           assert (Hc0' : 0 <= (if c <? MAX_REQUESTS_PER_WINDOW then c + 1 else c))
             by (destruct (c <? _); lia).
           apply (IH _ _ Hkv' Hc0' Hc' Hwf' ltac:(intros _; apply Hafter; lia)) in Hx.
           rewrite Hx. unfold MAX_REQUESTS_PER_WINDOW.
           destruct (Z.ltb_spec c 2); lia.
      * apply IH; trivial; [now apply counter_at_other | intros _; apply Hafter; lia].
    + rewrite andb_false_r.
      destruct (Z_lt_ge_dec (windowKey (now amb)) wk) as [Hearly | Hlate].
      * assert (c = 0) as ->.
        { destruct (Z.eq_dec c 0) as [|Hpos]; [trivial|].
          specialize (Hin ltac:(lia)). apply Forall_cons in Hin as [Hin _]. cbn in Hin. lia. }
        apply IH; trivial; [now apply counter_absent_frame | lia].
      * rewrite window_writes_late; [now destruct k|].
        eapply Forall_impl; [exact Hlater|]. cbn.
        intros ra Hra. apply windowKey_mono in Hra. lia.
Qed.

(** Property X5.  Without a KV namespace the limit holds window by window.
    When the requests come with a clock that does not run backwards, then
    in every window for which the client has no counter at the start the
    first two writes of the client get past the limiter and all its
    further writes of that window are answered 429, whatever other
    requests are served in between and whatever happened in earlier
    windows. *)
Theorem two_writes_in_every_window (reqs : list (Request * Ambient)) (w : World)
    (ip : string) (wk : Z) (k : nat) (r : Response) :
  RATE_LIMIT_KV w = None ->
  store_wf (Store.current w) ->
  counter_expiry (rateLimitKey ip wk) w = None ->
  StronglySorted (fun a b : Request * Ambient => now a.2 <= now b.2) reqs ->
  nth_error (window_writes ip wk reqs w) k = Some r ->
  status r = 429 <-> MAX_REQUESTS_PER_WINDOW <= Z.of_nat k.
Proof.
  intros Hkv Hwf Hnone Hsorted Hr.
  apply (serve_windows reqs ip wk Hsorted w 0 Hkv ltac:(lia)) in Hr; trivial; [|lia].
  unfold counter_at, counter_expiry in *. rewrite Hkv in Hnone.
  now destruct (Store.current w !! rateLimitKey ip wk).
Qed.

(** * Further properties of the repository *)

(** ** The values a body can carry *)

Lemma name_cases (v : jsvalue) :
  name_blank v \/ (exists nm, name_given v nm) \/ untrimmable v.
Proof.
  unfold name_blank, name_given, untrimmable.
  destruct v as [[| [] | q | s | l | f]|]; cbn;
    try (left; left; reflexivity);
    try (right; right; split; [reflexivity | discriminate]).
  - destruct (Qnum q =? 0) eqn:Hq; cbn.
    + left. now left.
    + right. right. split; [reflexivity | discriminate].
  - destruct (String.eqb_spec (JsString.trim s) "") as [Hs | Hs].
    + left. right. eauto.
    + right. left. eauto.
Qed.

Lemma description_cases (d : jsvalue) :
  (exists stored, stores d stored) \/ untrimmable d.
Proof.
  unfold stores, untrimmable.
  destruct d as [[| [] | q | s | l | f]|]; cbn;
    try (left; exists None; left; split; reflexivity);
    try (right; split; [reflexivity | discriminate]).
  - destruct (Qnum q =? 0) eqn:Hq; cbn.
    + left. exists None. now left.
    + right. split; [reflexivity | discriminate].
  - destruct (String.eqb_spec s "") as [-> | Hs].
    + left. exists None. now left.
    + left. exists (Some (JsString.trim s)). right. eauto.
Qed.

Lemma untrimmable_throws (v : jsvalue) (w : World) :
  untrimmable v -> exists e, call_trim v w = (Throw e, w).
Proof.
  intros [Ht Hs]. destruct v as [[| b | q | s | l | f]|]; cbn; eauto.
  now contradiction (Hs s).
Qed.

Lemma name_missing_untrimmable (v : jsvalue) (w : World) :
  untrimmable v -> exists e, name_missing v w = (Throw e, w).
Proof.
  intros Hv. unfold name_missing. destruct Hv as [Ht Hs]. rewrite Ht. cbn. run_M.
  destruct (untrimmable_throws v w (conj Ht Hs)) as (e & ->). eauto.
Qed.

Lemma description_untrimmable (v : jsvalue) (w : World) :
  untrimmable v -> exists e, description_or_null v w = (Throw e, w).
Proof.
  intros Hv. unfold description_or_null. destruct Hv as [Ht Hs]. rewrite Ht. run_M.
  destruct (untrimmable_throws v w (conj Ht Hs)) as (e & ->). eauto.
Qed.

(** A body whose name is a truthy value has to be an object. *)
Lemma body_with_truthy_name (request : Request) :
  Json.truthy (body_name request) = true ->
  exists fields,
    req_body request = Some (JObject fields) /\
    Json.assoc "name" fields = body_name request /\
    Json.assoc "description" fields = body_description request.
Proof.
  unfold body_name, body_description.
  destruct (req_body request) as [[| | | | |fields]|]; try discriminate. eauto.
Qed.

(** ** What each handler does *)

(** A create whose name or description has no [trim] method: the
    [TypeError] is caught and answered as invalid JSON; nothing has run. *)
Lemma post_type_error (request : Request) (amb : Ambient) (cors : list (string * string))
    (w : World) :
  req_method request = "POST" ->
  untrimmable (body_name request) \/
  ((exists nm, name_given (body_name request) nm) /\ untrimmable (body_description request)) ->
  handleItemsAPI request amb cors w = (invalid_json cors, w).
Proof.
  intros Hm Hbad. unfold handleItemsAPI, handleItemsAPI_try. rewrite Hm. cbn.
  unfold handle_post, request_json, destructure.
  destruct Hbad as [Hname | [(nm & Hnm) Hd]].
  - destruct (body_with_truthy_name request (proj1 Hname)) as (fields & Hbody & Hn & _).
    rewrite Hbody. run_M. cbn. rewrite Hn.
    destruct (name_missing_untrimmable _ w Hname) as (e & ->). reflexivity.
  - destruct (body_with_name _ _ Hnm) as (fields & Hbody & Hn & Hdescr).
    rewrite Hbody. run_M. cbn. rewrite Hn, Hdescr.
    rewrite (name_missing_given _ _ _ Hnm), (call_trim_given _ _ _ Hnm).
    destruct (description_untrimmable _ w Hd) as (e & ->). reflexivity.
Qed.

(** The same for an update; a description is looked at only after the row
    has been found. *)
Lemma put_type_error (request : Request) (amb : Ambient) (cors : list (string * string))
    (w : World) (i : string) :
  req_method request = "PUT" -> path_id (req_pathname request) = Some i ->
  untrimmable (body_name request) \/
  ((exists nm, name_given (body_name request) nm) /\ untrimmable (body_description request) /\
   is_Some (D1.select_by_id (SqlText i) (DB w))) ->
  (handleItemsAPI request amb cors w).1 = invalid_json cors /\
  DB (handleItemsAPI request amb cors w).2 = DB w.
Proof.
  intros Hm Hid Hbad. pose proof (path_id_nonempty _ _ Hid) as Hi.
  unfold handleItemsAPI, handleItemsAPI_try. rewrite Hm, Hid. cbn.
  unfold handle_put, request_json, destructure. rewrite Hi. cbn.
  destruct Hbad as [Hname | [(nm & Hnm) [Hd [old Hold]]]].
  - destruct (body_with_truthy_name request (proj1 Hname)) as (fields & Hbody & Hn & _).
    rewrite Hbody. run_M. cbn. rewrite Hn.
    destruct (name_missing_untrimmable _ w Hname) as (e & ->). now split.
  - destruct (body_with_name _ _ Hnm) as (fields & Hbody & Hn & Hdescr).
    rewrite Hbody. run_M. cbn. rewrite Hn, Hdescr.
    rewrite (name_missing_given _ _ _ Hnm). cbn. rewrite Hold.
    rewrite (call_trim_given _ _ _ Hnm).
    destruct (description_untrimmable _
                (emit (DbStatement Db.select_one_sql [SqlText i]) w) Hd) as (e & ->).
    now split.
Qed.

(** Without an id in the path, update and delete answer 400 at once. *)
Lemma no_id_handler (request : Request) (amb : Ambient) (cors : list (string * string))
    (w : World) :
  req_method request = "PUT" \/ req_method request = "DELETE" ->
  path_id (req_pathname request) = None ->
  handleItemsAPI request amb cors w = (id_required cors, w).
Proof.
  intros Hm Hid. unfold handleItemsAPI, handleItemsAPI_try. rewrite Hid.
  now destruct Hm as [-> | ->].
Qed.

(** A delete of a row that exists. *)
Lemma delete_deletes (request : Request) (amb : Ambient) (cors : list (string * string))
    (w : World) (i : string) (old : Item) :
  req_method request = "DELETE" -> path_id (req_pathname request) = Some i ->
  D1.select_by_id (SqlText i) (DB w) = Some old ->
  (handleItemsAPI request amb cors w).1 = item_deleted old cors /\
  DB (handleItemsAPI request amb cors w).2 = D1.delete (SqlText i) (DB w).
Proof.
  intros Hm Hid Hold. pose proof (path_id_nonempty _ _ Hid) as Hi.
  unfold handleItemsAPI, handleItemsAPI_try. rewrite Hm, Hid. cbn.
  unfold handle_delete. rewrite Hi. cbn. unfold Db.first_by_id, Db.delete. run_M. cbn.
  rewrite Hold. now split.
Qed.

(** A read changes nothing in the table and answers 200, 404 or 500. *)
Lemma get_reads (request : Request) (amb : Ambient) (cors : list (string * string))
    (w : World) :
  req_method request = "GET" ->
  DB (handleItemsAPI request amb cors w).2 = DB w /\
  status (handleItemsAPI request amb cors w).1 <> 201.
Proof.
  intros Hm. unfold handleItemsAPI, handleItemsAPI_try. rewrite Hm. cbn.
  unfold handle_get, Db.first_by_id, Db.total, Db.page. run_M.
  destruct (truthy_text _); cbn.
  - destruct (D1.select_by_id _ _); cbn; now split.
  - destruct (D1.select_page _ _ _); cbn; now split.
Qed.

(** Any other method is refused. *)
Lemma other_method_handler (request : Request) (amb : Ambient)
    (cors : list (string * string)) (w : World) :
  req_method request <> "GET" -> req_method request <> "POST" ->
  req_method request <> "PUT" -> req_method request <> "DELETE" ->
  handleItemsAPI request amb cors w = (method_not_allowed cors, w).
Proof.
  intros Hg Hp Hu Hd. unfold handleItemsAPI, handleItemsAPI_try.
  destruct (String.eqb_spec (req_method request) "GET"); [contradiction|].
  destruct (String.eqb_spec (req_method request) "POST"); [contradiction|].
  destruct (String.eqb_spec (req_method request) "PUT"); [contradiction|].
  destruct (String.eqb_spec (req_method request) "DELETE"); [contradiction|].
  reflexivity.
Qed.

(** An update or a delete of an id that selects no row. *)
Lemma missing_item_handler (request : Request) (amb : Ambient)
    (cors : list (string * string)) (w : World) (i : string) :
  path_id (req_pathname request) = Some i ->
  D1.select_by_id (SqlText i) (DB w) = None ->
  req_method request = "DELETE" \/
  (req_method request = "PUT" /\ exists nm, name_given (body_name request) nm) ->
  (handleItemsAPI request amb cors w).1 = item_not_found i cors /\
  DB (handleItemsAPI request amb cors w).2 = DB w.
Proof.
  intros Hid Hnone Hm.
  pose proof (path_id_nonempty _ _ Hid) as Hi.
  unfold handleItemsAPI, handleItemsAPI_try. rewrite Hid.
  destruct Hm as [-> | [-> (nm & Hnm)]]; cbn.
  - unfold handle_delete. rewrite Hi. cbn. unfold Db.first_by_id. run_M. cbn.
    rewrite Hnone. cbn. auto.
  - destruct (body_with_name _ _ Hnm) as (fields & Hbody & Hname & _).
    unfold handle_put, request_json, destructure. rewrite Hi, Hbody. cbn.
    run_M. cbn. rewrite Hname, (name_missing_given _ _ _ Hnm). cbn.
    rewrite Hnone. cbn. auto.
Qed.

(** ** The ways the table can change *)

Lemma handleItemsAPI_effect (request : Request) (amb : Ambient)
    (cors : list (string * string)) (w : World) :
  Effect request amb cors (DB w)
    (handleItemsAPI request amb cors w).1 (DB (handleItemsAPI request amb cors w).2).
Proof.
  assert (Hsame : forall r, handleItemsAPI request amb cors w = (r, w) ->
            Effect request amb cors (DB w)
              (handleItemsAPI request amb cors w).1
              (DB (handleItemsAPI request amb cors w).2)).
  { intros r ->. constructor. }
  assert (Hdb : DB (handleItemsAPI request amb cors w).2 = DB w ->
            Effect request amb cors (DB w)
              (handleItemsAPI request amb cors w).1
              (DB (handleItemsAPI request amb cors w).2)).
  { intros ->. constructor. }
  destruct (String.eqb_spec (req_method request) "GET") as [Hget | Hget].
  { apply Hdb. now apply get_reads. }
  destruct (String.eqb_spec (req_method request) "POST") as [Hpost | Hpost].
  { destruct (name_cases (body_name request)) as [Hblank | [(nm & Hnm) | Hbad]].
    - destruct (blank_name_handler request amb cors w (or_introl Hpost) Hblank)
        as (r & Hr & _). eauto.
    - destruct (description_cases (body_description request)) as [(stored & Hst) | Hbad].
      + destruct (post_creates request amb cors w nm stored Hpost Hnm Hst) as [-> ->].
        now constructor.
      + eapply Hsame, post_type_error; eauto.
    - eapply Hsame, post_type_error; eauto. }
  destruct (String.eqb_spec (req_method request) "PUT") as [Hput | Hput].
  { destruct (path_id (req_pathname request)) as [i|] eqn:Hid;
      [|eapply Hsame, no_id_handler; auto].
    destruct (name_cases (body_name request)) as [Hblank | [(nm & Hnm) | Hbad]].
    - destruct (blank_name_handler request amb cors w (or_intror Hput) Hblank)
        as (r & Hr & _). eauto.
    - destruct (D1.select_by_id (SqlText i) (DB w)) as [old|] eqn:Hold.
      + destruct (description_cases (body_description request)) as [(stored & Hst) | Hbad].
        * destruct (put_updates request amb cors w nm i stored old Hput Hid Hold Hnm Hst)
            as [-> ->].
          now constructor.
        * apply Hdb. apply (put_type_error request amb cors w i Hput Hid).
          right. split; [eauto|]. split; [exact Hbad|]. rewrite Hold. eauto.
      + apply Hdb. eapply missing_item_handler; eauto.
    - apply Hdb. apply (put_type_error request amb cors w i Hput Hid). now left. }
  destruct (String.eqb_spec (req_method request) "DELETE") as [Hdel | Hdel].
  { destruct (path_id (req_pathname request)) as [i|] eqn:Hid;
      [|eapply Hsame, no_id_handler; auto].
    destruct (D1.select_by_id (SqlText i) (DB w)) as [old|] eqn:Hold.
    - destruct (delete_deletes request amb cors w i old Hdel Hid Hold) as [-> ->].
      now constructor.
    - apply Hdb. eapply missing_item_handler; eauto. }
  eapply Hsame, other_method_handler; auto.
Qed.

(** The table after [fetch] is the table the repository leaves, if the
    request gets that far. *)
Lemma fetch_db (request : Request) (amb : Ambient) (w : World) :
  ((fetch request amb w).1 <> (handleItemsAPI request amb corsHeaders w).1 \/
   req_method request = "OPTIONS" \/
   JsString.startsWith (req_pathname request) "/api/items" = false) /\
  DB (fetch request amb w).2 = DB w \/
  exists w1, DB w1 = DB w /\
    req_method request <> "OPTIONS" /\
    JsString.startsWith (req_pathname request) "/api/items" = true /\
    fetch request amb w = handleItemsAPI request amb corsHeaders w1.
Proof.
  unfold fetch.
  destruct (String.eqb_spec (req_method request) "OPTIONS") as [Hopt | Hopt].
  { left. split; auto. }
  unfold rate_limited_route, dispatch.
  destruct (JsString.startsWith (req_pathname request) "/api/items") eqn:Hpath; cbn.
  - destruct (negb _).
    + destruct (checkRateLimit_offline request amb w) as [[Hdb _] _].
      destruct (checkRateLimit request amb w) as [r w1]. cbn in *.
      destruct (limited r) eqn:Hlim.
      * left. split; [|exact Hdb]. left. cbn.
        destruct (handleItemsAPI_quiet request amb corsHeaders w) as [_ Hp].
        intros H. rewrite <- H in Hp. cbv in Hp. intuition discriminate.
      * right. exists w1. auto.
    + right. exists w. auto.
  - left. split; [auto|]. repeat case_match; reflexivity.
Qed.

(** The table after [fetch]: the four ways it can have changed. *)
Lemma fetch_effect (request : Request) (amb : Ambient) (w : World) :
  Effect request amb corsHeaders (DB w)
    (fetch request amb w).1 (DB (fetch request amb w).2).
Proof.
  destruct (fetch_db request amb w) as [[_ ->] | (w1 & Hdb & _ & _ & ->)].
  - constructor.
  - rewrite <- Hdb. apply handleItemsAPI_effect.
Qed.

(** Property X6.  Whatever the request, [fetch] leaves the table as it was,
    or it has inserted one row with a trimmed, non-empty name (a POST with
    a usable name, answered 201), or it has rewritten name and description
    of the rows its path selects (a PUT with a usable name on an existing
    row), or it has deleted them (a DELETE of an existing row).  No other
    change of the table is possible. *)
Theorem table_changes_only_by_valid_writes (request : Request) (amb : Ambient)
    (w : World) :
  let response := (fetch request amb w).1 in
  let db := DB w in
  let db' := DB (fetch request amb w).2 in
  db' = db \/
  (req_method request = "POST" /\
   exists nm stored,
     name_given (body_name request) nm /\ stores (body_description request) stored /\
     db' = (D1.insert (JsString.trim nm) stored (current_timestamp amb) db).2 /\
     response = item_created
                  (Some (mkItem (D1.next_id db) (JsString.trim nm) stored
                           (Some (current_timestamp amb)))) corsHeaders) \/
  (req_method request = "PUT" /\
   exists i old nm stored,
     path_id (req_pathname request) = Some i /\
     D1.select_by_id (SqlText i) db = Some old /\
     name_given (body_name request) nm /\ stores (body_description request) stored /\
     db' = D1.update (JsString.trim nm) stored (SqlText i) db /\
     response = item_updated
                  (Some (mkItem (id old) (JsString.trim nm) stored (created_at old)))
                  corsHeaders) \/
  (req_method request = "DELETE" /\
   exists i old,
     path_id (req_pathname request) = Some i /\
     D1.select_by_id (SqlText i) db = Some old /\
     db' = D1.delete (SqlText i) db /\
     response = item_deleted old corsHeaders).
Proof.
  cbv zeta. pose proof (fetch_effect request amb w) as He.
  remember (fetch request amb w).1 as r eqn:Hr.
  remember (DB (fetch request amb w).2) as db' eqn:Hdb'.
  destruct He as [r | nm stored Hm Hnm Hst | nm i stored old Hm Hid Hold Hnm Hst
                  | i old Hm Hid Hold].
  - now left.
  - right. left. split; [exact Hm|]. exists nm, stored. auto.
  - right. right. left. split; [exact Hm|]. exists i, old, nm, stored. auto 7.
  - right. right. right. split; [exact Hm|]. exists i, old. auto.
Qed.

(** Property X7.  A request that is answered with an error status (400 and
    above), and every GET and OPTIONS request, leaves the table exactly as
    it was. *)
Theorem errors_and_reads_write_nothing (request : Request) (amb : Ambient) (w : World) :
  400 <= status (fetch request amb w).1 \/
  req_method request = "GET" \/ req_method request = "OPTIONS" ->
  DB (fetch request amb w).2 = DB w.
Proof.
  intros H.
  destruct (fetch_db request amb w) as [[_ ->] | (w1 & Hdb & _ & _ & Hf)]; [reflexivity|].
  rewrite Hf in *. rewrite <- Hdb.
  pose proof (handleItemsAPI_effect request amb corsHeaders w1) as He.
  inversion He as [r Hr Hdb' | nm stored Hm Hnm Hst Hr Hdb'
                   | nm i stored old Hm Hid Hold Hnm Hst Hr Hdb'
                   | i old Hm Hid Hold Hr Hdb']; trivial;
    rewrite <- Hr in H; cbn in H;
    destruct H as [H | [H | H]]; first [lia | congruence].
Qed.

(** ** The primary key *)

(** A parameter that selects a row matches the rows with that row's id. *)
Lemma id_matches_found (p : sqlvalue) (db : Database) (old : Item) :
  D1.select_by_id p db = Some old -> forall r, D1.id_matches db p r = (id old =? r).
Proof.
  unfold D1.select_by_id. intros [_ H]%find_some r. unfold D1.id_matches in *.
  destruct (D1.integer_of db p) as [z|]; [|discriminate].
  apply Z.eqb_eq in H. now subst.
Qed.

Lemma next_id_fresh (db : Database) (row : Item) :
  In row (items db) -> id row < D1.next_id db.
Proof. intros H%max_rowid_bound. unfold D1.next_id. lia. Qed.

Lemma next_id_above (db : Database) : sqlite_sequence db < D1.next_id db.
Proof. unfold D1.next_id. lia. Qed.

Lemma insert_wf (nm : string) (d : option string) (ts : string) (db : Database) :
  table_wf db -> table_wf (D1.insert nm d ts db).2.
Proof.
  intros [Hnd Hseq]. unfold table_wf, D1.insert. cbn [snd items sqlite_sequence with_rows]. split.
  - rewrite map_app. apply NoDup_app. split; [exact Hnd|]. split; [|apply NoDup_singleton].
    intros x Hx%list_elem_of_In Hin%list_elem_of_singleton. subst x.
    apply in_map_iff in Hx as (row & Hid & Hrow).
    apply next_id_fresh in Hrow. cbn in Hid. lia.
  - apply Forall_app. split.
    + apply List.Forall_forall. intros row Hrow%next_id_fresh. lia.
    + constructor; [cbn; lia | constructor].
Qed.

Lemma update_ids (nm : string) (d : option string) (p : sqlvalue) (db : Database) :
  map id (items (D1.update nm d p db)) = map id (items db).
Proof.
  unfold D1.update. cbn [items with_rows]. rewrite List.map_map. apply map_ext.
  intros row. now destruct (D1.id_matches db p (id row)).
Qed.

Lemma update_wf (nm : string) (d : option string) (p : sqlvalue) (db : Database) :
  table_wf db -> table_wf (D1.update nm d p db).
Proof.
  intros [Hnd Hseq]. split; [now rewrite update_ids|].
  unfold D1.update. cbn [items sqlite_sequence with_rows].
  apply List.Forall_forall. intros row (row0 & <- & Hrow)%in_map_iff.
  rewrite List.Forall_forall in Hseq. specialize (Hseq _ Hrow).
  now destruct (D1.id_matches db p (id row0)).
Qed.

Lemma NoDup_map_filter {A B : Type} (f : A -> B) (g : A -> bool) (l : list A) :
  NoDup (map f l) -> NoDup (map f (List.filter g l)).
Proof.
  induction l as [|x l IH]; cbn; [trivial|].
  intros [Hx Hl]%NoDup_cons. destruct (g x); cbn; [|auto].
  apply NoDup_cons. split; [|auto].
  intros Hin%list_elem_of_In. apply Hx, list_elem_of_In.
  apply in_map_iff in Hin as (y & Hy & [Hin _]%List.filter_In).
  apply in_map_iff. eauto.
Qed.

Lemma delete_wf (p : sqlvalue) (db : Database) : table_wf db -> table_wf (D1.delete p db).
Proof.
  intros [Hnd Hseq]. unfold table_wf, D1.delete. cbn [items sqlite_sequence with_rows]. split.
  - now apply NoDup_map_filter.
  - apply List.Forall_forall. intros row [Hrow _]%List.filter_In.
    rewrite List.Forall_forall in Hseq. auto.
Qed.

Lemma fetch_keeps_table_wf (request : Request) (amb : Ambient) (w : World) :
  table_wf (DB w) -> table_wf (DB (fetch request amb w).2).
Proof.
  intros Hwf. destruct (fetch_effect request amb w); auto using insert_wf, update_wf, delete_wf.
Qed.

(** Property X8.  The ids of the table stay pairwise distinct, and none
    exceeds the largest id handed out, whatever requests are served. *)
Theorem primary_key_kept (reqs : list (Request * Ambient)) (w : World) :
  table_wf (DB w) -> table_wf (DB (serve reqs w).2).
Proof.
  revert w. induction reqs as [|[request amb] reqs IH]; intros w Hwf; [exact Hwf|].
  cbn [serve snd]. apply IH. now apply fetch_keeps_table_wf.
Qed.

(** ** Stored names and descriptions *)

Lemma stored_trimmed (d : jsvalue) (stored : option string) :
  stores d stored ->
  match stored with Some s => JsString.trim s = s | None => True end.
Proof. intros [[_ ->] | (s & _ & _ & ->)]; [exact I | apply trim_idem]. Qed.

Lemma written_row_trimmed (i : Z) (v d : jsvalue) (nm : string) (stored created : option string) :
  name_given v nm -> stores d stored ->
  row_trimmed (mkItem i (JsString.trim nm) stored created).
Proof.
  intros [_ Hnm] Hst. unfold row_trimmed. cbn.
  split; [exact Hnm|]. split; [apply trim_idem | now apply (stored_trimmed d)].
Qed.

Lemma fetch_keeps_trimmed (request : Request) (amb : Ambient) (w : World) :
  Forall row_trimmed (items (DB w)) ->
  Forall row_trimmed (items (DB (fetch request amb w).2)).
Proof.
  intros Hall.
  destruct (fetch_effect request amb w)
    as [r | nm stored Hm Hnm Hst | nm i stored old Hm Hid Hold Hnm Hst | i old Hm Hid Hold].
  - exact Hall.
  - unfold D1.insert. cbn [snd items with_rows]. apply Forall_app. split; [exact Hall|].
    constructor; [|constructor]. eapply written_row_trimmed; eauto.
  - unfold D1.update. cbn [items with_rows].
    apply List.Forall_forall. intros row (row0 & <- & Hrow)%in_map_iff.
    rewrite List.Forall_forall in Hall.
    destruct (D1.id_matches _ _ _); [eapply written_row_trimmed; eauto | auto].
  - unfold D1.delete. cbn [items with_rows].
    apply List.Forall_forall. intros row [Hrow _]%List.filter_In.
    rewrite List.Forall_forall in Hall. auto.
Qed.

(** Property X9.  Whatever requests are served, every row keeps a name that
    is not empty and has no white space at either end, and a description
    that is NULL or has no white space at either end. *)
Theorem stored_rows_stay_trimmed (reqs : list (Request * Ambient)) (w : World) :
  Forall row_trimmed (items (DB w)) ->
  Forall row_trimmed (items (DB (serve reqs w).2)).
Proof.
  revert w. induction reqs as [|[request amb] reqs IH]; intros w Hall; [exact Hall|].
  cbn [serve snd]. apply IH. now apply fetch_keeps_trimmed.
Qed.

(** ** The ids of created items *)

Lemma fetch_sequence (request : Request) (amb : Ambient) (w : World) :
  sqlite_sequence (DB w) <= sqlite_sequence (DB (fetch request amb w).2).
Proof.
  pose proof (next_id_above (DB w)).
  destruct (fetch_effect request amb w); unfold D1.insert, D1.update, D1.delete; cbn; lia.
Qed.

(** The id a 201 answer reports is the new value of the sequence. *)
Lemma created_id_sequence (request : Request) (amb : Ambient) (w : World) (i : Z) :
  created_id (fetch request amb w).1 = Some i ->
  sqlite_sequence (DB w) < i /\ sqlite_sequence (DB (fetch request amb w).2) = i.
Proof.
  unfold created_id.
  destruct (Z.eqb_spec (status (fetch request amb w).1) 201) as [Hs|]; [|discriminate].
  destruct (fetch_created _ _ _ Hs) as (w1 & Hdb & Hfetch & Hm).
  rewrite Hfetch in *.
  destruct (created_body _ _ _ _ Hm Hs) as (nm & stored & Hnm & Hst).
  destruct (post_creates request amb corsHeaders w1 nm stored Hm Hnm Hst) as [-> ->].
  cbn. intros [= <-]. rewrite <- Hdb. split; [apply next_id_above | reflexivity].
Qed.

Lemma created_ids_cons (x : Request * Response) (l : list (Request * Response)) :
  created_ids (x :: l)
  = match created_id x.2 with
    | Some i => i :: created_ids l
    | None => created_ids l
    end.
Proof. reflexivity. Qed.

Lemma serve_created_ids (reqs : list (Request * Ambient)) (w : World) :
  StronglySorted Z.lt (created_ids (serve reqs w).1) /\
  Forall (fun i => sqlite_sequence (DB w) < i) (created_ids (serve reqs w).1).
Proof.
  revert w. induction reqs as [|[request amb] reqs IH]; intros w.
  - split; constructor.
  - cbn [serve fst]. rewrite created_ids_cons. cbn [snd].
    destruct (IH (fetch request amb w).2) as [Hsorted Habove].
    pose proof (fetch_sequence request amb w) as Hmono.
    destruct (created_id (fetch request amb w).1) as [i|] eqn:Hi.
    + apply created_id_sequence in Hi as [Hlt Heq]. rewrite Heq in Habove.
      split.
      * now constructor.
      * constructor; [exact Hlt|].
        eapply Forall_impl; [exact Habove|]. cbn. intros; lia.
    + split; [exact Hsorted|].
      eapply Forall_impl; [exact Habove|]. cbn. intros; lia.
Qed.

(** Property X10.  Over any sequence of requests, the ids of the items
    created (by the 201 answers, in order) are strictly increasing, and
    every one of them is larger than the largest id that had been handed
    out before: an id is never used again, not even after the deletion of
    its item. *)
Theorem created_ids_increase (reqs : list (Request * Ambient)) (w : World) :
  StronglySorted Z.lt (created_ids (serve reqs w).1) /\
  Forall (fun i => sqlite_sequence (DB w) < i) (created_ids (serve reqs w).1) /\
  (table_wf (DB w) ->
   Forall (fun i => forall row, In row (items (DB w)) -> id row < i)
     (created_ids (serve reqs w).1)).
Proof.
  destruct (serve_created_ids reqs w) as [Hsorted Habove].
  split; [exact Hsorted|]. split; [exact Habove|].
  intros [_ Hseq]. rewrite List.Forall_forall in Hseq.
  eapply Forall_impl; [exact Habove|]. cbn.
  intros i Hi row Hrow. specialize (Hseq _ Hrow). cbn in Hseq. lia.
Qed.

(** ** The rows a write does not name *)

Lemma find_app_found {A : Type} (f : A -> bool) (l k : list A) (x : A) :
  List.find f l = Some x -> List.find f (l ++ k) = Some x.
Proof.
  induction l as [|y l IH]; cbn; [discriminate|].
  destruct (f y); [trivial | exact IH].
Qed.

Lemma select_insert_other (p : sqlvalue) (nm : string) (d : option string) (ts : string)
    (db : Database) (it : Item) :
  D1.select_by_id p db = Some it ->
  D1.select_by_id p (D1.insert nm d ts db).2 = Some it.
Proof. unfold D1.select_by_id, D1.insert. cbn [snd items with_rows]; rewrite ?id_matches_with_rows. apply find_app_found. Qed.

Lemma select_update_other (p q : sqlvalue) (nm : string) (d : option string)
    (db : Database) (it : Item) :
  D1.select_by_id p db = Some it -> D1.id_matches db q (id it) = false ->
  D1.select_by_id p (D1.update nm d q db) = Some it.
Proof.
  unfold D1.select_by_id, D1.update. cbn [items with_rows]; rewrite ?id_matches_with_rows.
  induction (items db) as [|row rows IH]; cbn; [discriminate|].
  destruct (D1.id_matches db p (id row)) eqn:Hrow.
  - intros [= ->] Hq. rewrite Hq. cbn. now rewrite Hrow.
  - intros Hfind Hq.
    destruct (D1.id_matches db q (id row)); cbn; rewrite Hrow; auto.
Qed.

Lemma select_delete_other (p q : sqlvalue) (db : Database) (it : Item) :
  D1.select_by_id p db = Some it -> D1.id_matches db q (id it) = false ->
  D1.select_by_id p (D1.delete q db) = Some it.
Proof.
  unfold D1.select_by_id, D1.delete. cbn [items with_rows]; rewrite ?id_matches_with_rows.
  induction (items db) as [|row rows IH]; cbn; [discriminate|].
  destruct (D1.id_matches db p (id row)) eqn:Hrow.
  - intros [= ->] Hq. rewrite Hq. cbn. now rewrite Hrow.
  - intros Hfind Hq.
    destruct (D1.id_matches db q (id row)); cbn; rewrite ?Hrow; auto.
Qed.

(** Property X11.  A request changes or removes no row but the one its path
    names: a row selected by an id before the request is selected by it
    afterwards, unchanged, unless the request is an update or a delete
    whose path selects that row. *)
Theorem other_rows_untouched (request : Request) (amb : Ambient) (w : World)
    (p : sqlvalue) (it : Item) :
  D1.select_by_id p (DB w) = Some it ->
  addresses (DB w) request (id it) = false ->
  D1.select_by_id p (DB (fetch request amb w).2) = Some it.
Proof.
  intros Hsel Haddr. unfold addresses in Haddr.
  destruct (fetch_effect request amb w)
    as [r | nm stored Hm Hnm Hst | nm i stored old Hm Hid Hold Hnm Hst | i old Hm Hid Hold].
  - exact Hsel.
  - now apply select_insert_other.
  - rewrite Hm, Hid in Haddr. cbn in Haddr. now apply select_update_other.
  - rewrite Hm, Hid in Haddr. cbn in Haddr. now apply select_delete_other.
Qed.

(** ** Deleting *)

Lemma select_after_delete (p : sqlvalue) (db : Database) :
  D1.select_by_id p (D1.delete p db) = None.
Proof.
  unfold D1.select_by_id, D1.delete. cbn [items with_rows]; rewrite ?id_matches_with_rows.
  induction (items db) as [|row rows IH]; cbn; [reflexivity|].
  destruct (D1.id_matches db p (id row)) eqn:Hrow; cbn; [exact IH | now rewrite Hrow].
Qed.

(** A read of an id that selects no row. *)
Lemma read_missing (read : Request) (amb : Ambient) (cors : list (string * string))
    (w : World) (i : string) :
  req_method read = "GET" -> path_id (req_pathname read) = Some i ->
  D1.select_by_id (SqlText i) (DB w) = None ->
  (handleItemsAPI read amb cors w).1 = no_such_item cors.
Proof.
  intros Hm Hid Hnone. pose proof (path_id_nonempty _ _ Hid) as Hi.
  unfold handleItemsAPI, handleItemsAPI_try. rewrite Hm, Hid. cbn.
  unfold handle_get. rewrite Hi. unfold Db.first_by_id. run_M. cbn. now rewrite Hnone.
Qed.

(** Among rows with distinct ids, one row has a given id. *)
Lemma filter_out_one (rows : list Item) (old : Item) :
  NoDup (map id rows) -> In old rows ->
  S (length (List.filter (fun row => negb (id old =? id row)) rows)) = length rows.
Proof.
  induction rows as [|row rows IH]; cbn; [easy|].
  intros [Hrow Hnd]%NoDup_cons [-> | Hin].
  - rewrite Z.eqb_refl. cbn. f_equal.
    rewrite List.forallb_filter_id; [reflexivity|].
    apply forallb_forall. intros r Hr. apply negb_true_iff, Z.eqb_neq.
    intros Heq. apply Hrow, list_elem_of_In, in_map_iff. eauto.
  - destruct (Z.eqb_spec (id old) (id row)) as [Heq | Hne]; cbn.
    + exfalso. apply Hrow, list_elem_of_In, in_map_iff. eauto.
    + f_equal. auto.
Qed.

(** Property X12.  A delete of an existing item answers 200 with the row it
    removes.  Afterwards the table holds the other rows, in their order,
    and one row less when ids are distinct; the id selects nothing any
    more, so that deleting it again is answered 404 and reading it is
    answered 404. *)
Theorem delete_then_gone (request : Request) (amb : Ambient)
    (cors : list (string * string)) (w : World) (i : string) (old : Item) :
  req_method request = "DELETE" -> path_id (req_pathname request) = Some i ->
  D1.select_by_id (SqlText i) (DB w) = Some old ->
  let w' := (handleItemsAPI request amb cors w).2 in
  (handleItemsAPI request amb cors w).1 = item_deleted old cors /\
  items (DB w') = List.filter (fun row => negb (id old =? id row)) (items (DB w)) /\
  (table_wf (DB w) -> D1.count (DB w') = D1.count (DB w) - 1) /\
  D1.select_by_id (SqlText i) (DB w') = None /\
  (forall amb' w'',
     DB w'' = DB w' -> (handleItemsAPI request amb' cors w'').1 = item_not_found i cors) /\
  (forall read amb' w'',
     req_method read = "GET" -> req_pathname read = req_pathname request ->
     DB w'' = DB w' -> (handleItemsAPI read amb' cors w'').1 = no_such_item cors).
Proof.
  intros Hm Hid Hold w'. subst w'.
  destruct (delete_deletes request amb cors w i old Hm Hid Hold) as [-> ->].
  pose proof (id_matches_found _ _ _ Hold) as Hmatch.
  assert (Hitems : items (D1.delete (SqlText i) (DB w))
                   = List.filter (fun row => negb (id old =? id row)) (items (DB w))).
  { unfold D1.delete. cbn [items with_rows]. apply List.filter_ext. intros row. now rewrite Hmatch. }
  split; [reflexivity|]. split; [exact Hitems|]. split; [|split; [|split]].
  - intros [Hnd _]. unfold D1.count. rewrite Hitems.
    apply find_some in Hold as [Hin _].
    pose proof (filter_out_one _ _ Hnd Hin). lia.
  - apply select_after_delete.
  - intros amb' w'' Hdb.
    apply missing_item_handler; auto. rewrite Hdb. apply select_after_delete.
  - intros read amb' w'' Hget Hpath Hdb.
    apply read_missing with (i := i); trivial; [congruence|].
    rewrite Hdb. apply select_after_delete.
Qed.

(** ** Updating and creating *)

(** Property X13.  An update of an existing item with a usable name leaves
    the number of rows, their ids, their order and their time stamps of
    creation as they were; only name and description of the selected row
    are rewritten. *)
Theorem update_keeps_identity (request : Request) (amb : Ambient)
    (cors : list (string * string)) (w : World) (nm i : string) (stored : option string)
    (old : Item) :
  req_method request = "PUT" -> path_id (req_pathname request) = Some i ->
  D1.select_by_id (SqlText i) (DB w) = Some old ->
  name_given (body_name request) nm -> stores (body_description request) stored ->
  let db' := DB (handleItemsAPI request amb cors w).2 in
  map id (items db') = map id (items (DB w)) /\
  map created_at (items db') = map created_at (items (DB w)) /\
  D1.count db' = D1.count (DB w) /\
  sqlite_sequence db' = sqlite_sequence (DB w) /\
  forall row, In row (items db') ->
    (id row = id old /\ name row = JsString.trim nm /\ description row = stored) \/
    (id row <> id old /\ In row (items (DB w))).
Proof.
  intros Hm Hid Hold Hnm Hst db'. subst db'.
  destruct (put_updates request amb cors w nm i stored old Hm Hid Hold Hnm Hst) as [_ ->].
  pose proof (id_matches_found _ _ _ Hold) as Hmatch.
  split; [apply update_ids|]. split; [|split; [|split]].
  - unfold D1.update. cbn [items with_rows]. rewrite List.map_map. apply map_ext.
    intros row. now destruct (D1.id_matches _ _ _).
  - unfold D1.count. f_equal.
    rewrite <- (List.length_map id), update_ids. apply List.length_map.
  - reflexivity.
  - unfold D1.update. cbn [items with_rows]. intros row (row0 & <- & Hrow)%in_map_iff.
    rewrite Hmatch. destruct (Z.eqb_spec (id old) (id row0)) as [Heq | Hne]; cbn.
    + left. auto.
    + right. auto.
Qed.

(** Property X14.  A 201 answer means that exactly one row has been
    appended to the table, the row the answer shows; its id is larger than
    any id in the table, and the rows that were there are unchanged. *)
Theorem create_appends_one_row (request : Request) (amb : Ambient) (w : World) :
  status (fetch request amb w).1 = 201 ->
  exists it,
    (fetch request amb w).1 = item_created (Some it) corsHeaders /\
    items (DB (fetch request amb w).2) = (items (DB w) ++ [it])%list /\
    D1.count (DB (fetch request amb w).2) = D1.count (DB w) + 1 /\
    (forall row, In row (items (DB w)) -> id row < id it) /\
    created_at it = Some (current_timestamp amb).
Proof.
  intros Hs.
  destruct (fetch_created _ _ _ Hs) as (w1 & Hdb & Hfetch & Hm).
  rewrite Hfetch in *.
  destruct (created_body _ _ _ _ Hm Hs) as (nm & stored & Hnm & Hst).
  destruct (post_creates request amb corsHeaders w1 nm stored Hm Hnm Hst) as [-> ->].
  rewrite Hdb. eexists. split; [reflexivity|].
  unfold D1.insert, D1.count. cbn [snd items id created_at with_rows].
  split; [reflexivity|]. split; [|split].
  - rewrite length_app. cbn. lia.
  - intros row Hrow. now apply next_id_fresh.
  - reflexivity.
Qed.

(** * Further properties of the listing *)

Lemma safe_bounds (z : Z) :
  JsNumber.is_safe_integer z = true <->
  - JsNumber.MAX_SAFE_INTEGER <= z <= JsNumber.MAX_SAFE_INTEGER.
Proof.
  unfold JsNumber.is_safe_integer. rewrite andb_true_iff, !Z.leb_le. tauto.
Qed.

(** The answer to a list request whose parameters parse to safe integers. *)
Lemma list_page (request : Request) (amb : Ambient) (cors : list (string * string))
    (w : World) (p l : Z) :
  req_method request = "GET" -> path_id (req_pathname request) = None ->
  JsNumber.parseInt (or_default (searchParams_get request "page") "1") = Num p ->
  JsNumber.parseInt (or_default (searchParams_get request "limit") "10") = Num l ->
  0 <= l <= JsNumber.MAX_SAFE_INTEGER ->
  JsNumber.is_safe_integer p = true ->
  - JsNumber.MAX_SAFE_INTEGER <= (p - 1) * l <= JsNumber.MAX_SAFE_INTEGER ->
  let total := D1.count (DB w) in
  let rows := take (Z.to_nat l)
                (drop (Z.to_nat ((p - 1) * l)) (D1.order_by_created_at_desc (items (DB w)))) in
  let pages := JsNumber.ceil_quot total (Num l) in
  (handleItemsAPI request amb cors w).1
  = json_response 200
      (JObject [("items", JArray (map json_of_item rows));
                ("pagination",
                 JObject [("page", Json.of_Z p); ("limit", Json.of_Z l);
                          ("total", Json.of_Z total);
                          ("pages", Json.of_number
                                      (if JsNumber.truthy pages then pages else Num 1))])])
      cors.
Proof.
  intros Hm Hid Hp Hl Hl0 Hpsafe Hoff total rows pages.
  apply safe_bounds in Hpsafe.
  assert (Hoffset : JsNumber.mul (JsNumber.sub (Num p) (Num 1)) (Num l)
                    = Num ((p - 1) * l)).
  { unfold JsNumber.mul, JsNumber.sub, JsNumber.add, JsNumber.negate.
    change (p + - (1)) with (p - 1).
    rewrite (of_integer_exact (p - 1)) by lia.
    destruct (p - 1); apply of_integer_exact; lia. }
  unfold handleItemsAPI, handleItemsAPI_try. rewrite Hm, Hid. cbn.
  unfold handle_get. cbn. rewrite Hp, Hl, Hoffset.
  unfold Db.total, Db.page. run_M. cbn.
  unfold D1.select_page, D1.limit_offset.
  rewrite !bound_safe by lia.
  destruct (Z.ltb_spec l 0); [lia|]. reflexivity.
Qed.

Lemma page_request_parameters (p l : Z) :
  JsNumber.is_safe_integer p = true -> JsNumber.is_safe_integer l = true ->
  req_method (page_request p l) = "GET" /\
  path_id (req_pathname (page_request p l)) = None /\
  JsNumber.parseInt (or_default (searchParams_get (page_request p l) "page") "1") = Num p /\
  JsNumber.parseInt (or_default (searchParams_get (page_request p l) "limit") "10") = Num l.
Proof.
  intros Hp Hl.
  split; [reflexivity|]. split; [reflexivity|].
  assert (Hd : forall z d, or_default (Some (JsNumber.Z_toString z)) d = JsNumber.Z_toString z).
  { intros z d. pose proof (Z_toString_nonempty z). now destruct (JsNumber.Z_toString z). }
  unfold page_request, list_request, searchParams_get. cbn [req_searchParams Json.assoc].
  change (String.eqb "page" "page") with true.
  change (String.eqb "page" "limit") with false.
  change (String.eqb "limit" "limit") with true. cbv iota.
  rewrite !Hd, !parseInt_toString by assumption. now split.
Qed.

(** The rows of page [p] at [l] rows a page. *)
Lemma fetch_page (p l : Z) (amb : Ambient) (w : World) :
  1 <= l <= JsNumber.MAX_SAFE_INTEGER -> page_in_range p l ->
  status (fetch (page_request p l) amb w).1 = 200 /\
  page_items (fetch (page_request p l) amb w).1
  = map json_of_item
      (take (Z.to_nat l)
         (drop (Z.to_nat ((p - 1) * l)) (D1.order_by_created_at_desc (items (DB w))))) /\
  pagination_field "pages" (fetch (page_request p l) amb w).1
  = Some (Json.of_Z (Z.max 1 (JsNumber.ceil_div (D1.count (DB w)) l))) /\
  DB (fetch (page_request p l) amb w).2 = DB w.
Proof.
  intros Hl [Hp Hoff].
  assert (Hlsafe : JsNumber.is_safe_integer l = true)
    by (apply safe_bounds; unfold JsNumber.MAX_SAFE_INTEGER in *; lia).
  destruct (page_request_parameters p l Hp Hlsafe) as (Hm & Hid & Hpp & Hlim).
  apply safe_bounds in Hoff.
  rewrite fetch_get_route by reflexivity.
  rewrite (list_page _ amb corsHeaders w p l Hm Hid Hpp Hlim ltac:(lia) Hp Hoff).
  rewrite pages_positive_limit by (unfold D1.count; lia).
  split; [reflexivity|]. split; [reflexivity|]. split; [reflexivity|]. now apply get_reads.
Qed.

(** A list cut into chunks of [c] elements, put together again. *)
Lemma chunks_concat {A : Type} (c n : nat) (L : list A) :
  (1 <= c)%nat -> (length L <= n * c)%nat ->
  concat (map (fun k => take c (drop (k * c) L)) (seq 0 n)) = L.
Proof.
  intros Hc. revert L. induction n as [|n IH]; intros L Hlen.
  - cbn in *. destruct L; [reflexivity | cbn in Hlen; lia].
  - cbn [seq map concat]. rewrite <- seq_shift, List.map_map.
    cbn [Nat.mul]. rewrite drop_0.
    rewrite <- (take_drop c L) at 2. f_equal.
    rewrite <- (IH (drop c L)) by (rewrite length_drop; lia).
    f_equal. apply map_ext. intros k.
    rewrite drop_drop. reflexivity.
Qed.

Lemma serve_pages (l : Z) (ambs : nat -> Ambient) (w : World) (ps : list nat) :
  1 <= l <= JsNumber.MAX_SAFE_INTEGER ->
  Forall (fun p => page_in_range (Z.of_nat p) l) ps ->
  map (fun x : Request * Response => page_items x.2)
    (serve (map (fun p => (page_request (Z.of_nat p) l, ambs p)) ps) w).1
  = map (fun p =>
           map json_of_item
             (take (Z.to_nat l)
                (drop (Z.to_nat ((Z.of_nat p - 1) * l))
                   (D1.order_by_created_at_desc (items (DB w)))))) ps.
Proof.
  intros Hl Hps. revert w. induction Hps as [|p ps Hp _ IH]; intros w; [reflexivity|].
  cbn [map serve fst snd].
  destruct (fetch_page (Z.of_nat p) l (ambs p) w Hl Hp) as (_ & Hitems & _ & Hdb).
  rewrite Hitems, IH, Hdb. reflexivity.
Qed.

(** The pages of a table that has a safe number of rows are within reach. *)
Lemma pages_in_range (total l p : Z) :
  0 <= total <= JsNumber.MAX_SAFE_INTEGER -> 1 <= l ->
  1 <= p <= Z.max 1 (JsNumber.ceil_div total l) ->
  page_in_range p l /\ ((p - 1) * l < total \/ total = 0 /\ p = 1).
Proof.
  intros Ht Hl Hp.
  destruct (ceil_div_pos total l ltac:(lia) Hl) as (Hc0 & Hczero & Hcbound).
  assert (Hoff : 0 <= (p - 1) * l <= total) by nia.
  assert (Hpt : p <= Z.max 1 total) by nia.
  split.
  - split; apply safe_bounds; unfold JsNumber.MAX_SAFE_INTEGER in *; lia.
  - destruct (Z.eq_dec total 0) as [-> | Hpos]; [right; split; [reflexivity | nia]|].
    left. nia.
Qed.

(** ** Reading every page *)

(** Property X15.  For a limit from 1 up to the largest safe integer, and a
    table with a safe number of rows: reading the pages 1, 2, ... up to the
    number of pages the listing reports, one request after the other,
    shows every row of the table exactly once, newest first.  No page of
    these is empty unless the table is, and every later page within reach
    is answered 200 with no rows. *)
Theorem pages_cover_the_table (l : Z) (ambs : nat -> Ambient) (w : World) :
  1 <= l <= JsNumber.MAX_SAFE_INTEGER ->
  D1.count (DB w) <= JsNumber.MAX_SAFE_INTEGER ->
  let pages := Z.max 1 (JsNumber.ceil_div (D1.count (DB w)) l) in
  let ordered := D1.order_by_created_at_desc (items (DB w)) in
  (forall p amb, page_in_range p l ->
     pagination_field "pages" (fetch (page_request p l) amb w).1 = Some (Json.of_Z pages)) /\
  concat (map (fun x : Request * Response => page_items x.2)
            (serve (map (fun p => (page_request (Z.of_nat p) l, ambs p))
                      (seq 1 (Z.to_nat pages))) w).1) = map json_of_item ordered /\
  ordered ≡ₚ items (DB w) /\
  StronglySorted (fun a b => D1.created_leb (created_at b) (created_at a) = true) ordered /\
  (forall p amb, 1 <= p <= pages -> ordered <> [] ->
     page_items (fetch (page_request p l) amb w).1 <> []) /\
  (forall p amb, pages < p -> page_in_range p l ->
     status (fetch (page_request p l) amb w).1 = 200 /\
     page_items (fetch (page_request p l) amb w).1 = []).
Proof.
  intros Hl Hcount pages ordered.
  assert (Hlen : Z.of_nat (length ordered) = D1.count (DB w)).
  { subst ordered. unfold D1.count. now rewrite order_length. }
  assert (Hc : 0 <= D1.count (DB w)) by (unfold D1.count; lia).
  destruct (ceil_div_pos (D1.count (DB w)) l Hc ltac:(lia)) as (Hc0 & Hczero & Hcbound).
  split; [|split; [|split; [|split; [|split]]]].
  - intros p amb Hp. now apply fetch_page.
  - rewrite serve_pages; [|exact Hl|].
    + assert (Hch : concat (map (fun k => take (Z.to_nat l) (drop (k * Z.to_nat l) ordered))
                              (seq 0 (Z.to_nat pages))) = ordered)
        by (apply chunks_concat; subst pages; nia).
      etransitivity; [|apply (f_equal (map json_of_item) Hch)].
      rewrite concat_map, List.map_map, <- seq_shift, List.map_map.
      f_equal. apply map_ext. intros k. do 3 f_equal.
      replace (Z.of_nat (S k) - 1) with (Z.of_nat k) by lia.
      rewrite Z2Nat.inj_mul by lia. now rewrite Nat2Z.id.
    + apply List.Forall_forall. intros p Hp%in_seq.
      apply (pages_in_range (D1.count (DB w)) l); [lia | lia |]. fold pages. lia.
  - apply order_perm.
  - apply order_sorted.
  - intros p amb Hp Hall.
    destruct (pages_in_range (D1.count (DB w)) l p ltac:(lia) ltac:(lia) Hp) as [Hrange Hoff].
    destruct (fetch_page p l amb w Hl Hrange) as (_ & -> & _ & _).
    assert (Hpos : 0 < D1.count (DB w)) by (destruct ordered; [congruence | cbn in Hlen; lia]).
    intros Hnil. apply (f_equal (@length json)) in Hnil.
    rewrite length_map, length_take, length_drop in Hnil. cbn in Hnil.
    assert (Hoff' : 0 <= (p - 1) * l < D1.count (DB w)) by nia.
    fold ordered in Hnil. set (off := (p - 1) * l) in *. clearbody off. lia.
  - intros p amb Hp Hrange.
    destruct (fetch_page p l amb w Hl Hrange) as (Hs & -> & _ & _).
    split; [exact Hs|].
    assert (Hoff : D1.count (DB w) <= (p - 1) * l) by (subst pages; nia).
    rewrite drop_ge; [now rewrite take_nil|].
    fold ordered. set (off := (p - 1) * l) in *. clearbody off. lia.
Qed.

(** Property X16.  A limit of 0 is not replaced by the default: for a page
    within the safe integers the listing is answered 200 with no rows, and
    the page count it reports is [null] when the table has rows (the
    division by zero gives an infinity) and 1 when it has none. *)
Theorem zero_limit_listing (request : Request) (amb : Ambient)
    (cors : list (string * string)) (w : World) (p : Z) :
  req_method request = "GET" -> path_id (req_pathname request) = None ->
  JsNumber.parseInt (or_default (searchParams_get request "page") "1") = Num p ->
  JsNumber.is_safe_integer p = true ->
  JsNumber.parseInt (or_default (searchParams_get request "limit") "10") = Num 0 ->
  let response := (handleItemsAPI request amb cors w).1 in
  status response = 200 /\
  page_items response = [] /\
  pagination_field "limit" response = Some (Json.of_Z 0) /\
  pagination_field "total" response = Some (Json.of_Z (D1.count (DB w))) /\
  pagination_field "pages" response
  = Some (if D1.count (DB w) =? 0 then Json.of_Z 1 else JNull).
Proof.
  intros Hm Hid Hp Hsafe Hl response. subst response.
  assert (Hmax : 0 <= 0 <= JsNumber.MAX_SAFE_INTEGER) by (now vm_compute).
  assert (Hoff : - JsNumber.MAX_SAFE_INTEGER <= (p - 1) * 0 <= JsNumber.MAX_SAFE_INTEGER)
    by (rewrite Z.mul_0_r; now vm_compute).
  rewrite (list_page request amb cors w p 0 Hm Hid Hp Hl Hmax Hsafe Hoff).
  split; [reflexivity|]. split; [reflexivity|]. split; [reflexivity|].
  split; [reflexivity|].
  assert (Hc : 0 <= D1.count (DB w)) by (unfold D1.count; lia).
  unfold JsNumber.ceil_quot.
  destruct (Z.eqb_spec (D1.count (DB w)) 0); [reflexivity|].
  destruct (Z.ltb_spec 0 (D1.count (DB w))); [reflexivity | lia].
Qed.

(** * Further properties of the routes *)

(** ** Paths *)

Lemma segments_of_path (x rest : string) :
  JsString.contains "/" x = false ->
  JsString.split "/" ("/api/items" +:+ x +:+ String "/" rest)
  = "" :: "api" :: ("items" +:+ x) :: JsString.split "/" rest.
Proof.
  intros Hx.
  change ("/api/items" +:+ x +:+ String "/" rest)
    with ("" +:+ String "/" ("api" +:+ String "/" ("items" +:+ (x +:+ String "/" rest)))).
  rewrite !split_append by reflexivity.
  rewrite <- append_assoc, split_append; [reflexivity|].
  now rewrite contains_append.
Qed.

Lemma segments_of_collection (x : string) :
  JsString.contains "/" x = false ->
  JsString.split "/" ("/api/items" +:+ x) = ["" ; "api"; "items" +:+ x].
Proof.
  intros Hx.
  change ("/api/items" +:+ x)
    with ("" +:+ String "/" ("api" +:+ String "/" ("items" +:+ x))).
  rewrite !split_append by reflexivity.
  rewrite split_free; [reflexivity|]. now rewrite contains_append.
Qed.

Lemma startsWith_append (p y : string) : JsString.startsWith (p +:+ y) p = true.
Proof.
  unfold JsString.startsWith. induction p as [|a p IH].
  - now destruct y.
  - rewrite append_cons. cbn [String.prefix].
    now destruct (Ascii.ascii_dec a a).
Qed.

(** Property X17.  Which paths name an item.  The pieces of the path between
    slashes are counted, empty pieces left out; a path names an item when
    there are exactly three, and the third is the id.  So a trailing slash
    does no harm, a deeper path names nothing, and the second piece only
    has to begin with [items]: every path that begins with [/api/items] is
    handed to the repository. *)
Theorem item_paths (x s t : string) :
  JsString.contains "/" x = false ->
  JsString.contains "/" s = false -> s <> "" ->
  JsString.contains "/" t = false -> t <> "" ->
  JsString.startsWith ("/api/items" +:+ x +:+ "/" +:+ s) "/api/items" = true /\
  path_id ("/api/items" +:+ x) = None /\
  path_id ("/api/items" +:+ x +:+ "/") = None /\
  path_id ("/api/items" +:+ x +:+ "/" +:+ s) = Some s /\
  path_id ("/api/items" +:+ x +:+ "/" +:+ s +:+ "/") = Some s /\
  path_id ("/api/items" +:+ x +:+ "/" +:+ s +:+ "/" +:+ t) = None.
Proof.
  intros Hx Hs Hs0 Ht Ht0.
  assert (Hitems : forall y, (0 <? String.length ("items" +:+ y))%nat = true).
  { intros y. now rewrite append_length. }
  destruct s as [|c s]; [congruence|]. destruct t as [|d t]; [congruence|].
  split; [apply startsWith_append|]. unfold path_id.
  change ("/" +:+ String c s +:+ "/" +:+ String d t)
    with (String "/" (String c s +:+ String "/" (String d t))).
  change ("/" +:+ String c s +:+ "/") with (String "/" (String c s +:+ String "/" "")).
  change ("/" +:+ String c s) with (String "/" (String c s)).
  change (x +:+ "/") with (x +:+ String "/" "").
  rewrite !segments_of_path, segments_of_collection by exact Hx.
  rewrite !split_append by exact Hs.
  rewrite (split_free "/" (String c s)) by exact Hs.
  rewrite (split_free "/" (String d t)) by exact Ht.
  cbn [JsString.split List.filter]. rewrite !Hitems. cbn.
  auto.
Qed.

(** ** Requests the repository refuses *)

(** Property X18.  An update or a delete whose path names no item (the
    collection path, or a deeper path) is answered 400 [ID is required]
    before the body is looked at, so also for a body that is no JSON at
    all; nothing is read or written.  Through [fetch] the answer is that
    400, or 429 when the limiter rejects the request. *)
Theorem update_or_delete_without_id (request : Request) (amb : Ambient) (w : World) :
  req_method request = "PUT" \/ req_method request = "DELETE" ->
  path_id (req_pathname request) = None ->
  (forall cors, handleItemsAPI request amb cors w = (id_required cors, w)) /\
  (JsString.startsWith (req_pathname request) "/api/items" = true ->
   DB (fetch request amb w).2 = DB w /\
   (fetch request amb w).1
   = if limited (checkRateLimit request amb w).1
     then rate_limit_exceeded (checkRateLimit request amb w).1 amb
     else id_required corsHeaders).
Proof.
  intros Hm Hid. split; [intros cors; now apply no_id_handler|].
  intros Hpath.
  rewrite fetch_write_route; trivial; try (destruct Hm as [-> | ->]; discriminate).
  destruct (checkRateLimit_offline request amb w) as [[Hdb _] _].
  destruct (limited _); [auto|].
  rewrite (no_id_handler request amb corsHeaders _ Hm Hid). auto.
Qed.

(** Property X19.  A method other than GET, POST, PUT, DELETE and OPTIONS on
    a path under [/api/items] passes through the rate limiter like a
    write, and is then answered 405 with the list of allowed methods;
    nothing is read from or written to the table.  On the in-memory
    backend, with no counter yet in its window, such a request is admitted
    and uses up one of the two writes of the window. *)
Theorem other_methods_count_as_writes (request : Request) (amb : Ambient) (w : World) :
  req_method request <> "GET" -> req_method request <> "POST" ->
  req_method request <> "PUT" -> req_method request <> "DELETE" ->
  req_method request <> "OPTIONS" ->
  JsString.startsWith (req_pathname request) "/api/items" = true ->
  let key := rateLimitKey (clientIP request) (windowKey (now amb)) in
  is_write_of (clientIP request) request = true /\
  DB (fetch request amb w).2 = DB w /\
  (fetch request amb w).1
  = (if limited (checkRateLimit request amb w).1
     then rate_limit_exceeded (checkRateLimit request amb w).1 amb
     else method_not_allowed corsHeaders) /\
  (RATE_LIMIT_KV w = None -> store_wf (Store.current w) ->
   counter_expiry key w = None ->
   status (fetch request amb w).1 = 405 /\
   RATE_LIMIT_KV (fetch request amb w).2 = None /\
   counter (now amb) key (fetch request amb w).2 = Some (Num 1)).
Proof.
  intros Hget Hpost Hput Hdel Hopt Hpath key.
  assert (Hwrite : is_write_of (clientIP request) request = true).
  { unfold is_write_of, rate_limited_route. rewrite Hpath, String.eqb_refl.
    destruct (String.eqb_spec (req_method request) "OPTIONS"); [contradiction|].
    now destruct (String.eqb_spec (req_method request) "GET"). }
  pose proof (other_method_handler request amb corsHeaders) as Hh.
  destruct (checkRateLimit_offline request amb w) as [[Hdb _] _].
  assert (Hfetch : (fetch request amb w).1
                   = (if limited (checkRateLimit request amb w).1
                      then rate_limit_exceeded (checkRateLimit request amb w).1 amb
                      else method_not_allowed corsHeaders) /\
                   DB (fetch request amb w).2 = DB w).
  { rewrite fetch_write_route by trivial.
    destruct (limited _); [auto|]. rewrite Hh by trivial. auto. }
  destruct Hfetch as [Hr Hdb'].
  split; [exact Hwrite|]. split; [exact Hdb'|]. split; [exact Hr|].
  intros Hkv Hwf Hnone.
  assert (Hc : counter_at (clientIP request) (windowKey (now amb)) 0 w).
  { unfold counter_at, counter_expiry in *. fold key in Hnone |- *.
    rewrite Hkv in Hnone. now destruct (_ !! key). }
  destruct (counter_at_own request amb w _ 0 Hkv Hc Hwf eq_refl) as [Hlim Hc'].
  destruct (fetch_write_status request amb w _ Hwrite) as (_ & _ & Hk & Hs).
  pose proof (fetch_keeps_memory request amb w Hkv) as Hnokv.
  rewrite Hr, Hlim. split; [reflexivity|]. split; [exact Hnokv|].
  cbn in Hc'. unfold counter_at, counter in *. fold key in Hc' |- *.
  rewrite Hnokv. unfold Store.current in *. rewrite Hs.
  destruct (_ !! key) as [e|]; [|discriminate Hc'].
  destruct Hc' as [_ Hcount]. cbn. now rewrite Hcount.
Qed.

(** Property X20.  A create or an update (of an item its path names) whose
    body is not well-formed JSON or is [null], or whose name is a truthy
    value other than a string, or whose description is one while the name
    is usable (and, for an update, the row exists), is answered 400
    [Invalid JSON data]: the exception is caught inside the handler.  The
    table has not changed. *)
Theorem type_errors_answered_400 (request : Request) (amb : Ambient)
    (cors : list (string * string)) (w : World) :
  req_method request = "POST" \/
  (req_method request = "PUT" /\
   exists i, path_id (req_pathname request) = Some i /\
             (untrimmable (body_description request) ->
              is_Some (D1.select_by_id (SqlText i) (DB w)))) ->
  req_body request = None \/ req_body request = Some JNull \/
  untrimmable (body_name request) \/
  ((exists nm, name_given (body_name request) nm) /\
   untrimmable (body_description request)) ->
  (handleItemsAPI request amb cors w).1 = invalid_json cors /\
  DB (handleItemsAPI request amb cors w).2 = DB w.
Proof.
  intros Hm Hbad.
  assert (Hbody : req_body request = None \/ req_body request = Some JNull ->
            (req_method request = "POST" \/
             (req_method request = "PUT" /\ exists i, path_id (req_pathname request) = Some i)) ->
            handleItemsAPI request amb cors w = (invalid_json cors, w)).
  { intros Hb Hm'. unfold handleItemsAPI, handleItemsAPI_try.
    destruct Hm' as [-> | [-> (i & Hid)]]; cbn.
    - unfold handle_post, request_json. run_M. now destruct Hb as [-> | ->].
    - rewrite Hid. unfold handle_put, request_json.
      rewrite (path_id_nonempty _ _ Hid). run_M. now destruct Hb as [-> | ->]. }
  destruct Hbad as [Hb | [Hb | Hbad]].
  1,2: rewrite Hbody; [now split | auto | destruct Hm as [? | [? (i & ? & _)]]; eauto].
  destruct Hm as [Hm | [Hm (i & Hid & Hrow)]].
  - rewrite (post_type_error request amb cors w Hm Hbad). now split.
  - apply (put_type_error request amb cors w i Hm Hid).
    destruct Hbad as [? | [? ?]]; auto.
Qed.

(** ** Headers *)




(** ** Updating twice *)

Lemma update_idem (nm : string) (d : option string) (p : sqlvalue) (db : Database) :
  D1.update nm d p (D1.update nm d p db) = D1.update nm d p db.
Proof.
  unfold D1.update, with_rows. cbn [items sqlite_sequence numeric_text]. f_equal.
  rewrite List.map_map. apply map_ext. intros row.
  change (D1.id_matches {| items := _; sqlite_sequence := _; numeric_text := numeric_text db |})
    with (D1.id_matches db).
  destruct (D1.id_matches db p (id row)) eqn:Hrow; cbn [id]; now rewrite Hrow.
Qed.

(** A read of an id that selects a row. *)
Lemma read_found (read : Request) (amb : Ambient) (cors : list (string * string))
    (w : World) (i : string) (it : Item) :
  req_method read = "GET" -> path_id (req_pathname read) = Some i ->
  D1.select_by_id (SqlText i) (DB w) = Some it ->
  (handleItemsAPI read amb cors w).1 = item_found it cors.
Proof.
  intros Hm Hid Hsel. pose proof (path_id_nonempty _ _ Hid) as Hi.
  unfold handleItemsAPI, handleItemsAPI_try. rewrite Hm, Hid. cbn.
  unfold handle_get. rewrite Hi. unfold Db.first_by_id. run_M. cbn. now rewrite Hsel.
Qed.

(** Property X22.  An update can be repeated: the same PUT sent again is
    answered as the first time and leaves the table as the first one left
    it.  A read of the item after the update shows the new name and
    description under the old id and time stamp. *)
Theorem update_can_be_repeated (request : Request) (amb amb' : Ambient)
    (cors : list (string * string)) (w : World) (nm i : string) (stored : option string)
    (old : Item) :
  req_method request = "PUT" -> path_id (req_pathname request) = Some i ->
  D1.select_by_id (SqlText i) (DB w) = Some old ->
  name_given (body_name request) nm -> stores (body_description request) stored ->
  let first := handleItemsAPI request amb cors w in
  let second := handleItemsAPI request amb' cors first.2 in
  let it := mkItem (id old) (JsString.trim nm) stored (created_at old) in
  first.1 = item_updated (Some it) cors /\
  second.1 = first.1 /\ DB second.2 = DB first.2 /\
  forall read amb'' w'',
    req_method read = "GET" -> req_pathname read = req_pathname request ->
    DB w'' = DB first.2 ->
    (handleItemsAPI read amb'' cors w'').1 = item_found it cors.
Proof.
  intros Hm Hid Hold Hnm Hst first second it. subst first second it.
  destruct (put_updates request amb cors w nm i stored old Hm Hid Hold Hnm Hst) as [Hr Hdb].
  pose proof (select_after_update (JsString.trim nm) stored (SqlText i) (DB w) old Hold)
    as Hnew.
  rewrite <- Hdb in Hnew.
  destruct (put_updates request amb' cors _ nm i stored _ Hm Hid Hnew Hnm Hst) as [Hr2 Hdb2].
  split; [exact Hr|]. split; [now rewrite Hr2, Hr|]. split.
  - rewrite Hdb2, Hdb. apply update_idem.
  - intros read amb'' w'' Hget Hpath Hsame.
    apply read_found with (i := i); trivial; congruence.
Qed.

(** ** The sweep of the process-local map *)

(** Property X23.  On the in-memory backend an admitted request sweeps the
    map when its random draw is below 1/100: afterwards no entry is left
    whose expiry lies before the clock reading.  With a draw of 1/100 or
    more nothing is removed, and no sweep ever removes an entry that has
    not expired. *)
Theorem sweep_removes_only_expired (request : Request) (amb : Ambient) (w : World) :
  RATE_LIMIT_KV w = None ->
  let w' := (checkRateLimit request amb w).2 in
  (limited (checkRateLimit request amb w).1 = false ->
   (random amb < 1 # 100)%Q ->
   forall k e, Store.current w' !! k = Some e -> now amb <= expires e) /\
  ((1 # 100 <= random amb)%Q ->
   forall k, is_Some (Store.current w !! k) -> is_Some (Store.current w' !! k)) /\
  (forall k e, Store.current w !! k = Some e -> now amb <= expires e ->
               is_Some (Store.current w' !! k)).
Proof.
  intros Hkv w'. subst w'.
  unfold checkRateLimit, checkRateLimit_try. run_M. rewrite Hkv.
  set (key := rateLimitKey (clientIP request) (windowKey (now amb))).
  unfold checkRateLimit_memory. run_M.
  unfold Store.ensure, Store.get, Store.set, Store.increment, Store.sweep, Store.current.
  assert (Hins : forall (m : gmap string RateEntry) e0 k,
            is_Some (m !! k) -> is_Some (<[key := e0]> m !! k)).
  { intros m e0 k Hk. destruct (decide (key = k)) as [<- | Hne].
    - rewrite lookup_insert_eq. eauto.
    - now rewrite lookup_insert_ne. }
  assert (Hkeep : forall (m : gmap string RateEntry) e0 k e,
            (forall e1, m !! key = Some e1 -> expires e0 = expires e1) ->
            m !! k = Some e -> now amb <= expires e ->
            is_Some (filter (fun kv : string * RateEntry => ~ expires kv.2 < now amb)
                       (<[key := e0]> m) !! k)).
  { intros m e0 k e He0 Hk Hlive. destruct (decide (key = k)) as [<- | Hne].
    - exists e0. apply map_lookup_filter_Some. split; [apply lookup_insert_eq|]. cbn.
      rewrite (He0 e Hk). lia.
    - exists e. apply map_lookup_filter_Some. split; [|cbn; lia].
      now rewrite lookup_insert_ne. }
  assert (Hswept : forall (m : gmap string RateEntry) k e,
            filter (fun kv : string * RateEntry => ~ expires kv.2 < now amb) m !! k = Some e ->
            now amb <= expires e).
  { intros m k e [_ H]%map_lookup_filter_Some. cbn in H. lia. }
  cbn.
  destruct (rateLimitStore w) as [m|] eqn:Hm; cbn; rewrite ?Hm; cbn.
  - destruct (m !! key) as [e0|] eqn:He0; cbn.
    + destruct (MAX_REQUESTS_PER_WINDOW <=? count e0); cbn; rewrite ?Hm; cbn.
      * split; [discriminate|]. split; [auto|]. intros k e Hk _. eauto.
      * destruct (Qlt_le_dec (random amb) (1 # 100)) as [Hlt | Hge]; cbn; rewrite ?Hm; cbn.
        -- split; [intros _ _; apply Hswept|]. split.
           ++ intros Hge. now apply Qle_not_lt in Hge.
           ++ intros k e Hk Hlive. apply (Hkeep m _ k e); auto.
              intros e1 He1. rewrite He0 in He1. now injection He1 as <-.
        -- split; [intros _ Hlt; now apply Qle_not_lt in Hge|]. split.
           ++ intros _ k Hk. now apply Hins.
           ++ intros k e Hk _. apply Hins. eauto.
    + destruct (Qlt_le_dec (random amb) (1 # 100)) as [Hlt | Hge]; cbn; rewrite ?Hm; cbn.
      * split; [intros _ _; apply Hswept|]. split.
        -- intros Hge. now apply Qle_not_lt in Hge.
        -- intros k e Hk Hlive. apply (Hkeep m _ k e); auto.
           intros e1 He1. congruence.
      * split; [intros _ Hlt; now apply Qle_not_lt in Hge|]. split.
        -- intros _ k Hk. now apply Hins.
        -- intros k e Hk _. apply Hins. eauto.
  - rewrite lookup_empty. cbn.
    destruct (Qlt_le_dec (random amb) (1 # 100)) as [Hlt | Hge]; cbn; rewrite ?Hm; cbn.
    + split; [intros _ _; apply Hswept|]. split.
      * intros Hge. now apply Qle_not_lt in Hge.
      * intros k e Hk. now rewrite lookup_empty in Hk.
    + split; [intros _ Hlt; now apply Qle_not_lt in Hge|]. split.
      * intros _ k [e Hk]. now rewrite lookup_empty in Hk.
      * intros k e Hk. now rewrite lookup_empty in Hk.
Qed.

(** ** Reading one item *)

(** Property X24.  A GET of a path that names an item runs one statement,
    the SELECT of the id, and answers 200 with the row it selects, or 404
    with [{ error: 'Item not found' }] when it selects none.  Nothing else
    in the world changes: neither the table nor the counter stores. *)
Theorem read_one_item (read : Request) (amb : Ambient) (w : World) (i : string) :
  req_method read = "GET" ->
  JsString.startsWith (req_pathname read) "/api/items" = true ->
  path_id (req_pathname read) = Some i ->
  fetch read amb w
  = (match D1.select_by_id (SqlText i) (DB w) with
     | Some it => item_found it corsHeaders
     | None => no_such_item corsHeaders
     end,
     emit (DbStatement Db.select_one_sql [SqlText i]) w).
Proof.
  intros Hm Hpath Hid. rewrite fetch_get_route by trivial.
  pose proof (path_id_nonempty _ _ Hid) as Hi.
  unfold handleItemsAPI, handleItemsAPI_try. rewrite Hm, Hid. cbn.
  unfold handle_get. rewrite Hi. unfold Db.first_by_id. run_M. cbn.
  now destruct (D1.select_by_id (SqlText i) (DB w)).
Qed.

(** * The statements a request runs *)

Lemma within_refl (w : World) : within 0 w w.
Proof. exists []. split; [reflexivity | cbn; lia]. Qed.

Lemma within_trans (a b : nat) (w1 w2 w3 : World) :
  within a w1 w2 -> within b w2 w3 -> within (a + b) w1 w3.
Proof.
  intros (evs1 & Ht1 & Hn1) (evs2 & Ht2 & Hn2).
  exists (evs2 ++ evs1)%list. split.
  - rewrite Ht2, Ht1. apply List.app_assoc.
  - rewrite List.filter_app, length_app. lia.
Qed.

Lemma within_weaken (a b : nat) (w w' : World) :
  (a <= b)%nat -> within a w w' -> within b w w'.
Proof. intros Hab (evs & Ht & Hn). exists evs. split; [exact Ht | lia]. Qed.

Lemma within_emit (e : Event) (w : World) :
  within (if is_db_access e then 1 else 0) w (emit e w).
Proof. exists [e]. split; [reflexivity|]. cbn. destruct (is_db_access e); cbn; lia. Qed.

Lemma within_untouched (w w' : World) : db_untouched w w' -> within 0 w w'.
Proof.
  intros (_ & evs & Ht & Hall). exists evs. split; [exact Ht|]. clear Ht.
  induction Hall as [|e evs He _ IH]; cbn [List.filter length]; [lia|]. now rewrite He.
Qed.

Lemma costs_ret {A : Type} (a : A) : costs 0 (mret a).
Proof. intros w. apply within_refl. Qed.

Lemma costs_throw {A : Type} (e : JsError) : costs 0 (throw e : M A).
Proof. intros w. apply within_refl. Qed.

Lemma costs_weaken {A : Type} (a b : nat) (m : M A) : (a <= b)%nat -> costs a m -> costs b m.
Proof. intros Hab Hm w. eapply within_weaken; [exact Hab | apply Hm]. Qed.

(** A step of cost [a] followed by a rest of cost [n - a]. *)
Lemma costs_bind {A B : Type} (a n : nat) (m : M A) (f : A -> M B) :
  costs a m -> (a <= n)%nat -> (forall x, costs (n - a) (f x)) -> costs n (m ≫= f).
Proof.
  intros Hm Han Hf w. unfold mbind, M_bind.
  specialize (Hm w). destruct (m w) as [[x|e] w1]; cbn in *.
  - replace n with (a + (n - a))%nat by lia.
    eapply within_trans; [exact Hm | apply Hf].
  - eapply within_weaken; [exact Han | exact Hm].
Qed.

Lemma costs_try_catch {A : Type} (n : nat) (m : M A) (h : JsError -> M A) :
  costs n m -> (forall e, costs 0 (h e)) -> costs n (try_catch m h).
Proof.
  intros Hm Hh w. unfold try_catch.
  specialize (Hm w). destruct (m w) as [[x|e] w1]; cbn in *; [exact Hm|].
  replace n with (n + 0)%nat by lia. eapply within_trans; [exact Hm | apply Hh].
Qed.

Lemma costs_pure {A : Type} (m : M A) : (forall w, (m w).2 = w) -> costs 0 m.
Proof. intros H w. rewrite H. apply within_refl. Qed.

Lemma costs_request_json (request : Request) : costs 0 (request_json request).
Proof. apply costs_pure. intros w. unfold request_json. now destruct (req_body request). Qed.

Lemma costs_destructure (data : json) : costs 0 (destructure data).
Proof. apply costs_pure. intros w. now destruct data. Qed.

Lemma costs_call_trim (v : jsvalue) : costs 0 (call_trim v).
Proof. apply costs_pure. intros w. now destruct v as [[]|]. Qed.

Lemma costs_name_missing (v : jsvalue) : costs 0 (name_missing v).
Proof.
  apply costs_pure. intros w. unfold name_missing.
  destruct (Json.truthy v); [|reflexivity]. now destruct v as [[]|].
Qed.

Lemma costs_description_or_null (v : jsvalue) : costs 0 (description_or_null v).
Proof.
  apply costs_pure. intros w. unfold description_or_null.
  destruct (Json.truthy v); [|reflexivity]. now destruct v as [[]|].
Qed.

Lemma costs_statement {A : Type} (m : M A) (sql : string) (params : list sqlvalue) :
  (forall w, trace (m w).2 = DbStatement sql params :: trace w) -> costs 1 m.
Proof.
  intros H w. exists [DbStatement sql params]. split; [apply H | cbn; lia].
Qed.

Lemma costs_first_by_id (p : sqlvalue) : costs 1 (Db.first_by_id p).
Proof. now apply (costs_statement _ Db.select_one_sql [p]). Qed.

Lemma costs_total : costs 1 Db.total.
Proof. now apply (costs_statement _ Db.count_sql []). Qed.

Lemma costs_page (lim off : number) : costs 1 (Db.page lim off).
Proof.
  apply (costs_statement _ Db.page_sql [SqlNumber lim; SqlNumber off]).
  intros w. unfold Db.page. now destruct (D1.select_page lim off (DB w)).
Qed.

Lemma costs_insert (amb : Ambient) (nm : string) (d : option string) :
  costs 1 (Db.insert amb nm d).
Proof. now apply (costs_statement _ Db.insert_sql [SqlText nm; Db.of_option_string d]). Qed.

Lemma costs_update (nm : string) (d : option string) (p : sqlvalue) :
  costs 1 (Db.update nm d p).
Proof. now apply (costs_statement _ Db.update_sql [SqlText nm; Db.of_option_string d; p]). Qed.

Lemma costs_delete (p : sqlvalue) : costs 1 (Db.delete p).
Proof. now apply (costs_statement _ Db.delete_sql [p]). Qed.

Ltac costs_step :=
  first
    [ apply costs_try_catch; [ | intros ?]
    | eapply (costs_bind 1);
        [ first [ apply costs_first_by_id | apply costs_total | apply costs_page
                | apply costs_insert | apply costs_update | apply costs_delete ]
        | cbn; lia | intros ?; cbn [Nat.sub] ]
    | eapply (costs_bind 0);
        [ first [ apply costs_request_json | apply costs_destructure | apply costs_call_trim
                | apply costs_name_missing | apply costs_description_or_null ]
        | cbn; lia | intros ?; cbn [Nat.sub] ]
    | (eapply costs_weaken; [ | first [apply costs_ret | apply costs_throw]]); lia
    | match goal with
      | |- costs _ (match ?x with _ => _ end) => destruct x
      end ].

Lemma costs_handle_get (request : Request) (i : option string)
    (cors : list (string * string)) :
  costs (if truthy_text i then 1 else 2) (handle_get request i cors).
Proof. unfold handle_get. destruct (truthy_text i); repeat costs_step. Qed.

Lemma costs_handle_post (request : Request) (amb : Ambient) (cors : list (string * string)) :
  costs 2 (handle_post request amb cors).
Proof. unfold handle_post. repeat costs_step. Qed.

Lemma costs_handle_put (request : Request) (i : option string)
    (cors : list (string * string)) :
  costs 3 (handle_put request i cors).
Proof. unfold handle_put. repeat costs_step. Qed.

Lemma costs_handle_delete (i : option string) (cors : list (string * string)) :
  costs 2 (handle_delete i cors).
Proof. unfold handle_delete. repeat costs_step. Qed.

(** The statements of the repository, by method. *)
Lemma costs_handleItemsAPI (request : Request) (amb : Ambient)
    (cors : list (string * string)) (w : World) :
  within (if String.eqb (req_method request) "GET"
          then (if truthy_text (path_id (req_pathname request)) then 1 else 2)
          else if String.eqb (req_method request) "POST" then 2
          else if String.eqb (req_method request) "PUT" then 3
          else if String.eqb (req_method request) "DELETE" then 2
          else 0)%nat
    w (handleItemsAPI request amb cors w).2.
Proof.
  unfold handleItemsAPI, handleItemsAPI_try.
  assert (Hwrap : forall (n : nat) (m : M Response), costs n m ->
            within n w (match m w with
                        | (Ok response, w') => (response, w')
                        | (Throw error, w') =>
                            (json_response 500
                               (JObject [("error", JString "Internal server error");
                                         ("details", JString (error_message error))]) cors,
                             emit (ConsoleError "Database error:" error) w')
                        end).2).
  { intros n m Hm. specialize (Hm w). destruct (m w) as [[r|e] w1]; cbn; [exact Hm|].
    replace n with (n + 0)%nat by lia.
    eapply within_trans; [exact Hm | apply (within_emit (ConsoleError _ e))]. }
  cbv zeta.
  destruct (String.eqb (req_method request) "GET"); [apply Hwrap, costs_handle_get|].
  destruct (String.eqb (req_method request) "POST"); [apply Hwrap, costs_handle_post|].
  destruct (String.eqb (req_method request) "PUT"); [apply Hwrap, costs_handle_put|].
  destruct (String.eqb (req_method request) "DELETE"); [apply Hwrap, costs_handle_delete|].
  apply Hwrap, costs_ret.
Qed.

(** Property X25.  No request runs more than three statements on the
    database: an update at most three, every other request at most two, a
    read of one item at most one.  A request that is answered 429, an
    OPTIONS request, a request with a method other than GET, POST, PUT and
    DELETE, and a request for a path outside [/api/items] run none. *)
Theorem at_most_three_statements (request : Request) (amb : Ambient) (w : World) :
  exists evs,
    trace (fetch request amb w).2 = (evs ++ trace w)%list /\
    let n := length (List.filter is_db_access evs) in
    (n <= 3)%nat /\
    (req_method request <> "PUT" -> (n <= 2)%nat) /\
    (req_method request = "GET" -> is_Some (path_id (req_pathname request)) -> (n <= 1)%nat) /\
    (status (fetch request amb w).1 = 429 \/ req_method request = "OPTIONS" \/
     JsString.startsWith (req_pathname request) "/api/items" = false \/
     (req_method request <> "GET" /\ req_method request <> "POST" /\
      req_method request <> "PUT" /\ req_method request <> "DELETE") -> n = 0%nat).
Proof.
  assert (Hgoal : forall n : nat,
            within n w (fetch request amb w).2 ->
            ((n <= 3)%nat /\
             (req_method request <> "PUT" -> (n <= 2)%nat) /\
             (req_method request = "GET" -> is_Some (path_id (req_pathname request)) ->
              (n <= 1)%nat) /\
             (status (fetch request amb w).1 = 429 \/ req_method request = "OPTIONS" \/
              JsString.startsWith (req_pathname request) "/api/items" = false \/
              (req_method request <> "GET" /\ req_method request <> "POST" /\
               req_method request <> "PUT" /\ req_method request <> "DELETE") -> n = 0%nat)) ->
            exists evs,
              trace (fetch request amb w).2 = (evs ++ trace w)%list /\
              let n := length (List.filter is_db_access evs) in
              (n <= 3)%nat /\
              (req_method request <> "PUT" -> (n <= 2)%nat) /\
              (req_method request = "GET" -> is_Some (path_id (req_pathname request)) ->
               (n <= 1)%nat) /\
              (status (fetch request amb w).1 = 429 \/ req_method request = "OPTIONS" \/
               JsString.startsWith (req_pathname request) "/api/items" = false \/
               (req_method request <> "GET" /\ req_method request <> "POST" /\
                req_method request <> "PUT" /\ req_method request <> "DELETE") ->
               n = 0%nat)).
  { intros n (evs & Ht & Hn) (H3 & H2 & H1 & H0). exists evs. split; [exact Ht|].
    cbv zeta. split; [lia|]. split; [intros; specialize (H2 ltac:(assumption)); lia|].
    split; [intros Hg Hi; specialize (H1 Hg Hi); lia|].
    intros H. specialize (H0 H). lia. }
  destruct (String.eqb_spec (req_method request) "OPTIONS") as [Hopt | Hopt].
  { apply (Hgoal 0%nat).
    - unfold fetch. rewrite Hopt. cbn. apply within_refl.
    - repeat split; intros; lia. }
  destruct (JsString.startsWith (req_pathname request) "/api/items") eqn:Hpath.
  2:{ apply (Hgoal 0%nat).
      - unfold fetch, rate_limited_route, dispatch. rewrite Hpath.
        destruct (String.eqb (req_method request) "OPTIONS"); [apply within_refl|].
        cbn. repeat case_match; apply within_refl.
      - repeat split; intros; lia. }
  assert (Hlim : forall n : nat,
            (forall w1, within n w1 (handleItemsAPI request amb corsHeaders w1).2) ->
            status (fetch request amb w).1 = 429 /\ within 0 w (fetch request amb w).2 \/
            status (fetch request amb w).1 <> 429 /\ within n w (fetch request amb w).2).
  { intros n Hn.
    destruct (String.eqb_spec (req_method request) "GET") as [Hget | Hget].
    - right. rewrite fetch_get_route by trivial. split; [|apply Hn].
      apply plain_status_not_429, handleItemsAPI_quiet.
    - rewrite fetch_write_route by trivial.
      destruct (checkRateLimit_offline request amb w) as [Hdb _].
      apply within_untouched in Hdb.
      destruct (limited _); cbn.
      + left. split; [reflexivity | exact Hdb].
      + right. split; [apply plain_status_not_429, handleItemsAPI_quiet|].
        change n with (0 + n)%nat. eapply within_trans; [exact Hdb | apply Hn]. }
  pose proof (fun w1 => costs_handleItemsAPI request amb corsHeaders w1) as Hcost.
  destruct (Hlim _ Hcost) as [[H429 Hw] | [Hno Hw]].
  { apply (Hgoal 0%nat); [exact Hw|]. repeat split; intros; lia. }
  eapply Hgoal; [exact Hw|].
  destruct (String.eqb_spec (req_method request) "GET") as [Hget | Hget].
  { split; [destruct (truthy_text _); lia|]. split; [destruct (truthy_text _); lia|].
    split.
    - intros _ [i Hi]. rewrite Hi, (path_id_nonempty _ _ Hi). lia.
    - intros [H | [H | [H | (H & _)]]]; congruence. }
  destruct (String.eqb_spec (req_method request) "POST") as [Hpost | Hpost].
  { split; [lia|]. split; [lia|]. split; [congruence|].
    intros [H | [H | [H | (_ & H & _)]]]; congruence. }
  destruct (String.eqb_spec (req_method request) "PUT") as [Hput | Hput].
  { split; [lia|]. split; [congruence|]. split; [congruence|].
    intros [H | [H | [H | (_ & _ & H & _)]]]; congruence. }
  destruct (String.eqb_spec (req_method request) "DELETE") as [Hdel | Hdel].
  { split; [lia|]. split; [lia|]. split; [congruence|].
    intros [H | [H | [H | (_ & _ & _ & H)]]]; congruence. }
  repeat split; intros; lia.
Qed.

(** * The form of the page and the repository *)

(** What the body of the form carries, as the repository reads it. *)
Lemma itemData_values (name_value description_value : string) :
  let nm := JsString.trim name_value in
  let descr := JsString.trim description_value in
  nm <> "" ->
  forall request, req_body request = Some (itemData nm descr) ->
    name_given (body_name request) nm /\
    stores (body_description request) (if String.eqb descr "" then None else Some descr).
Proof.
  intros nm descr Hnm request Hbody. unfold body_name, body_description. rewrite Hbody.
  unfold itemData. cbn [Json.assoc].
  change (String.eqb "name" "name") with true.
  change (String.eqb "name" "description") with false.
  change (String.eqb "description" "description") with true. cbv iota.
  split.
  - split; [reflexivity|]. subst nm. now rewrite trim_idem.
  - destruct (String.eqb_spec descr "") as [Hd | Hd].
    + left. now split.
    + right. exists descr. split; [reflexivity|]. split; [exact Hd|].
      subst descr. now rewrite trim_idem.
Qed.

(** Property X26.  The form of the page and the validation of the
    repository agree.  The form sends nothing when the name is blank.
    What it sends is never answered 400: a create is answered 201 and an
    update 200, or 404 when the item has gone, unless the limiter answers
    429; the item then stored has the trimmed name of the form, and its
    trimmed description, or NULL for an empty one.  The id of the item
    being edited is a safe integer, so that the page spells it in
    decimal. *)
Theorem form_submissions_are_valid (name_value description_value : string)
    (currentEditId : option Z) (hdrs : list (string * string))
    (amb : Ambient) (w : World) :
  (forall i, currentEditId = Some i -> JsNumber.is_safe_integer i = true) ->
  let nm := JsString.trim name_value in
  let descr := JsString.trim description_value in
  let stored := if String.eqb descr "" then None else Some descr in
  match submit_request name_value description_value currentEditId hdrs with
  | None => nm = ""
  | Some request =>
      nm <> "" /\
      let r := (fetch request amb w).1 in
      status r = 429 \/
      (isUpdate currentEditId = false /\
       r = item_created
             (Some (mkItem (D1.next_id (DB w)) nm stored (Some (current_timestamp amb))))
             corsHeaders) \/
      (exists i, currentEditId = Some i /\ isUpdate currentEditId = true /\
         match D1.select_by_id (SqlText (JsNumber.Z_toString i)) (DB w) with
         | Some old =>
             r = item_updated (Some (mkItem (id old) nm stored (created_at old))) corsHeaders
         | None => r = item_not_found (JsNumber.Z_toString i) corsHeaders
         end)
  end.
Proof.
  intros _ nm descr stored. unfold submit_request. fold nm descr.
  destruct (String.eqb_spec nm "") as [Hnm | Hnm]; [exact Hnm|].
  assert (Hlim : forall request,
            req_method request <> "OPTIONS" -> req_method request <> "GET" ->
            JsString.startsWith (req_pathname request) "/api/items" = true ->
            status (fetch request amb w).1 = 429 \/
            exists w1, DB w1 = DB w /\
              fetch request amb w = handleItemsAPI request amb corsHeaders w1).
  { intros request Hopt Hget Hpath. rewrite fetch_write_route by trivial.
    destruct (checkRateLimit_offline request amb w) as [[Hdb _] _].
    destruct (limited _); [now left | right; eauto]. }
  assert (Htrim : JsString.trim nm = nm) by apply trim_idem.
  destruct (isUpdate currentEditId) eqn:Hupd.
  - split; [exact Hnm|]. cbv zeta.
    destruct currentEditId as [i|]; [|discriminate]. change (default 0 (Some i)) with i.
    set (request := mkRequest "PUT" ("/api/items/" +:+ JsNumber.Z_toString i) [] hdrs
                      (Some (itemData nm descr))).
    destruct (Hlim request ltac:(discriminate) ltac:(discriminate) (startsWith_items _))
      as [H429 | (w1 & Hdb & ->)]; [now left|].
    right. right. exists i. split; [reflexivity|]. split; [reflexivity|].
    destruct (itemData_values name_value description_value Hnm request eq_refl)
      as [Hname Hdescr].
    assert (Hid : path_id (req_pathname request) = Some (JsNumber.Z_toString i)).
    { apply path_id_item; [apply Z_toString_nonempty | now apply Z_toString_free]. }
    rewrite <- Hdb.
    destruct (D1.select_by_id (SqlText (JsNumber.Z_toString i)) (DB w1)) as [old|] eqn:Hold.
    + destruct (put_updates request amb corsHeaders w1 nm _ stored old
                  eq_refl Hid Hold Hname Hdescr) as [-> _].
      now rewrite Htrim.
    + apply missing_item_handler; eauto.
  - split; [exact Hnm|]. cbv zeta.
    set (request := mkRequest "POST" "/api/items" [] hdrs (Some (itemData nm descr))).
    destruct (Hlim request ltac:(discriminate) ltac:(discriminate) eq_refl)
      as [H429 | (w1 & Hdb & ->)]; [now left|].
    right. left. split; [reflexivity|].
    destruct (itemData_values name_value description_value Hnm request eq_refl)
      as [Hname Hdescr].
    rewrite <- Hdb.
    destruct (post_creates request amb corsHeaders w1 nm stored eq_refl Hname Hdescr)
      as [-> _].
    now rewrite Htrim.
Qed.

(** * The further properties at concrete inputs *)

Lemma window_traffic_in_window :
  Forall (fun ra : Request * Ambient => windowKey (now ra.2) = 0) window_traffic.
Proof. repeat (constructor; [reflexivity|]). constructor. Qed.

(** Property X2 at a concrete input: the third write of client [X] in the
    traffic of window 0 is rejected. *)
Lemma two_writes_per_window_witness :
  RATE_LIMIT_KV fresh_world = None /\
  store_wf (Store.current fresh_world) /\
  counter_expiry (rateLimitKey "X" 0) fresh_world = None /\
  Forall (fun ra : Request * Ambient => windowKey (now ra.2) = 0) window_traffic /\
  exists x,
    nth_error (List.filter (fun x : Request * Response => is_write_of "X" x.1)
                 (serve window_traffic fresh_world).1) 2 = Some x /\
    status x.2 = 429.
Proof.
  split; [reflexivity|]. split; [exact fresh_store_wf|]. split; [reflexivity|].
  split; [exact window_traffic_in_window|].
  eexists. split; [vm_compute; reflexivity|].
  refine (proj2 (two_writes_per_window window_traffic fresh_world "X" 0 2 _ eq_refl
                   fresh_store_wf eq_refl window_traffic_in_window _) _).
  - vm_compute. reflexivity.
  - vm_compute. discriminate.
Defined.

(** Property X1 at a concrete input: client [Y] has written at 150 ms; a
    write of client [X] at 200 ms leaves the counter of [Y] at 1. *)
Lemma limiter_isolates_clients_witness :
  ("Y", 0) <> (clientIP (create_request "X" "C" "d"), windowKey (now (at_time 200))) /\
  RATE_LIMIT_KV after_other_client = None /\
  Store.current after_other_client !! rateLimitKey "Y" 0 = Some (mkRateEntry 1 2150) /\
  Store.current (fetch (create_request "X" "C" "d") (at_time 200) after_other_client).2
    !! rateLimitKey "Y" 0 = Some (mkRateEntry 1 2150).
Proof.
  assert (Hne : ("Y", 0) <> (clientIP (create_request "X" "C" "d"),
                             windowKey (now (at_time 200))))
    by (intros H; vm_compute in H; discriminate H).
  assert (Hy : Store.current after_other_client !! rateLimitKey "Y" 0
               = Some (mkRateEntry 1 2150)) by (vm_compute; reflexivity).
  split; [exact Hne|]. split; [reflexivity|]. split; [exact Hy|].
  destruct (proj2 (limiter_isolates_clients (create_request "X" "C" "d") (at_time 200)
                     after_other_client "Y" 0 Hne) eq_refl)
    as [_ [Hsame | (_ & e & He & Hexp)]].
  - rewrite Hsame. exact Hy.
  - rewrite Hy in He. injection He as <-. cbn in Hexp. lia.
Defined.

(** Property X4 at a concrete input: the counter holds [abc]. *)
Lemma unreadable_counter_admits_witness :
  RATE_LIMIT_KV unreadable_world = Some unreadable_kv /\
  kv_get_fails (at_time 0) = false /\
  KV.lookup 0 "rate_limit:X:0" unreadable_kv = Some "abc" /\ "abc" <> "" /\
  JsNumber.parseInt "abc" = NaN /\
  (checkRateLimit (create_request "X" "A" "d") (at_time 0) unreadable_world).1 = not_limited /\
  RATE_LIMIT_KV (checkRateLimit (create_request "X" "A" "d") (at_time 0) unreadable_world).2
  = Some unreadable_kv.
Proof.
  assert (Hlook : KV.lookup (now (at_time 0))
                    (rateLimitKey (clientIP (create_request "X" "A" "d"))
                       (windowKey (now (at_time 0)))) unreadable_kv = Some "abc")
    by (vm_compute; reflexivity).
  assert (Hne : "abc" <> "") by discriminate.
  split; [reflexivity|]. split; [reflexivity|]. split; [exact Hlook|].
  split; [exact Hne|]. split; [reflexivity|].
  destruct (unreadable_counter_admits (create_request "X" "A" "d") (at_time 0)
              unreadable_world unreadable_kv "abc" eq_refl eq_refl Hlook Hne eq_refl)
    as (Hadmit & _ & Hkv & _).
  split; [exact Hadmit | exact Hkv].
Defined.

(** Property X28 at a concrete input: the four writes of the scenario over
    an empty KV namespace. *)
Lemma kv_namespace_never_written_witness :
  RATE_LIMIT_KV fresh_world_kv = Some ∅ /\
  RATE_LIMIT_KV (serve scenario_traffic fresh_world_kv).2 = Some ∅ /\
  rateLimitStore (serve scenario_traffic fresh_world_kv).2 = None.
Proof.
  split; [reflexivity|].
  destruct (kv_namespace_never_written scenario_traffic fresh_world_kv ∅ eq_refl)
    as (Hkv & Hstore & _).
  split; [exact Hkv | exact Hstore].
Defined.

(** Property X3 at a concrete input: the third write of the scenario. *)
Lemma rejection_has_no_effect_witness :
  status (fetch (create_request "X" "C" "d") (at_time 400)
            (after_two_writes fresh_world)).1 = 429 /\
  rateLimitStore (fetch (create_request "X" "C" "d") (at_time 400)
                    (after_two_writes fresh_world)).2
  = rateLimitStore (after_two_writes fresh_world) /\
  DB (fetch (create_request "X" "C" "d") (at_time 400) (after_two_writes fresh_world)).2
  = DB (after_two_writes fresh_world).
Proof.
  assert (Hs : status (fetch (create_request "X" "C" "d") (at_time 400)
                         (after_two_writes fresh_world)).1 = 429)
    by (vm_compute; reflexivity).
  split; [exact Hs|].
  destruct (rejection_has_no_effect _ _ _ Hs) as (_ & _ & Hstore & Hdb & _).
  split; [exact Hstore | exact Hdb].
Defined.

(** Property X7 at a concrete input: a read. *)
Lemma errors_and_reads_write_nothing_witness :
  (400 <= status (fetch (read_request "1") (at_time 0) (world_with two_items)).1 \/
   req_method (read_request "1") = "GET" \/ req_method (read_request "1") = "OPTIONS") /\
  DB (fetch (read_request "1") (at_time 0) (world_with two_items)).2 = two_items.
Proof.
  assert (H : 400 <= status (fetch (read_request "1") (at_time 0) (world_with two_items)).1 \/
              req_method (read_request "1") = "GET" \/
              req_method (read_request "1") = "OPTIONS")
    by (right; left; reflexivity).
  split; [exact H|].
  exact (errors_and_reads_write_nothing (read_request "1") (at_time 0)
           (world_with two_items) H).
Defined.

Lemma empty_table_wf : table_wf empty_database.
Proof. split; constructor. Qed.

(** Property X8 at a concrete input: the traffic of a window on an empty
    table. *)
Lemma primary_key_kept_witness :
  table_wf (DB fresh_world) /\ table_wf (DB (serve window_traffic fresh_world).2).
Proof.
  split; [exact empty_table_wf|].
  exact (primary_key_kept window_traffic fresh_world empty_table_wf).
Defined.

(** Property X9 at a concrete input. *)
Lemma stored_rows_stay_trimmed_witness :
  Forall row_trimmed (items (DB fresh_world)) /\
  Forall row_trimmed (items (DB (serve window_traffic fresh_world).2)).
Proof.
  assert (H : Forall row_trimmed (items (DB fresh_world))) by constructor.
  split; [exact H|].
  exact (stored_rows_stay_trimmed window_traffic fresh_world H).
Defined.

(** Property X11 at a concrete input: deleting item 2 leaves item 1. *)
Lemma other_rows_untouched_witness :
  D1.select_by_id (SqlText "1") (DB (world_with two_items))
  = Some (mkItem 1 "A" (Some "a") (Some "2024-01-01 00:00:00")) /\
  addresses two_items (delete_request "2") 1 = false /\
  D1.select_by_id (SqlText "1")
    (DB (fetch (delete_request "2") (at_time 0) (world_with two_items)).2)
  = Some (mkItem 1 "A" (Some "a") (Some "2024-01-01 00:00:00")).
Proof.
  split; [reflexivity|]. split; [reflexivity|].
  exact (other_rows_untouched (delete_request "2") (at_time 0) (world_with two_items)
           (SqlText "1") (mkItem 1 "A" (Some "a") (Some "2024-01-01 00:00:00"))
           eq_refl eq_refl).
Defined.

(** An engine that reads [1.0] as 1: the path [/api/items/1.0] names item
    1, and a delete of it removes that row. *)
Example delete_by_another_spelling :
  addresses two_items (delete_request "1.0") 1 = true /\
  status (fetch (delete_request "1.0") (at_time 0) (world_with two_items)).1 = 200 /\
  map id (items (DB (fetch (delete_request "1.0") (at_time 0) (world_with two_items)).2))
  = [2].
Proof. repeat split; reflexivity. Qed.

(** Property X12 at a concrete input: deleting item 2. *)
Lemma delete_then_gone_witness :
  req_method (delete_request "2") = "DELETE" /\
  path_id (req_pathname (delete_request "2")) = Some "2" /\
  D1.select_by_id (SqlText "2") (DB (world_with two_items))
  = Some (mkItem 2 "B" None (Some "2024-01-02 00:00:00")) /\
  D1.select_by_id (SqlText "2")
    (DB (handleItemsAPI (delete_request "2") (at_time 0) corsHeaders
           (world_with two_items)).2) = None.
Proof.
  split; [reflexivity|]. split; [reflexivity|]. split; [reflexivity|].
  exact (proj1 (proj2 (proj2 (proj2
           (delete_then_gone (delete_request "2") (at_time 0) corsHeaders
              (world_with two_items) "2" (mkItem 2 "B" None (Some "2024-01-02 00:00:00"))
              eq_refl eq_refl eq_refl))))).
Defined.

Lemma name_given_C :
  name_given (body_name (update_request "2" (padded "C") "")) (padded "C").
Proof. split; [reflexivity | vm_compute; discriminate]. Qed.

Lemma stores_empty : stores (body_description (update_request "2" (padded "C") "")) None.
Proof. left. split; reflexivity. Qed.

(** Property X13 at a concrete input: renaming item 2, with white space
    around the new name. *)
Lemma update_keeps_identity_witness :
  req_method (update_request "2" (padded "C") "") = "PUT" /\
  path_id (req_pathname (update_request "2" (padded "C") "")) = Some "2" /\
  D1.select_by_id (SqlText "2") (DB (world_with two_items))
  = Some (mkItem 2 "B" None (Some "2024-01-02 00:00:00")) /\
  name_given (body_name (update_request "2" (padded "C") "")) (padded "C") /\
  stores (body_description (update_request "2" (padded "C") "")) None /\
  map id (items (DB (handleItemsAPI (update_request "2" (padded "C") "") (at_time 0)
                       corsHeaders (world_with two_items)).2))
  = map id (items (DB (world_with two_items))) /\
  map name (items (DB (handleItemsAPI (update_request "2" (padded "C") "") (at_time 0)
                         corsHeaders (world_with two_items)).2)) = ["A"; "C"].
Proof.
  split; [reflexivity|]. split; [reflexivity|]. split; [reflexivity|].
  split; [exact name_given_C|]. split; [exact stores_empty|].
  split; [|reflexivity].
  exact (proj1 (update_keeps_identity (update_request "2" (padded "C") "") (at_time 0)
                  corsHeaders (world_with two_items) (padded "C") "2" None
                  (mkItem 2 "B" None (Some "2024-01-02 00:00:00"))
                  eq_refl eq_refl eq_refl name_given_C stores_empty)).
Defined.

(** Property X14 at a concrete input: the first create on an empty table. *)
Lemma create_appends_one_row_witness :
  status (fetch (create_request "X" "A" "d") (at_time 0) fresh_world).1 = 201 /\
  D1.count (DB (fetch (create_request "X" "A" "d") (at_time 0) fresh_world).2)
  = D1.count (DB fresh_world) + 1.
Proof.
  assert (Hs : status (fetch (create_request "X" "A" "d") (at_time 0) fresh_world).1 = 201)
    by reflexivity.
  split; [exact Hs|].
  destruct (create_appends_one_row _ _ _ Hs) as (it & _ & _ & Hcount & _).
  exact Hcount.
Defined.

(** Property X15 at a concrete input: fifteen rows, ten a page. *)
Lemma pages_cover_the_table_witness :
  1 <= 10 <= JsNumber.MAX_SAFE_INTEGER /\
  D1.count (DB (world_with fifteen_items)) <= JsNumber.MAX_SAFE_INTEGER /\
  concat (map (fun x : Request * Response => page_items x.2)
            (serve (map (fun p => (page_request (Z.of_nat p) 10, at_time 0)) (seq 1 2))
               (world_with fifteen_items)).1)
  = map json_of_item (D1.order_by_created_at_desc (items fifteen_items)) /\
  page_items (fetch (page_request 3 10) (at_time 0) (world_with fifteen_items)).1 = [].
Proof.
  assert (H : 1 <= 10 <= JsNumber.MAX_SAFE_INTEGER) by (now vm_compute).
  assert (Hc : D1.count (DB (world_with fifteen_items)) <= JsNumber.MAX_SAFE_INTEGER)
    by (now vm_compute).
  assert (Hr : page_in_range 3 10) by (split; reflexivity).
  split; [exact H|]. split; [exact Hc|].
  destruct (pages_cover_the_table 10 (fun _ => at_time 0) (world_with fifteen_items) H Hc)
    as (_ & Hall & _ & _ & _ & Hlater).
  split; [exact Hall|].
  exact (proj2 (Hlater 3 (at_time 0) ltac:(vm_compute; reflexivity) Hr)).
Defined.

(** Property X16 at a concrete input: [limit=0] over fifteen rows. *)
Lemma zero_limit_listing_witness :
  req_method (list_request [("limit", "0")]) = "GET" /\
  path_id (req_pathname (list_request [("limit", "0")])) = None /\
  JsNumber.is_safe_integer 1 = true /\
  pagination_field "pages"
    (handleItemsAPI (list_request [("limit", "0")]) (at_time 0) corsHeaders
       (world_with fifteen_items)).1 = Some JNull.
Proof.
  split; [reflexivity|]. split; [reflexivity|]. split; [reflexivity|].
  exact (proj2 (proj2 (proj2 (proj2
           (zero_limit_listing (list_request [("limit", "0")]) (at_time 0) corsHeaders
              (world_with fifteen_items) 1 eq_refl eq_refl eq_refl eq_refl eq_refl))))).
Defined.

(** Beyond the safe integers the listing fails: a limit of 23 digits is
    no integer that D1 binds, and a page of 309 digits is an infinity,
    whose offset at limit 0 is [NaN].  Both are answered 500. *)
Example unsafe_listing_parameters :
  status (handleItemsAPI (list_request [("limit", "99999999999999999999999")])
            (at_time 0) corsHeaders (world_with fifteen_items)).1 = 500 /\
  status (handleItemsAPI
            (list_request [("page", "1" +:+ JsNumber.Z_toString (10 ^ 308)); ("limit", "0")])
            (at_time 0) corsHeaders (world_with fifteen_items)).1 = 500.
Proof. split; vm_compute; reflexivity. Qed.

(** Property X17 at a concrete input. *)
Lemma item_paths_witness :
  JsString.contains "/" "-old" = false /\ JsString.contains "/" "7" = false /\
  "7" <> "" /\ JsString.contains "/" "tags" = false /\ "tags" <> "" /\
  path_id "/api/items-old/7" = Some "7" /\ path_id "/api/items-old/7/tags" = None.
Proof.
  assert (H7 : "7" <> "") by discriminate.
  assert (Ht : "tags" <> "") by discriminate.
  split; [reflexivity|]. split; [reflexivity|]. split; [exact H7|].
  split; [reflexivity|]. split; [exact Ht|].
  destruct (item_paths "-old" "7" "tags" eq_refl eq_refl H7 eq_refl Ht)
    as (_ & _ & _ & Hitem & _ & Hdeep).
  split; [exact Hitem | exact Hdeep].
Defined.

(** Property X18 at a concrete input: an update of [/api/items/]. *)
Lemma update_or_delete_without_id_witness :
  (req_method (update_request "" "A" "d") = "PUT" \/
   req_method (update_request "" "A" "d") = "DELETE") /\
  path_id (req_pathname (update_request "" "A" "d")) = None /\
  handleItemsAPI (update_request "" "A" "d") (at_time 0) corsHeaders fresh_world
  = (id_required corsHeaders, fresh_world).
Proof.
  assert (Hm : req_method (update_request "" "A" "d") = "PUT" \/
               req_method (update_request "" "A" "d") = "DELETE") by (left; reflexivity).
  split; [exact Hm|]. split; [reflexivity|].
  exact (proj1 (update_or_delete_without_id (update_request "" "A" "d") (at_time 0)
                  fresh_world Hm eq_refl) corsHeaders).
Defined.

(** Property X19 at a concrete input: a PATCH is answered 405 and counted. *)
Lemma other_methods_count_as_writes_witness :
  req_method patch_request <> "GET" /\ req_method patch_request <> "POST" /\
  req_method patch_request <> "PUT" /\ req_method patch_request <> "DELETE" /\
  req_method patch_request <> "OPTIONS" /\
  JsString.startsWith (req_pathname patch_request) "/api/items" = true /\
  RATE_LIMIT_KV fresh_world = None /\ store_wf (Store.current fresh_world) /\
  counter_expiry "rate_limit:X:0" fresh_world = None /\
  DB (fetch patch_request (at_time 0) fresh_world).2 = DB fresh_world /\
  status (fetch patch_request (at_time 0) fresh_world).1 = 405 /\
  counter 0 "rate_limit:X:0" (fetch patch_request (at_time 0) fresh_world).2 = Some (Num 1).
Proof.
  assert (H1 : req_method patch_request <> "GET") by discriminate.
  assert (H2 : req_method patch_request <> "POST") by discriminate.
  assert (H3 : req_method patch_request <> "PUT") by discriminate.
  assert (H4 : req_method patch_request <> "DELETE") by discriminate.
  assert (H5 : req_method patch_request <> "OPTIONS") by discriminate.
  do 5 (split; [assumption|]). split; [reflexivity|]. split; [reflexivity|].
  split; [exact fresh_store_wf|]. split; [reflexivity|].
  destruct (other_methods_count_as_writes patch_request (at_time 0) fresh_world
              H1 H2 H3 H4 H5 eq_refl) as (_ & Hdb & _ & Hcount).
  split; [exact Hdb|].
  destruct (Hcount eq_refl fresh_store_wf eq_refl) as (Hs & _ & Hc).
  split; [exact Hs | exact Hc].
Defined.

Lemma untrimmable_true : untrimmable (body_name (create_with (Some (JObject [("name", JBool true)])))).
Proof. split; [reflexivity | intros s H; discriminate H]. Qed.

(** Property X20 at a concrete input: the name is [true]. *)
Lemma type_errors_answered_400_witness :
  req_method (create_with (Some (JObject [("name", JBool true)]))) = "POST" /\
  untrimmable (body_name (create_with (Some (JObject [("name", JBool true)])))) /\
  (handleItemsAPI (create_with (Some (JObject [("name", JBool true)]))) (at_time 0)
     corsHeaders fresh_world).1 = invalid_json corsHeaders.
Proof.
  split; [reflexivity|]. split; [exact untrimmable_true|].
  exact (proj1 (type_errors_answered_400
                  (create_with (Some (JObject [("name", JBool true)]))) (at_time 0)
                  corsHeaders fresh_world (or_introl eq_refl)
                  (or_intror (or_intror (or_introl untrimmable_true))))).
Defined.

(** A name of one no-break space with a description that is no string: the
    name is blank, and the answer is [Name is required]. *)
Example blank_name_before_description :
  (handleItemsAPI
     (create_with (Some (JObject [("name", JString nbsp); ("description", JBool true)])))
     (at_time 0) corsHeaders fresh_world).1 = name_required corsHeaders.
Proof. reflexivity. Qed.

(** Property X22 at a concrete input: renaming item 2 twice. *)
Lemma update_can_be_repeated_witness :
  req_method (update_request "2" (padded "C") "") = "PUT" /\
  path_id (req_pathname (update_request "2" (padded "C") "")) = Some "2" /\
  D1.select_by_id (SqlText "2") (DB (world_with two_items))
  = Some (mkItem 2 "B" None (Some "2024-01-02 00:00:00")) /\
  name_given (body_name (update_request "2" (padded "C") "")) (padded "C") /\
  stores (body_description (update_request "2" (padded "C") "")) None /\
  (handleItemsAPI (update_request "2" (padded "C") "") (at_time 0) corsHeaders
     (world_with two_items)).1
  = item_updated (Some (mkItem 2 "C" None (Some "2024-01-02 00:00:00"))) corsHeaders.
Proof.
  split; [reflexivity|]. split; [reflexivity|]. split; [reflexivity|].
  split; [exact name_given_C|]. split; [exact stores_empty|].
  exact (proj1 (update_can_be_repeated (update_request "2" (padded "C") "") (at_time 0)
                  (at_time 5) corsHeaders (world_with two_items) (padded "C") "2" None
                  (mkItem 2 "B" None (Some "2024-01-02 00:00:00"))
                  eq_refl eq_refl eq_refl name_given_C stores_empty)).
Defined.

(** Property X23 at a concrete input: at 2500 ms a write of client [Z]
    draws 0 and sweeps.  The counter of [X], which expired at 2000 ms, is
    removed; the counter of [Y], which expires at 4400 ms, stays. *)
Lemma sweep_removes_only_expired_witness :
  RATE_LIMIT_KV before_sweep = None /\
  limited (checkRateLimit (create_request "Z" "D" "d") (sweeping_at 2500) before_sweep).1
  = false /\
  (random (sweeping_at 2500) < 1 # 100)%Q /\
  Store.current before_sweep !! "rate_limit:X:0" = Some (mkRateEntry 2 2000) /\
  Store.current before_sweep !! "rate_limit:Y:2" = Some (mkRateEntry 1 4400) /\
  (forall k e,
     Store.current
       (checkRateLimit (create_request "Z" "D" "d") (sweeping_at 2500) before_sweep).2
       !! k = Some e -> 2500 <= expires e) /\
  Store.current
    (checkRateLimit (create_request "Z" "D" "d") (sweeping_at 2500) before_sweep).2
    !! "rate_limit:X:0" = None /\
  is_Some (Store.current
             (checkRateLimit (create_request "Z" "D" "d") (sweeping_at 2500) before_sweep).2
             !! "rate_limit:Y:2").
Proof.
  assert (Hlim : limited (checkRateLimit (create_request "Z" "D" "d") (sweeping_at 2500)
                            before_sweep).1 = false) by (vm_compute; reflexivity).
  assert (Hdraw : (random (sweeping_at 2500) < 1 # 100)%Q) by reflexivity.
  assert (Hx : Store.current before_sweep !! "rate_limit:X:0" = Some (mkRateEntry 2 2000))
    by (vm_compute; reflexivity).
  assert (Hy : Store.current before_sweep !! "rate_limit:Y:2" = Some (mkRateEntry 1 4400))
    by (vm_compute; reflexivity).
  split; [reflexivity|]. split; [exact Hlim|]. split; [exact Hdraw|].
  split; [exact Hx|]. split; [exact Hy|].
  destruct (sweep_removes_only_expired (create_request "Z" "D" "d") (sweeping_at 2500)
              before_sweep eq_refl) as (Hswept & _ & Hkept).
  split; [exact (Hswept Hlim Hdraw)|]. split; [vm_compute; reflexivity|].
  apply (Hkept _ _ Hy). cbn. lia.
Defined.

(** Property X24 at a concrete input: item 1 of two, spelled [1.0]. *)
Lemma read_one_item_witness :
  req_method (read_request "1.0") = "GET" /\
  JsString.startsWith (req_pathname (read_request "1.0")) "/api/items" = true /\
  path_id (req_pathname (read_request "1.0")) = Some "1.0" /\
  (fetch (read_request "1.0") (at_time 0) (world_with two_items)).1
  = item_found (mkItem 1 "A" (Some "a") (Some "2024-01-01 00:00:00")) corsHeaders.
Proof.
  split; [reflexivity|]. split; [reflexivity|]. split; [reflexivity|].
  exact (f_equal fst (read_one_item (read_request "1.0") (at_time 0) (world_with two_items)
                        "1.0" eq_refl eq_refl eq_refl)).
Defined.

Lemma scenario_traffic_sorted :
  StronglySorted (fun a b : Request * Ambient => now a.2 <= now b.2) scenario_traffic.
Proof. repeat (constructor; [|repeat constructor; cbn; lia]). constructor. Qed.

(** Property X5 at a concrete input: the writes of the scenario at 0, 200,
    400 and 1050 ms; the third write of window 0 is rejected. *)
Lemma two_writes_in_every_window_witness :
  RATE_LIMIT_KV fresh_world = None /\
  store_wf (Store.current fresh_world) /\
  counter_expiry (rateLimitKey "X" 0) fresh_world = None /\
  StronglySorted (fun a b : Request * Ambient => now a.2 <= now b.2) scenario_traffic /\
  exists r,
    nth_error (window_writes "X" 0 scenario_traffic fresh_world) 2 = Some r /\
    status r = 429.
Proof.
  split; [reflexivity|]. split; [exact fresh_store_wf|]. split; [reflexivity|].
  split; [exact scenario_traffic_sorted|].
  eexists. split; [vm_compute; reflexivity|].
  refine (proj2 (two_writes_in_every_window scenario_traffic fresh_world "X" 0 2 _ eq_refl
                   fresh_store_wf eq_refl scenario_traffic_sorted _) _).
  - vm_compute. reflexivity.
  - vm_compute. discriminate.
Defined.

Lemma edited_id_safe (i : Z) : Some 2 = Some i -> JsNumber.is_safe_integer i = true.
Proof. now intros [= <-]. Qed.

(** Property X26 at a concrete input: item 2 is being edited, and the
    fields of the form hold a name and a description with white space
    around them. *)
Lemma form_submissions_are_valid_witness :
  (forall i, Some 2 = Some i -> JsNumber.is_safe_integer i = true) /\
  exists request,
    submit_request (padded "C") (padded "c") (Some 2) [] = Some request /\
    (fetch request (at_time 0) (world_with two_items)).1
    = item_updated (Some (mkItem 2 "C" (Some "c") (Some "2024-01-02 00:00:00")))
        corsHeaders.
Proof.
  split; [exact edited_id_safe|].
  eexists. split; [reflexivity|].
  pose proof (form_submissions_are_valid (padded "C") (padded "c") (Some 2) []
                (at_time 0) (world_with two_items) edited_id_safe) as H.
  cbv zeta in H.
  change (submit_request (padded "C") (padded "c") (Some 2) [])
    with (Some (update_request "2" "C" "c")) in H.
  cbv iota beta in H.
  destruct H as [_ [H429 | [[Hnew _] | (i & [= <-] & _ & Hupd)]]].
  - vm_compute in H429. discriminate H429.
  - discriminate Hnew.
  - exact Hupd.
Defined.
